(** * fox32 host driver (src/main.c): timing scheduler, execution loop and
      interrupt dispatch, embedded as Rocq functions.

    Conventions of the embedding.
    - [int] and [uint32_t] values are integers of [Z]; every conversion to a
      32-bit type is written out with [to_int] / [to_uint32] (two's
      complement wrap-around, as the targets of this program compute it).
      A signed addition that overflows is undefined in C; the model gives it
      the wrapped value, and a theorem that speaks of defined behaviour
      states separately that the exact sum is in [in_int].
    - Integer division traps on a zero divisor (and on INT_MIN / -1), and a
      float-to-int conversion whose value does not fit is undefined: both are
      [None] in the model.
    - [float] is IEEE 754 binary32, taken from the Standard Library's
      [SpecFloat] at precision 24 and maximal exponent 128.
    - Collaborators whose code lives in other translation units (the CPU core,
      the bus, SDL, the screen layer) are the fields of the class [Platform];
      the driver is a function of them.
    - The driver emits a list of [event]s, one at each place where main.c
      calls out or updates the real-time clock shadow. *)

From Stdlib Require Import ZArith List Bool Lia String FinFun.
From Stdlib Require Import Reals Lra Psatz.
From Stdlib Require Import Floats.SpecFloat Floats.FloatClass.
Import ListNotations.

Local Open Scope Z_scope.

(** ** 32-bit integers *)

Definition INT_MIN : Z := - 2 ^ 31.
Definition INT_MAX : Z := 2 ^ 31 - 1.

(** Conversion to [int]: the value modulo 2^32 in [INT_MIN, INT_MAX]. *)
Definition to_int (z : Z) : Z := (z + 2 ^ 31) mod 2 ^ 32 - 2 ^ 31.

(** Conversion to [uint32_t]. *)
Definition to_uint32 (z : Z) : Z := z mod 2 ^ 32.

Definition in_int (z : Z) : Prop := INT_MIN <= z <= INT_MAX.

(** [a / b] on [int]: truncation toward zero; no result when the divisor is
    zero or the quotient overflows. *)
Definition int_div (a b : Z) : option Z :=
  if b =? 0 then None
  else if (a =? INT_MIN) && (b =? -1) then None
  else Some (Z.quot a b).

Definition obind {A B : Type} (o : option A) (f : A -> option B) : option B :=
  match o with
  | Some a => f a
  | None => None
  end.

Notation "x <- o ;; k" := (obind o (fun x => k))
  (at level 61, o at next level, right associativity).

(** ** Constants of main.c *)

Definition CYCLE_AUTOADJUST_TOLERANCE : Z := 10.
Definition CYCLE_AUTOADJUST_ADD : Z := 1000.
Definition FPS : Z := 60.
Definition TPF : Z := 1.
Definition TPS : Z := FPS * TPF.

(** ** The fixed budget (main_loop, lines 167-173) *)

(** [int dt = SDL_GetTicks() - tick_start;] the difference is taken on
    [uint32_t] and then converted to [int]. *)
Definition elapsed_dt (now tick_start : Z) : Z :=
  to_int (to_uint32 (now - tick_start)).

(** [if (!dt) dt = 1;] *)
Definition clamp_dt (dt : Z) : Z := if dt =? 0 then 1 else dt.

Section Budget.

(** FOX32_CPU_HZ is defined in cpu.h, which is not part of the sources at
    hand: the clock rate is a parameter of the budget. *)
Variable FOX32_CPU_HZ : Z.

(** [int cycles_per_tick = FOX32_CPU_HZ / TPS / dt;]
    [int extra_cycles = FOX32_CPU_HZ / TPS - (cycles_per_tick * dt);] *)
Definition base_budget (dt : Z) : option (Z * Z) :=
  per_tick <- int_div FOX32_CPU_HZ TPS ;;
  cycles_per_tick <- int_div per_tick dt ;;
  per_tick' <- int_div FOX32_CPU_HZ TPS ;;
  Some (cycles_per_tick, to_int (per_tick' - to_int (cycles_per_tick * dt))).

(** The scheduler's contract [next_budget(elapsed_ms)] in the fixed build:
    the elapsed time read as an [int], the clamp, the two divisions. *)
Definition next_budget (elapsed_ms : Z) : option (Z * Z) :=
  base_budget (clamp_dt (to_int elapsed_ms)).

End Budget.

(** [int cycles_left = cycles_per_tick;]
    [if (i == dt - 1) cycles_left += extra_cycles;] *)
Definition slice_cycles (cycles_per_tick extra_cycles dt i : Z) : Z :=
  if i =? to_int (dt - 1) then to_int (cycles_per_tick + extra_cycles)
  else cycles_per_tick.

(** The indices [0 .. dt-1] that [for (int i = 0; i < dt; i++)] visits. *)
Definition slice_indices (dt : Z) : list Z :=
  map Z.of_nat (seq 0 (Z.to_nat dt)).

(** The cycle count each slice of a tick starts with. *)
Definition slice_plan (cycles_per_tick extra_cycles dt : Z) : list Z :=
  map (slice_cycles cycles_per_tick extra_cycles dt) (slice_indices dt).

Definition zsum (l : list Z) : Z := fold_right Z.add 0 l.

(** ** binary32 and the adaptive budget (CYCLE_AUTOADJUST, lines 175-187) *)

Definition float : Type := spec_float.

Definition float_of_int (z : Z) : float := binary_normalize 24 128 z 0 false.

Definition float_div (x y : float) : float := SFdiv 24 128 x y.

(** [isnormal]: neither zero, subnormal, infinite nor NaN. *)
Definition isnormal (x : float) : bool :=
  match SFclassify 24 x with
  | PNormal | NNormal => true
  | _ => false
  end.

(** Conversion of a [float] to [int]: the value truncated toward zero when
    that fits an [int], undefined otherwise (infinities and NaN included). *)
Definition int_of_float (x : float) : option Z :=
  match x with
  | S754_zero _ => Some 0
  | S754_finite s m e =>
      let mag := Z.shiftl (Zpos m) e in
      let v := if s then - mag else mag in
      if (INT_MIN <=? v) && (v <=? INT_MAX) then Some v else None
  | _ => None
  end.

(** One unit in the last of 24 bits, as a relative error. *)
Definition ulp24 : R := (/ 8388608)%R.

(** The literal [1000.0f]. *)
Definition f1000 : float := float_of_int 1000.

(** [last_tps > (TPS - CYCLE_AUTOADJUST_TOLERANCE) &&
     last_tps < (TPS + CYCLE_AUTOADJUST_TOLERANCE)] *)
Definition in_band (last_tps : Z) : bool :=
  (TPS - CYCLE_AUTOADJUST_TOLERANCE <? last_tps)
  && (last_tps <? TPS + CYCLE_AUTOADJUST_TOLERANCE).

(** [int last_tps = 1000 / (dt / TPF);] *)
Definition measured_tps (dt : Z) : option Z :=
  per_frame <- int_div dt TPF ;;
  int_div 1000 per_frame.

(** [float mspc = (float)dt / last_cycle_count;] *)
Definition ms_per_cycle (dt last_cycle_count : Z) : float :=
  float_div (float_of_int dt) (float_of_int last_cycle_count).

(** [isnormal(mspc) ? (1000.0f / TPS) / mspc : cycles_per_tick], converted
    to [int] by the assignment. The conditional has type [float], so the
    third operand is converted to [float] as well. *)
Definition rescaled_budget (mspc : float) (cycles_per_tick : Z) : option Z :=
  int_of_float
    (if isnormal mspc
     then float_div (float_div f1000 (float_of_int TPS)) mspc
     else float_of_int cycles_per_tick).

(** The block under [#ifdef CYCLE_AUTOADJUST]: from the persisted
    [last_cycle_count], [dt] and the fixed budget to the budget of this tick
    and the new [last_cycle_count]. *)
Definition autoadjust (last_cycle_count dt cycles_per_tick extra_cycles : Z)
  : option (Z * Z * Z) :=
  last_tps <- measured_tps dt ;;
  branch <-
    (if in_band last_tps then Some (last_cycle_count, 0)
     else if last_tps <? TPS then
       cycles_per_tick' <-
         rescaled_budget (ms_per_cycle dt last_cycle_count) cycles_per_tick ;;
       Some (cycles_per_tick', 0)
     else Some (cycles_per_tick, extra_cycles)) ;;
  let cycles_per_tick := fst branch in
  let extra_cycles := to_int (snd branch + CYCLE_AUTOADJUST_ADD) in
  Some (cycles_per_tick, extra_cycles, to_int (cycles_per_tick + extra_cycles)).

(** The budget of one tick, [(cycles_per_tick, extra_cycles, last_cycle_count)];
    [adaptive] says whether CYCLE_AUTOADJUST is defined. *)
Definition cycle_budget (FOX32_CPU_HZ : Z) (adaptive : bool)
    (last_cycle_count dt : Z) : option (Z * Z * Z) :=
  base <- base_budget FOX32_CPU_HZ dt ;;
  if adaptive then autoadjust last_cycle_count dt (fst base) (snd base)
  else Some (fst base, snd base, last_cycle_count).

(** [int last_cycle_count = 1;] *)
Definition initial_cycle_count : Z := 1.

(** The persisted estimate after a run of ticks whose clamped elapsed times
    are [dts], starting from [last_cycle_count]. *)
Fixpoint estimate_after (FOX32_CPU_HZ : Z) (dts : list Z) (last_cycle_count : Z)
  : option Z :=
  match dts with
  | [] => Some last_cycle_count
  | dt :: rest =>
      b <- cycle_budget FOX32_CPU_HZ true last_cycle_count (clamp_dt dt) ;;
      estimate_after FOX32_CPU_HZ rest (snd b)
  end.

(** ** The collaborators of main.c *)

(** [fox32_err_t] is an enumeration of cpu.h: an integer code. *)
Definition fox32_err_t : Type := Z.

(** The fields of [fox32_vm_t] that main.c reads or writes by name; [cpu]
    stands for the rest of the structure (registers, memory, ROM). *)
Record fox32_vm_t (cpu_t : Type) : Type := Build_vm {
  cpu : cpu_t;
  halted : bool;
  debug : bool;
  headless : bool
}.
Arguments Build_vm {cpu_t} _ _ _ _.
Arguments cpu {cpu_t} _.
Arguments halted {cpu_t} _.
Arguments debug {cpu_t} _.
Arguments headless {cpu_t} _.

(** What main.c takes from cpu.h, bus.h, screen.h, disk.h, serial.h, SDL and
    libc. [host_t] is the state behind those interfaces (host clock, window,
    peripherals, the bus's exit flag); an operation that can change it
    returns the new one. *)
Class Platform : Type := {
  cpu_t : Type;
  host_t : Type;
  FOX32_CPU_HZ : Z;
  FOX32_ERR_OK : fox32_err_t;
  VSYNC_INTERRUPT_VECTOR : Z;
  (** [fox32_init(&vm)] on the zero-initialised global, with the bus
      callbacks and the built-in ROM installed. *)
  fox32_init : fox32_vm_t cpu_t;
  (** [fox32_resume(&vm, count, &executed)]: the error code, the value left
      in [executed] (which main_loop has set to 0 before the call), and the
      new state. *)
  fox32_resume :
    fox32_vm_t cpu_t -> host_t -> Z ->
    fox32_err_t * Z * (fox32_vm_t cpu_t * host_t);
  fox32_recover :
    fox32_vm_t cpu_t -> host_t -> fox32_err_t ->
    fox32_err_t * (fox32_vm_t cpu_t * host_t);
  fox32_raise :
    fox32_vm_t cpu_t -> host_t -> Z -> fox32_vm_t cpu_t * host_t;
  fox32_strerr : fox32_err_t -> string;
  bus_requests_exit : host_t -> bool;
  SDL_GetTicks : host_t -> Z * host_t;
  SDL_Delay : Z -> host_t -> host_t;
  SDL_Init : host_t -> Z * host_t;
  (** [SDL_ShowCursor], [ScreenCreate] and [ScreenInit], in this order. *)
  screen_setup : host_t -> host_t;
  ScreenDraw : fox32_vm_t cpu_t -> host_t -> host_t;
  ScreenProcessEvents : host_t -> bool * host_t;
  serial_init : host_t -> host_t;
  new_disk : string -> Z -> host_t -> host_t;
  (** [fopen] and [fread] of load_rom: the new ROM contents, if the file
      opens. *)
  read_rom : string -> host_t -> option (cpu_t -> cpu_t);
  time_now : host_t -> Z * host_t
}.

(** Conditional compilation of main.c. CYCLE_AUTOADJUST is defined by the
    file itself under __EMSCRIPTEN__. *)
Record build : Type := Build_build {
  emscripten : bool;
  cycle_autoadjust : bool;
  windows : bool
}.

Definition adaptive (b : build) : bool := emscripten b || cycle_autoadjust b.

(** ** Events *)

(** One event at each call-out of main.c that a claim speaks about. [slice]
    is the value of [i] in the [for] loop of main_loop. *)
Inductive event : Type :=
| EvStderr (msg : string)
| EvStdout (msg : string)
| EvNewDisk (path : string) (id : Z)
| EvSDLInit (status : Z)
| EvScreenSetup
| EvScreenDraw
| EvSerialInit
| EvCancelMainLoop
| EvRtc (slice : Z) (uptime : Z) (time : Z)
| EvResume (slice : Z) (count : Z) (error : fox32_err_t) (executed : Z)
| EvPuts (slice : Z) (msg : string)
| EvRecover (slice : Z) (error : fox32_err_t) (result : fox32_err_t)
| EvRaise (vector : Z)
| EvProcessEvents (quit : bool)
| EvDelay (ms : Z).

(** ** The driver's computations *)

(** A computation ends with a value, or the model's fuel ends before the
    code's loop does, or the code leaves defined behaviour. The events
    emitted up to that point are kept in each case. *)
Inductive result (A : Type) : Type :=
| Done (a : A)
| OutOfFuel
| Undefined.
Arguments Done {A} _.
Arguments OutOfFuel {A}.
Arguments Undefined {A}.

Definition run (A : Type) : Type := (list event * result A)%type.

Definition ret {A : Type} (a : A) : run A := ([], Done a).

Definition emit (e : event) : run unit := ([e], Done tt).

Definition bind {A B : Type} (c : run A) (f : A -> run B) : run B :=
  match c with
  | (t, Done a) => let '(t', r) := f a in (t ++ t', r)
  | (t, OutOfFuel) => (t, OutOfFuel)
  | (t, Undefined) => (t, Undefined)
  end.

Notation "x <~ c ;; k" := (bind c (fun x => k))
  (at level 61, c at next level, right associativity).

Definition events {A : Type} (c : run A) : list event := fst c.

(** ** The globals of main.c *)

Record state {P : Platform} : Type := Build_state {
  vm : fox32_vm_t cpu_t;
  host : host_t;
  tick_start : Z;
  tick_end : Z;
  ticks : Z;
  done : bool;
  last_cycle_count : Z;
  rtc_time : Z;
  rtc_uptime : Z
}.

Section Driver.

Context {P : Platform}.
Variable b : build.

Definition set_machine (m : fox32_vm_t cpu_t * host_t) (s : state) : state :=
  Build_state P (fst m) (snd m) (tick_start s) (tick_end s) (ticks s) (done s)
    (last_cycle_count s) (rtc_time s) (rtc_uptime s).

Definition set_host (h : host_t) (s : state) : state :=
  set_machine (vm s, h) s.

Definition set_vm (v : fox32_vm_t cpu_t) (s : state) : state :=
  set_machine (v, host s) s.

Definition set_tick_start (t : Z) (s : state) : state :=
  Build_state P (vm s) (host s) t (tick_end s) (ticks s) (done s)
    (last_cycle_count s) (rtc_time s) (rtc_uptime s).

Definition set_tick_end (t : Z) (s : state) : state :=
  Build_state P (vm s) (host s) (tick_start s) t (ticks s) (done s)
    (last_cycle_count s) (rtc_time s) (rtc_uptime s).

Definition set_ticks (n : Z) (s : state) : state :=
  Build_state P (vm s) (host s) (tick_start s) (tick_end s) n (done s)
    (last_cycle_count s) (rtc_time s) (rtc_uptime s).

Definition set_done (d : bool) (s : state) : state :=
  Build_state P (vm s) (host s) (tick_start s) (tick_end s) (ticks s) d
    (last_cycle_count s) (rtc_time s) (rtc_uptime s).

Definition set_last_cycle_count (c : Z) (s : state) : state :=
  Build_state P (vm s) (host s) (tick_start s) (tick_end s) (ticks s) (done s)
    c (rtc_time s) (rtc_uptime s).

Definition set_rtc (time uptime : Z) (s : state) : state :=
  Build_state P (vm s) (host s) (tick_start s) (tick_end s) (ticks s) (done s)
    (last_cycle_count s) time uptime.

Definition set_halted (h : bool) (v : fox32_vm_t cpu_t) : fox32_vm_t cpu_t :=
  Build_vm (cpu v) h (debug v) (headless v).

Definition set_debug (d : bool) (v : fox32_vm_t cpu_t) : fox32_vm_t cpu_t :=
  Build_vm (cpu v) (halted v) d (headless v).

Definition set_headless (h : bool) (v : fox32_vm_t cpu_t) : fox32_vm_t cpu_t :=
  Build_vm (cpu v) (halted v) (debug v) h.

Definition set_cpu (c : cpu_t) (v : fox32_vm_t cpu_t) : fox32_vm_t cpu_t :=
  Build_vm c (halted v) (debug v) (headless v).

(** *** main_loop, lines 191-217: the budget is consumed *)

(** Lines 192-197: [rtc_uptime] and [rtc_time] at the head of a slice. *)
Definition advance_rtc (i : Z) (s : state) : run state :=
  let '(uptime, h) :=
    if adaptive b then SDL_GetTicks (host s)
    else (to_uint32 (rtc_uptime s + 1), host s) in
  let '(now, h) := time_now h in
  _ <~ emit (EvRtc i uptime now) ;;
  ret (set_rtc now uptime (set_host h s)).

(** [cycles_left -= executed;] with [executed] a [uint32_t]. *)
Definition cycles_after (cycles_left executed : Z) : Z :=
  to_int (to_uint32 (to_uint32 cycles_left - executed)).

(** Lines 204-216: [while (cycles_left > 0) { ... }]. Each unit of [fuel]
    pays for one iteration. The value is the final [error] and state. *)
Fixpoint run_slice (fuel : nat) (i cycles_left : Z) (error : fox32_err_t)
    (s : state) : run (fox32_err_t * state) :=
  if 0 <? cycles_left then
    match fuel with
    | O => ([], OutOfFuel)
    | S fuel' =>
        let '(error, executed, m) :=
          fox32_resume (vm s) (host s) (to_uint32 cycles_left) in
        let s := set_machine m s in
        _ <~ emit (EvResume i cycles_left error executed) ;;
        if error =? FOX32_ERR_OK then
          run_slice fuel' i (cycles_after cycles_left executed) error s
        else
          _ <~ (if debug (vm s) then emit (EvPuts i (fox32_strerr error))
                else ret tt) ;;
          let '(error', m) := fox32_recover (vm s) (host s) error in
          let s := set_machine m s in
          _ <~ emit (EvRecover i error error') ;;
          if error' =? FOX32_ERR_OK then
            run_slice fuel' i (cycles_after cycles_left executed) error' s
          else ret (error', s)
    end
  else ret (error, s).

(** Lines 191-217: the [for] loop over the slices [slices]. *)
Fixpoint run_slices (fuel : nat) (cycles_per_tick extra_cycles dt : Z)
    (slices : list Z) (error : fox32_err_t) (s : state)
  : run (fox32_err_t * state) :=
  match slices with
  | [] => ret (error, s)
  | i :: rest =>
      s <~ advance_rtc i s ;;
      r <~ run_slice fuel i (slice_cycles cycles_per_tick extra_cycles dt i)
             error s ;;
      run_slices fuel cycles_per_tick extra_cycles dt rest (fst r) (snd r)
  end.

(** *** main_loop, lines 219-224: interrupt dispatch *)

Definition interrupt_dispatch (s : state) : run state :=
  if Z.rem (ticks s) TPF =? 0 then
    s <~ (if negb (headless (vm s))
          then _ <~ emit EvScreenDraw ;;
               ret (set_host (ScreenDraw (vm s) (host s)) s)
          else ret s) ;;
    _ <~ emit (EvRaise VSYNC_INTERRUPT_VECTOR) ;;
    let m := fox32_raise (vm s) (host s) VSYNC_INTERRUPT_VECTOR in
    ret (set_machine (set_halted false (fst m), snd m) s)
  else ret s.

(** *** main_loop *)

Definition main_loop (fuel : nat) (s : state) : run state :=
  _ <~ (if emscripten b && (done s || bus_requests_exit (host s))
        then emit EvCancelMainLoop else ret tt) ;;
  let '(now, h) := SDL_GetTicks (host s) in
  let dt := elapsed_dt now (tick_start s) in
  let '(now', h) := SDL_GetTicks h in
  let s := set_tick_start now' (set_host h s) in
  let dt := clamp_dt dt in
  match cycle_budget FOX32_CPU_HZ (adaptive b) (last_cycle_count s) dt with
  | None => ([], Undefined)
  | Some (cycles_per_tick, extra_cycles, estimate) =>
      let s := set_last_cycle_count estimate s in
      r <~ run_slices fuel cycles_per_tick extra_cycles dt (slice_indices dt)
             FOX32_ERR_OK s ;;
      s <~ interrupt_dispatch (snd r) ;;
      let '(quit, h) := ScreenProcessEvents (host s) in
      _ <~ emit (EvProcessEvents quit) ;;
      ret (set_ticks (to_int (ticks s + 1)) (set_done quit (set_host h s)))
  end.

(** *** main *)

(** Lines 149-155: the pacing after an iteration of the pull loop. *)
Definition pace (s : state) : run state :=
  let '(now, h) := SDL_GetTicks (host s) in
  let s := set_tick_end now (set_host h s) in
  let delay :=
    to_int (to_uint32 (Z.quot 1000 TPS - to_uint32 (tick_end s - tick_start s))) in
  if 0 <? delay then
    _ <~ emit (EvDelay delay) ;;
    ret (set_host (SDL_Delay (to_uint32 delay) (host s)) s)
  else ret s.

(** Lines 146-156: [while (!done && !bus_requests_exit)], at most [n]
    iterations of it. *)
Fixpoint pull_loop (n fuel : nat) (s : state) : run state :=
  if negb (done s) && negb (bus_requests_exit (host s)) then
    match n with
    | O => ([], OutOfFuel)
    | S n' =>
        s <~ main_loop fuel s ;;
        s <~ pace s ;;
        pull_loop n' fuel s
    end
  else ret s.

(** [emscripten_set_main_loop(main_loop, 0, 1)]: the browser calls main_loop
    until an iteration has called [emscripten_cancel_main_loop]; control
    never comes back to main. *)
Fixpoint push_loop (n fuel : nat) (s : state) : run state :=
  match n with
  | O => ([], OutOfFuel)
  | S n' =>
      let cancelled := done s || bus_requests_exit (host s) in
      s <~ main_loop fuel s ;;
      if cancelled then ret s else push_loop n' fuel s
  end.

(** load_rom, lines 231-243. *)
Definition load_rom (filename : string) (s : state) : run state :=
  match read_rom filename (host s) with
  | None =>
      _ <~ emit (EvStderr ("couldn't open ROM file " ++ filename)) ;;
      ret s
  | Some rom =>
      _ <~ emit (EvStdout ("using " ++ filename ++ " as boot ROM")) ;;
      ret (set_vm (set_cpu (rom (cpu (vm s))) (vm s)) s)
  end.

(** What the option loop leaves: keep going, or [return code]. *)
Inductive parsed {A : Type} : Type :=
| Parsed (a : A)
| Exit (code : Z).
Arguments parsed A : clear implicits.

(** Lines 71-107: the options, [disk_id] being the next disk index. *)
Fixpoint parse_args (argv : list string) (disk_id : Z) (s : state)
  : run (parsed (Z * state)) :=
  match argv with
  | [] => ret (Parsed (disk_id, s))
  | arg :: rest =>
      if String.eqb arg "--help" then
        _ <~ emit (EvStderr "Usage: fox32 [OPTIONS]") ;;
        ret (Exit 0)
      else if String.eqb arg "--disk" then
        match rest with
        | path :: rest' =>
            _ <~ emit (EvNewDisk path disk_id) ;;
            parse_args rest' (disk_id + 1)
              (set_host (new_disk path disk_id (host s)) s)
        | [] =>
            _ <~ emit (EvStderr "no disk image specified") ;;
            ret (Exit 1)
        end
      else if String.eqb arg "--rom" then
        match rest with
        | path :: rest' =>
            s <~ load_rom path s ;;
            parse_args rest' disk_id s
        | [] =>
            _ <~ emit (EvStderr "no rom image specified") ;;
            ret (Exit 1)
        end
      else if String.eqb arg "--debug" then
        parse_args rest disk_id (set_vm (set_debug true (vm s)) s)
      else if String.eqb arg "--headless" then
        parse_args rest disk_id (set_vm (set_headless true (vm s)) s)
      else
        _ <~ emit (EvStderr ("unrecognized option " ++ arg)) ;;
        ret (Exit 1)
  end.

(** The globals when main starts: zero, except what lines 61-67 set. *)
Definition initial_state (h : host_t) : state :=
  Build_state P (set_debug false (set_halted false fox32_init)) h
    0 0 0 false initial_cycle_count 0 0.

(** Lines 112-133: the window, unless headless. *)
Definition open_window (s : state) : run (parsed state) :=
  if negb (headless (vm s)) then
    let '(status, h) := SDL_Init (host s) in
    _ <~ emit (EvSDLInit status) ;;
    if negb (status =? 0) then
      _ <~ emit (EvStderr "unable to initialize SDL") ;;
      ret (Exit 1)
    else
      _ <~ emit EvScreenSetup ;;
      let h := screen_setup h in
      _ <~ emit EvScreenDraw ;;
      ret (Parsed (set_host (ScreenDraw (vm s) h) s))
  else ret (Parsed s).

(** Lines 135-158, from a state [s] in which the options are parsed and the
    window is open. The value is the exit status; there is none in the
    emscripten build, where main does not return. *)
Definition start (n fuel : nat) (s : state) : run (option Z) :=
  s <~ (if windows b then ret s
        else _ <~ emit EvSerialInit ;; ret (set_host (serial_init (host s)) s)) ;;
  let '(now, h) := SDL_GetTicks (host s) in
  let s := set_tick_start now (set_host h s) in
  let '(now, h) := SDL_GetTicks (host s) in
  let s := set_tick_end now (set_host h s) in
  if emscripten b then
    _ <~ push_loop n fuel s ;;
    ret None
  else
    _ <~ pull_loop n fuel s ;;
    ret (Some 0).

(** Lines 69-110: the options in the native build, the fixed disk image in
    the emscripten build. *)
Definition configure (args : list string) (h : host_t)
  : run (parsed (Z * state)) :=
  let s := initial_state h in
  if emscripten b then
    _ <~ emit (EvNewDisk "fox32os.img" 0) ;;
    ret (Parsed (1, set_host (new_disk "fox32os.img" 0 (host s)) s))
  else parse_args args 0 s.

(** [main(argc, argv)]; [args] is [argv] without [argv[0]], [h] the host
    at start. *)
Definition main (n fuel : nat) (args : list string) (h : host_t)
  : run (option Z) :=
  p <~ configure args h ;;
  match p with
  | Exit code => ret (Some code)
  | Parsed (_, s) =>
      w <~ open_window s ;;
      match w with
      | Exit code => ret (Some code)
      | Parsed s => start n fuel s
      end
  end.

End Driver.

(** ** A scripted platform, to run the driver on concrete inputs *)

(** What the scripted CPU core does at one call of [fox32_resume]: report
    [executed] cycles with error code [error] (0 is FOX32_ERR_OK), or run
    all the cycles it was asked for. *)
Inductive toy_step : Type :=
| Report (error : fox32_err_t) (executed : Z)
| RunAll.

(** The scripted core: the steps of the next calls, and the step of every
    call after them. *)
Record toy_cpu : Type := Build_toy_cpu {
  script : list toy_step;
  default : toy_step
}.

(** The scripted host: the clock, and by how much each reading advances it. *)
Record toy_host : Type := Build_toy_host {
  clock : Z;
  pace_ms : Z
}.

Definition toy_resume (v : fox32_vm_t toy_cpu) (h : toy_host) (count : Z)
  : fox32_err_t * Z * (fox32_vm_t toy_cpu * toy_host) :=
  let '(step, rest) :=
    match script (cpu v) with
    | [] => (default (cpu v), [])
    | step :: rest => (step, rest)
    end in
  let v' :=
    Build_vm (Build_toy_cpu rest (default (cpu v)))
      (halted v) (debug v) (headless v) in
  match step with
  | Report error executed => (error, executed, (v', h))
  | RunAll => (0, count, (v', h))
  end.

(** Error code 1 is repaired by recovery; any other code comes back. *)
Definition toy_recover (v : fox32_vm_t toy_cpu) (h : toy_host)
    (error : fox32_err_t) : fox32_err_t * (fox32_vm_t toy_cpu * toy_host) :=
  (if error =? 1 then 0 else error, (v, h)).

Definition toy_ticks (h : toy_host) : Z * toy_host :=
  (to_uint32 (clock h), Build_toy_host (clock h + pace_ms h) (pace_ms h)).

#[local] Open Scope string_scope.

Definition toy_platform (hz : Z) : Platform := {|
  cpu_t := toy_cpu;
  host_t := toy_host;
  FOX32_CPU_HZ := hz;
  FOX32_ERR_OK := 0;
  VSYNC_INTERRUPT_VECTOR := 255;
  fox32_init := Build_vm (Build_toy_cpu [] RunAll) true false false;
  fox32_resume := toy_resume;
  fox32_recover := toy_recover;
  fox32_raise := fun v h _ => (v, h);
  fox32_strerr := fun _ => "fault";
  bus_requests_exit := fun _ => false;
  SDL_GetTicks := toy_ticks;
  SDL_Delay := fun _ h => h;
  SDL_Init := fun h => (0, h);
  screen_setup := fun h => h;
  ScreenDraw := fun _ h => h;
  ScreenProcessEvents := fun h => (false, h);
  serial_init := fun h => h;
  new_disk := fun _ _ h => h;
  read_rom := fun _ _ => Some (fun c => c);
  time_now := fun h => (1700000000 + Z.quot (clock h) 1000, h)
|}.

(** A core without state: every call of [fox32_resume] for [count] cycles
    answers [answer count]; recovery as in [toy_recover]. *)
Definition uniform_platform (hz : Z) (answer : Z -> fox32_err_t * Z)
  : Platform := {|
  cpu_t := unit;
  host_t := toy_host;
  FOX32_CPU_HZ := hz;
  FOX32_ERR_OK := 0;
  VSYNC_INTERRUPT_VECTOR := 255;
  fox32_init := Build_vm tt true false false;
  fox32_resume := fun v h count => (answer count, (v, h));
  fox32_recover := fun v h error => (if (error =? 1)%Z then 0 else error, (v, h));
  fox32_raise := fun v h _ => (v, h);
  fox32_strerr := fun _ => "fault";
  bus_requests_exit := fun _ => false;
  SDL_GetTicks := toy_ticks;
  SDL_Delay := fun _ h => h;
  SDL_Init := fun h => (0, h);
  screen_setup := fun h => h;
  ScreenDraw := fun _ h => h;
  ScreenProcessEvents := fun h => (false, h);
  serial_init := fun h => h;
  new_disk := fun _ _ h => h;
  read_rom := fun _ _ => Some (fun c => c);
  time_now := fun h => (1700000000 + Z.quot (clock h) 1000, h)
|}.

#[local] Close Scope string_scope.

(** Cores that run all they are asked for; that never run anything; that
    fault at once with code 2, which recovery gives back; and one outside
    the contract of fox32_resume, which reports one cycle, except 2^32 - 1
    cycles when asked for one. *)
Definition steady_platform : Platform :=
  uniform_platform 64000000 (fun count => (0, count)).
Definition stalled_platform : Platform :=
  uniform_platform 64000000 (fun _ => (0, 0)).
Definition faulting_platform : Platform :=
  uniform_platform 64000000 (fun _ => (2, 0)).
Definition overshoot_platform : Platform :=
  uniform_platform 64000000
    (fun count => (0, if count =? 1 then 2 ^ 32 - 1 else 1)).

(** A state of a stateless core at clock [now], the previous tick having
    started at clock 0. *)
Definition uniform_state (hz : Z) (answer : Z -> fox32_err_t * Z) (now : Z)
  : @state (uniform_platform hz answer) :=
  Build_state (uniform_platform hz answer)
    (Build_vm tt false false false)
    (Build_toy_host now 0) 0 0 0 false initial_cycle_count 0 0.


(** The two builds of main.c. *)
Definition native_build : build := Build_build false false false.
Definition emscripten_build : build := Build_build true true false.

(** A state of the scripted platform in which the previous tick started at
    clock 0, the clock now reads [now], and the core follows [steps] and
    then [fallback]. *)
Definition toy_state (hz now : Z) (steps : list toy_step) (fallback : toy_step)
  : @state (toy_platform hz) :=
  Build_state (toy_platform hz)
    (Build_vm (Build_toy_cpu steps fallback) false false false)
    (Build_toy_host now 0) 0 0 0 false initial_cycle_count 0 0.

(** ** Reading a trace *)

(** The slice whose [while] loop emitted the event, if one did. *)
Definition exec_of (e : event) : option Z :=
  match e with
  | EvResume i _ _ _ | EvPuts i _ | EvRecover i _ _ => Some i
  | _ => None
  end.

(** The slice whose clock shadow the event advances. *)
Definition rtc_of (e : event) : option Z :=
  match e with
  | EvRtc i _ _ => Some i
  | _ => None
  end.

(** Cycles the core reported at this event. *)
Definition executed_of (e : event) : Z :=
  match e with
  | EvResume _ _ _ executed => executed
  | _ => 0
  end.

(** Cycles reported over a trace: [executed_count] summed. *)
Definition executed_total (t : list event) : Z := zsum (map executed_of t).

Definition is_draw (e : event) : bool :=
  match e with
  | EvScreenDraw => true
  | _ => false
  end.


(** The slices whose clock shadow was advanced over a trace, in order. *)
Definition rtc_slices (t : list event) : list Z :=
  flat_map (fun e => match e with EvRtc i _ _ => [i] | _ => [] end) t.

(** No event of the trace is a draw request. *)
Definition no_draw (t : list event) : Prop :=
  Forall (fun e => is_draw e = false) t.

(** An event of neither the clock shadow nor a slice's loop. *)
Definition other_event (e : event) : Prop :=
  exec_of e = None /\ rtc_of e = None.

Section Traces.

Context {P : Platform}.

(** Recovery gave the fault back. *)
Definition unrecoverable (e : event) : bool :=
  match e with
  | EvRecover _ _ r => negb (r =? FOX32_ERR_OK)
  | _ => false
  end.

(** The traces of [while (cycles_left > 0) { ... }] in slice [i], by the
    value of [cycles_left] at the loop head: the loop is over (or the fuel
    is); a resume without fault; a fault repaired by recovery; a fault that
    recovery gives back, after which nothing follows. *)
Inductive slice_trace (i : Z) : Z -> list event -> Prop :=
| slice_over n : slice_trace i n []
| slice_ran n x t :
    0 < n ->
    slice_trace i (cycles_after n x) t ->
    slice_trace i n (EvResume i n FOX32_ERR_OK x :: t)
| slice_recovered n e x msgs t :
    0 < n -> e <> FOX32_ERR_OK ->
    Forall (fun m => exists msg, m = EvPuts i msg) msgs ->
    slice_trace i (cycles_after n x) t ->
    slice_trace i n
      (EvResume i n e x :: msgs ++ EvRecover i e FOX32_ERR_OK :: t)
| slice_broken n e e' x msgs :
    0 < n -> e <> FOX32_ERR_OK -> e' <> FOX32_ERR_OK ->
    Forall (fun m => exists msg, m = EvPuts i msg) msgs ->
    slice_trace i n (EvResume i n e x :: msgs ++ [EvRecover i e e']).

(** The traces of the [for] loop over the slices [slices]: each slice opens
    with its clock update and goes on with its [while] loop, started at that
    slice's cycle count. A trace may stop early (fuel). *)
Inductive tick_trace (cycles_per_tick extra_cycles dt : Z)
  : list Z -> list event -> Prop :=
| tick_over slices : tick_trace cycles_per_tick extra_cycles dt slices []
| tick_slice i slices uptime time body t :
    slice_trace i (slice_cycles cycles_per_tick extra_cycles dt i) body ->
    tick_trace cycles_per_tick extra_cycles dt slices t ->
    tick_trace cycles_per_tick extra_cycles dt (i :: slices)
      (EvRtc i uptime time :: body ++ t).

(** *** The contract of the CPU core *)

(** Modelled from the spec: fox32_resume is defined in cpu.c, which is not
    among the sources. Section 4.2, [run]: it never executes more than
    [budget] cycles and returns the actual count executed. *)
Definition resume_within_budget : Prop :=
  forall v h n, 0 < n <= INT_MAX ->
    0 <= snd (fst (fox32_resume v h n)) <= n.

(** Every call reports at least one executed cycle, or returns a fault from
    which recovery fails. *)
Definition resume_progress : Prop :=
  forall v h n, 0 < n <= INT_MAX ->
    let '(error, executed, m) := fox32_resume v h n in
    1 <= executed \/
    (error <> FOX32_ERR_OK /\
     fst (fox32_recover (fst m) (snd m) error) <> FOX32_ERR_OK).

(** A call asking for [n] cycles that reports none executed, with success or
    with a fault that recovery repairs. *)
Definition resume_stalls (n : Z) : Prop :=
  forall v h,
    let '(error, executed, m) := fox32_resume v h n in
    executed = 0 /\
    (error = FOX32_ERR_OK \/
     fst (fox32_recover (fst m) (snd m) error) = FOX32_ERR_OK).

(** Modelled from the spec: fox32_resume, fox32_recover and fox32_raise of
    cpu.c. Section 3: the engine's operations mutate the execution context
    (registers, memory, halted and debug flags); [vm.headless] is written
    by the option loop of main only. *)
Definition core_keeps_headless : Prop :=
  (forall v h n, headless (fst (snd (fox32_resume v h n))) = headless v) /\
  (forall v h e, headless (fst (snd (fox32_recover v h e))) = headless v) /\
  (forall v h n, headless (fst (fox32_raise v h n)) = headless v).

(** A trace in which the core kept to [resume_within_budget]: no call
    reports more cycles than it was asked for. *)
Definition honest (t : list event) : Prop :=
  Forall (fun ev =>
            match ev with
            | EvResume _ n _ x => 0 <= x <= n
            | _ => True
            end) t.



(** What the [while] loop leaves alone. *)
Definition same_globals (s s' : state) : Prop :=
  tick_start s' = tick_start s /\ tick_end s' = tick_end s /\
  ticks s' = ticks s /\ done s' = done s /\
  last_cycle_count s' = last_cycle_count s.

(** [dt] of the iteration that starts in state [s]: the first clock reading
    of main_loop against [tick_start], clamped. *)
Definition tick_dt (s : state) : Z :=
  clamp_dt (elapsed_dt (fst (SDL_GetTicks (host s))) (tick_start s)).

(** The budget main_loop computes in state [s]. *)
Definition tick_budget (b : build) (s : state) : option (Z * Z * Z) :=
  cycle_budget FOX32_CPU_HZ (adaptive b) (last_cycle_count s) (tick_dt s).

(** The events of lines 219-224 from a state with [vm.headless = hl]. *)
Definition dispatch_events (hl : bool) : list event :=
  (if hl then [] else [EvScreenDraw]) ++ [EvRaise VSYNC_INTERRUPT_VECTOR].

(** The events of the [#ifdef __EMSCRIPTEN__] block at the head of
    main_loop. *)
Definition cancel_events (b : build) (s : state) : list event :=
  if emscripten b && (done s || bus_requests_exit (host s))
  then [EvCancelMainLoop] else [].

End Traces.

(** ** Reading a run of main *)

Section CallsDef.
Context {P : Platform}.
(** A call-out of the [while] loop as the loop's guards allow it:
    fox32_resume with cycles left, fox32_recover with a fault. *)
Definition guarded_call (e : event) : Prop :=
  match e with
  | EvResume _ count _ _ => 0 < count
  | EvRecover _ error _ => error <> FOX32_ERR_OK
  | _ => True
  end.
End CallsDef.

(** The event of [done = ScreenProcessEvents()]. *)
Definition is_poll (e : event) : bool :=
  match e with
  | EvProcessEvents _ => true
  | _ => false
  end.

(** The event of [emscripten_cancel_main_loop()]. *)
Definition is_cancel (e : event) : bool :=
  match e with
  | EvCancelMainLoop => true
  | _ => false
  end.

(** The events of [pace] when the clock reads [elapsed] milliseconds (as a
    [uint32_t]) past [tick_start]. *)
Definition pace_events (elapsed : Z) : list event :=
  if elapsed <? 16 then [EvDelay (16 - elapsed)]
  else if elapsed <=? 2 ^ 31 + 16 then []
  else [EvDelay (2 ^ 32 + 16 - elapsed)].

#[local] Open Scope string_scope.

(** The options main accepts, each as the words it takes from [argv]. *)
Inductive cli_option : Type :=
| OptDisk (path : string)
| OptRom (path : string)
| OptDebug
| OptHeadless.

Definition option_words (o : cli_option) : list string :=
  match o with
  | OptDisk path => ["--disk"; path]
  | OptRom path => ["--rom"; path]
  | OptDebug => ["--debug"]
  | OptHeadless => ["--headless"]
  end.

Definition command_line (opts : list cli_option) : list string :=
  flat_map option_words opts.

(** A word that the option loop compares equal to one of its five
    options. *)
Definition is_option_word (arg : string) : bool :=
  String.eqb arg "--help" || String.eqb arg "--disk" || String.eqb arg "--rom"
  || String.eqb arg "--debug" || String.eqb arg "--headless".

#[local] Close Scope string_scope.

Definition disk_paths (opts : list cli_option) : list string :=
  flat_map (fun o => match o with OptDisk path => [path] | _ => [] end) opts.

Definition rom_paths (opts : list cli_option) : list string :=
  flat_map (fun o => match o with OptRom path => [path] | _ => [] end) opts.

Definition is_debug_option (o : cli_option) : bool :=
  match o with OptDebug => true | _ => false end.

Definition is_headless_option (o : cli_option) : bool :=
  match o with OptHeadless => true | _ => false end.

(** The calls of new_disk over a trace, in order. *)
Definition mounted (t : list event) : list (string * Z) :=
  flat_map (fun e => match e with EvNewDisk path id => [(path, id)] | _ => [] end) t.

(** [paths] numbered from [disk_id] on. *)
Fixpoint numbered (disk_id : Z) (paths : list string) : list (string * Z) :=
  match paths with
  | [] => []
  | path :: rest => (path, disk_id) :: numbered (disk_id + 1) rest
  end.

(** An event of main before its loop: a message, a disk, the window, the
    serial port. *)
Definition is_startup (e : event) : bool :=
  match e with
  | EvStderr _ | EvStdout _ | EvNewDisk _ _
  | EvSDLInit _ | EvScreenSetup | EvSerialInit => true
  | _ => false
  end.

(** An event of the option loop: a message or a disk. *)
Definition is_option_event (e : event) : bool :=
  match e with
  | EvStderr _ | EvStdout _ | EvNewDisk _ _ => true
  | _ => false
  end.

(** An event of the option loop or of a failed [SDL_Init]. *)
Definition before_window (e : event) : bool :=
  match e with
  | EvStderr _ | EvStdout _ | EvNewDisk _ _ | EvSDLInit _ => true
  | _ => false
  end.

Section StartupDefs.
Context {P : Platform}.

#[local] Open Scope string_scope.

(** The events of lines 112-133 from the state [s] the options leave. *)
Definition window_events (s : state) : list event :=
  if headless (vm s) then []
  else if (fst (SDL_Init (host s)) =? 0)%Z
       then [EvSDLInit (fst (SDL_Init (host s))); EvScreenSetup; EvScreenDraw]
       else [EvSDLInit (fst (SDL_Init (host s)));
             EvStderr "unable to initialize SDL"].

#[local] Close Scope string_scope.

(** [SDL_Init] was called and failed. *)
Definition window_failed (s : state) : bool :=
  negb (headless (vm s)) && negb (fst (SDL_Init (host s)) =? 0).

(** The events of lines 135-137. *)
Definition serial_events (b : build) : list event :=
  if windows b then [] else [EvSerialInit].

End StartupDefs.

(** The state a computation ends in, [s] when it does not end. *)
Definition final_state {P : Platform} (c : run state) (s : state) : state :=
  match snd c with
  | Done s' => s'
  | _ => s
  end.

(** The computation ended with a state. *)
Definition ends {P : Platform} (c : run state) : bool :=
  match snd c with
  | Done _ => true
  | _ => false
  end.

(** ** Platforms and cores for the dispatch and the fault theorems *)



#[local] Open Scope string_scope.


#[local] Close Scope string_scope.


Section DispatchDefs.
Context {P : Platform}.



End DispatchDefs.



(** * Properties *)

(** ** Facts on the integer conversions *)

Lemma to_int_id z : in_int z -> to_int z = z.
Proof.
  unfold in_int, INT_MIN, INT_MAX, to_int. intros H.
  rewrite Z.mod_small by lia. lia.
Qed.

Lemma to_int_range z : in_int (to_int z).
Proof.
  unfold in_int, INT_MIN, INT_MAX, to_int.
  pose proof (Z.mod_pos_bound (z + 2 ^ 31) (2 ^ 32) ltac:(lia)). lia.
Qed.

Lemma to_uint32_id z : 0 <= z < 2 ^ 32 -> to_uint32 z = z.
Proof. intros H. unfold to_uint32. now apply Z.mod_small. Qed.

Lemma clamp_dt_nonzero dt : clamp_dt dt <> 0.
Proof. unfold clamp_dt. destruct (Z.eqb_spec dt 0); lia. Qed.

Lemma clamp_dt_pos dt : 0 <= dt -> 1 <= clamp_dt dt.
Proof. unfold clamp_dt. destruct (Z.eqb_spec dt 0); lia. Qed.

Lemma int_div_some a b :
  b <> 0 -> INT_MIN < a -> int_div a b = Some (Z.quot a b).
Proof.
  intros Hb Ha. unfold int_div.
  destruct (Z.eqb_spec b 0); [contradiction|].
  destruct (Z.eqb_spec a INT_MIN); [lia|]. reflexivity.
Qed.

Lemma TPS_value : TPS = 60.
Proof. reflexivity. Qed.
(** ** The fixed budget *)

Lemma per_tick_defined hz :
  0 <= hz -> int_div hz TPS = Some (hz / 60).
Proof.
  intros H. rewrite int_div_some by (unfold INT_MIN, TPS, FPS, TPF; lia).
  rewrite TPS_value, Z.quot_div_nonneg by lia. reflexivity.
Qed.

Lemma base_budget_pos hz dt :
  0 <= hz <= INT_MAX -> 1 <= dt <= INT_MAX ->
  base_budget hz dt = Some (hz / 60 / dt, hz / 60 - hz / 60 / dt * dt).
Proof.
  intros Hhz Hdt. unfold base_budget.
  rewrite per_tick_defined by lia. cbn [obind].
  assert (Hq : 0 <= hz / 60 <= INT_MAX).
  { split; [apply Z.div_pos; lia|].
    apply Z.le_trans with hz; [|lia]. apply Z.div_le_upper_bound; lia. }
  rewrite int_div_some by (unfold INT_MIN; lia). cbn [obind].
  rewrite Z.quot_div_nonneg by lia.
  assert (Hc : 0 <= hz / 60 / dt) by (apply Z.div_pos; lia).
  assert (Hm : hz / 60 / dt * dt <= hz / 60).
  { rewrite Z.mul_comm. apply Z.mul_div_le. lia. }
  assert (0 <= hz / 60 / dt * dt) by nia.
  rewrite (to_int_id (hz / 60 / dt * dt)) by (unfold in_int, INT_MIN, INT_MAX in *; lia).
  rewrite to_int_id by (unfold in_int, INT_MIN, INT_MAX in *; lia).
  reflexivity.
Qed.

(** The two divisions never trap, whatever [dt] the clock difference leaves:
    the clamp removes 0, and the dividend is never [INT_MIN]. *)
Lemma next_budget_never_traps hz x :
  0 <= hz <= INT_MAX -> exists r, next_budget hz x = Some r.
Proof.
  intros Hhz. unfold next_budget, base_budget.
  rewrite per_tick_defined by lia. cbn [obind].
  assert (0 <= hz / 60) by (apply Z.div_pos; lia).
  rewrite int_div_some; [cbn [obind]; eauto | apply clamp_dt_nonzero |].
  unfold INT_MIN. lia.
Qed.

(** C1, as amended. For a clock rate that fits an [int] and every elapsed
    time that does, the budget computation divides by a clamped, non-zero
    [dt] and succeeds; the per-millisecond count [c] is a non-negative
    integer, positive exactly when the clamped elapsed time is at most
    FOX32_CPU_HZ / TPS; the leftover [e] is non-negative and
    [c * dt + e] is the whole tick's FOX32_CPU_HZ / TPS. For any other
    elapsed time the divisions still do not trap. *)
Theorem next_budget_defined_nonneg (hz elapsed : Z)
  (Hhz : 0 < hz <= INT_MAX) (Hel : 0 <= elapsed <= INT_MAX) :
  (forall x, exists r, next_budget hz x = Some r) /\
  exists c e,
    next_budget hz elapsed = Some (c, e) /\
    1 <= clamp_dt elapsed /\
    0 <= c /\
    (0 < c <-> clamp_dt elapsed <= hz / TPS) /\
    0 <= e /\
    c * clamp_dt elapsed + e = hz / TPS.
Proof.
  split; [intros x; apply next_budget_never_traps; lia|].
  pose proof (clamp_dt_pos elapsed ltac:(lia)) as Hdt.
  assert (Hdt' : clamp_dt elapsed <= INT_MAX).
  { unfold clamp_dt, INT_MAX in *. destruct (Z.eqb_spec elapsed 0); lia. }
  exists (hz / 60 / clamp_dt elapsed),
         (hz / 60 - hz / 60 / clamp_dt elapsed * clamp_dt elapsed).
  unfold next_budget. rewrite (to_int_id elapsed) by (unfold in_int, INT_MIN; lia).
  rewrite base_budget_pos by lia.
  rewrite TPS_value.
  set (q := hz / 60). set (d := clamp_dt elapsed) in *.
  assert (Hq : 0 <= q) by (apply Z.div_pos; lia).
  assert (Hm : d * (q / d) <= q) by (apply Z.mul_div_le; lia).
  repeat split; try lia.
  - apply Z.div_pos; lia.
  - intros Hc. destruct (Z.le_gt_cases d q) as [?|Hlt]; [assumption|].
    rewrite Z.div_small in Hc by lia. lia.
  - intros Hle. apply Z.div_str_pos. lia.
Qed.

(** The theorem at the spec's scenario: 64 MHz, 16 ms. *)
Lemma next_budget_defined_nonneg_witness :
  (forall x, exists r, next_budget 64000000 x = Some r) /\
  exists c e,
    next_budget 64000000 16 = Some (c, e) /\
    1 <= clamp_dt 16 /\
    0 <= c /\
    (0 < c <-> clamp_dt 16 <= 64000000 / TPS) /\
    0 <= e /\
    c * clamp_dt 16 + e = 64000000 / TPS.
Proof.
  apply (next_budget_defined_nonneg 64000000 16); unfold INT_MAX; lia.
Defined.

(** C1 as stated fails: after a stall of 1066667 ms (a suspended host) at
    64 MHz the per-millisecond count is 0, and the whole budget goes to the
    leftover. *)
Lemma next_budget_zero_after_stall :
  0 <= 1066667 /\
  next_budget 64000000 1066667 = Some (0, 1066666) /\
  (0 <? 0) = false.
Proof. split; [lia | split; reflexivity]. Qed.

(** C2, as amended. At 64 MHz and 16 ms the base budget is 66666 cycles
    per millisecond and the leftover is 10 cycles (1066666 - 66666 * 16);
    slices 0 to 14 start with 66666 cycles, the final slice with 66676,
    and together they make the tick's 1066666. *)
Theorem budget_scenario_64mhz_16ms :
  next_budget 64000000 16 = Some (66666, 10) /\
  slice_plan 66666 10 16 = repeat 66666 15 ++ [66666 + 10] /\
  zsum (slice_plan 66666 10 16) = Z.quot 64000000 TPS.
Proof.
  split; [reflexivity|]. split; reflexivity.
Qed.

(** C2 as stated fails: the leftover of the scenario is not 666. *)
Lemma budget_scenario_leftover_not_666 :
  exists e, next_budget 64000000 16 = Some (66666, e) /\ e <> 666.
Proof. exists 10. split; [reflexivity | discriminate]. Qed.

(** ** The driver's computations *)

Lemma bind_ret_l {A B : Type} (a : A) (f : A -> run B) : bind (ret a) f = f a.
Proof. unfold bind, ret. destruct (f a) as [t r]. reflexivity. Qed.

Lemma bind_emit {B : Type} (e : event) (f : unit -> run B) :
  bind (emit e) f = (e :: fst (f tt), snd (f tt)).
Proof. unfold bind, emit. destruct (f tt) as [t r]. reflexivity. Qed.

Lemma bind_events {A B : Type} (c : run A) (f : A -> run B) :
  exists t, fst (bind c f) = fst c ++ t /\
    match snd c with
    | Done a => t = fst (f a) /\ snd (bind c f) = snd (f a)
    | OutOfFuel => t = [] /\ snd (bind c f) = OutOfFuel
    | Undefined => t = [] /\ snd (bind c f) = Undefined
    end.
Proof.
  destruct c as [t [a| |]]; cbn.
  - destruct (f a) as [t' r]. exists t'. cbn. auto.
  - exists []. rewrite app_nil_r. auto.
  - exists []. rewrite app_nil_r. auto.
Qed.

Lemma bind_done {A B : Type} (c : run A) (f : A -> run B) t (y : B) :
  bind c f = (t, Done y) ->
  exists t1 a t2, c = (t1, Done a) /\ f a = (t2, Done y) /\ t = t1 ++ t2.
Proof.
  destruct c as [t1 [a| |]]; cbn; try discriminate.
  destruct (f a) as [t2 r] eqn:Hf. intros H. inversion H; subst.
  exists t1, a, t2. auto.
Qed.

Section DriverFacts.

Context {P : Platform}.
Variable b : build.

(** One iteration of the [while] loop, with the events in front. *)
Lemma run_slice_unfold fuel i n err s :
  run_slice (S fuel) i n err s =
  if 0 <? n then
    let '(e, x, m) := fox32_resume (vm s) (host s) (to_uint32 n) in
    let s1 := set_machine m s in
    if e =? FOX32_ERR_OK then
      let c := run_slice fuel i (cycles_after n x) e s1 in
      (EvResume i n e x :: fst c, snd c)
    else
      let msgs :=
        if debug (vm s1) then [EvPuts i (fox32_strerr e)] else [] in
      let '(e', m') := fox32_recover (vm s1) (host s1) e in
      let s2 := set_machine m' s1 in
      if e' =? FOX32_ERR_OK then
        let c := run_slice fuel i (cycles_after n x) e' s2 in
        (EvResume i n e x :: msgs ++ EvRecover i e e' :: fst c, snd c)
      else (EvResume i n e x :: msgs ++ [EvRecover i e e'], Done (e', s2))
  else ([], Done (err, s)).
Proof.
  cbn [run_slice]. destruct (0 <? n); [|reflexivity].
  destruct (fox32_resume (vm s) (host s) (to_uint32 n)) as [[e x] m].
  rewrite bind_emit. destruct (e =? FOX32_ERR_OK); [reflexivity|].
  cbn [fst snd].
  destruct (debug (vm (set_machine m s))).
  - rewrite bind_emit.
    destruct (fox32_recover _ _ e) as [e' m'].
    rewrite bind_emit.
    destruct (e' =? FOX32_ERR_OK); reflexivity.
  - rewrite bind_ret_l.
    destruct (fox32_recover _ _ e) as [e' m'].
    rewrite bind_emit.
    destruct (e' =? FOX32_ERR_OK); reflexivity.
Qed.

Lemma run_slice_idle fuel i n err s :
  n <= 0 -> run_slice fuel i n err s = ([], Done (err, s)).
Proof.
  intros H. destruct fuel; cbn [run_slice];
    destruct (Z.ltb_spec 0 n); try lia; reflexivity.
Qed.

Lemma run_slice_no_fuel i n err s :
  0 < n -> run_slice O i n err s = ([], OutOfFuel).
Proof.
  intros H. cbn [run_slice]. destruct (Z.ltb_spec 0 n); [reflexivity | lia].
Qed.

(** The events of the [while] loop follow [slice_trace]. *)
Lemma run_slice_trace fuel : forall i n err s,
  slice_trace i n (fst (run_slice fuel i n err s)).
Proof.
  induction fuel as [|fuel IH]; intros i n err s.
  - destruct (Z.ltb_spec 0 n) as [Hn|Hn].
    + rewrite run_slice_no_fuel by assumption. constructor.
    + rewrite run_slice_idle by assumption. constructor.
  - rewrite run_slice_unfold.
    destruct (Z.ltb_spec 0 n) as [Hn|Hn]; [|constructor].
    destruct (fox32_resume _ _ _) as [[e x] m].
    destruct (Z.eqb_spec e FOX32_ERR_OK) as [He|He].
    + subst e. cbn. apply slice_ran; [assumption | apply IH].
    + cbn zeta.
      set (msgs := if debug _ then _ else _).
      assert (Hmsgs : Forall (fun m0 => exists msg, m0 = EvPuts i msg) msgs).
      { subst msgs. destruct (debug _); repeat constructor. eauto. }
      destruct (fox32_recover _ _ e) as [e' m'].
      destruct (Z.eqb_spec e' FOX32_ERR_OK) as [He'|He'].
      * subst e'. cbn. apply slice_recovered; auto.
      * cbn. apply slice_broken; auto.
Qed.

End DriverFacts.

(** ** What the trace grammars give *)

Lemma zsum_app l1 l2 : zsum (l1 ++ l2) = zsum l1 + zsum l2.
Proof. unfold zsum. induction l1; cbn in *; lia. Qed.

Lemma executed_total_app t1 t2 :
  executed_total (t1 ++ t2) = executed_total t1 + executed_total t2.
Proof. unfold executed_total. rewrite map_app. apply zsum_app. Qed.

Lemma executed_total_cons e t :
  executed_total (e :: t) = executed_of e + executed_total t.
Proof. reflexivity. Qed.


(** An element of a concatenation lies in one of the two parts. *)
Lemma split_app {A : Type} (l1 l2 : list A) x : forall pre post,
  l1 ++ l2 = pre ++ x :: post ->
  (exists mid, l1 = pre ++ x :: mid /\ post = mid ++ l2) \/
  (exists p, pre = l1 ++ p /\ l2 = p ++ x :: post).
Proof.
  induction l1 as [|a l1 IH]; intros pre post H.
  - right. exists pre. auto.
  - destruct pre as [|c pre]; cbn in H; inversion H; subst.
    + left. exists l1. auto.
    + destruct (IH _ _ H2) as [[mid [-> ->]]|[p [-> ->]]].
      * left. exists mid. auto.
      * right. exists p. auto.
Qed.

Section TraceFacts.

Context {P : Platform}.

Lemma puts_exec i msgs :
  Forall (fun m => exists msg, m = EvPuts i msg) msgs ->
  Forall (fun e => exec_of e = Some i /\ unrecoverable e = false
                   /\ executed_of e = 0) msgs.
Proof.
  intros H. eapply Forall_impl; [|exact H].
  intros e [msg ->]. cbn. auto.
Qed.

(** Every event of a slice's loop is an execution event of that slice. *)
Lemma slice_trace_exec i n t :
  slice_trace i n t -> Forall (fun e => exec_of e = Some i) t.
Proof.
  induction 1 as [n|n x t Hn Ht IH|n e x msgs t Hn He Hm Ht IH|n e e' x msgs Hn He He' Hm].
  - constructor.
  - constructor; [reflexivity | exact IH].
  - constructor; [reflexivity|]. apply Forall_app. split.
    + eapply Forall_impl; [|apply (puts_exec _ _ Hm)]. cbn. tauto.
    + constructor; [reflexivity | exact IH].
  - constructor; [reflexivity|]. apply Forall_app. split.
    + eapply Forall_impl; [|apply (puts_exec _ _ Hm)]. cbn. tauto.
    + repeat constructor.
Qed.



Lemma honest_app t1 t2 : honest (t1 ++ t2) <-> honest t1 /\ honest t2.
Proof. apply Forall_app. Qed.



Lemma cycles_after_exact n x :
  0 <= x <= n -> n <= INT_MAX -> cycles_after n x = n - x.
Proof.
  intros Hx Hn. unfold cycles_after, INT_MAX in *.
  rewrite (to_uint32_id n) by lia.
  rewrite to_uint32_id by lia.
  apply to_int_id. unfold in_int, INT_MIN, INT_MAX. lia.
Qed.

Lemma executed_total_puts i msgs t :
  Forall (fun m => exists msg, m = EvPuts i msg) msgs ->
  executed_total (msgs ++ t) = executed_total t.
Proof.
  induction 1 as [|m msgs [msg ->] _ IH]; [reflexivity|].
  cbn [app]. rewrite executed_total_cons. cbn [executed_of]. lia.
Qed.

Lemma existsb_unrecoverable_puts i msgs t :
  Forall (fun m => exists msg, m = EvPuts i msg) msgs ->
  existsb unrecoverable (msgs ++ t) = existsb unrecoverable t.
Proof.
  induction 1 as [|m msgs [msg ->] _ IH]; [reflexivity|].
  cbn [app existsb unrecoverable]. exact IH.
Qed.


End TraceFacts.

Section TickFacts.

Context {P : Platform}.
Variables cycles_per_tick extra_cycles dt : Z.

#[local] Abbreviation tick_trace' := (tick_trace cycles_per_tick extra_cycles dt).
#[local] Abbreviation cycles_of := (slice_cycles cycles_per_tick extra_cycles dt).

Lemma exec_not_rtc e i : exec_of e = Some i -> rtc_of e = None.
Proof. destruct e; cbn; congruence. Qed.

(** The events of a tick's [for] loop are clock updates and execution
    events of the slices it visits. *)
Lemma tick_trace_slices slices t :
  tick_trace' slices t ->
  Forall (fun e => (forall j, rtc_of e = Some j -> In j slices) /\
                   (forall j, exec_of e = Some j -> In j slices) /\
                   (rtc_of e <> None \/ exec_of e <> None)) t.
Proof.
  induction 1 as [slices|i slices up tm body t Hb Ht IH]; [constructor|].
  constructor.
  - cbn. repeat split; try congruence.
    + intros j Hj. inversion Hj. now left.
    + left. congruence.
  - apply Forall_app. split.
    + apply slice_trace_exec in Hb. eapply Forall_impl; [|exact Hb].
      intros e He. cbn beta. rewrite (exec_not_rtc _ _ He), He.
      repeat split; try congruence.
      * intros j Hj. inversion Hj. now left.
      * right. congruence.
    + eapply Forall_impl; [|exact IH]. cbn beta.
      intros e (H1 & H2 & H3). repeat split; auto; intros; right; auto.
Qed.





End TickFacts.

(** ** The loops of main_loop *)

Section LoopFacts.

Context {P : Platform}.
Variable b : build.

Lemma to_uint32_count n : 0 < n <= INT_MAX -> to_uint32 n = n.
Proof. intros H. apply to_uint32_id. unfold INT_MAX in H. lia. Qed.

(** A core that keeps to its contract leaves honest traces. *)
Lemma run_slice_honest fuel :
  resume_within_budget ->
  forall i n err s, n <= INT_MAX ->
    honest (fst (run_slice fuel i n err s)).
Proof.
  intros Hwb. induction fuel as [|fuel IH]; intros i n err s Hn.
  - destruct (Z.ltb_spec 0 n).
    + rewrite run_slice_no_fuel by assumption. constructor.
    + rewrite run_slice_idle by assumption. constructor.
  - rewrite run_slice_unfold.
    destruct (Z.ltb_spec 0 n) as [Hpos|Hpos]; [|constructor].
    rewrite to_uint32_count by lia.
    pose proof (Hwb (vm s) (host s) n ltac:(lia)) as Hx.
    destruct (fox32_resume _ _ n) as [[e x] m]. cbn [fst snd] in Hx.
    assert (Hafter : cycles_after n x <= INT_MAX).
    { rewrite cycles_after_exact by lia. lia. }
    destruct (Z.eqb_spec e FOX32_ERR_OK) as [He|He].
    + cbn. constructor; [lia | apply IH; assumption].
    + cbn zeta. destruct (fox32_recover _ _ e) as [e' m'].
      assert (Hmsgs : honest (if debug (vm (set_machine m s))
                              then [EvPuts i (fox32_strerr e)] else [])).
      { destruct (debug _); repeat constructor. }
      destruct (e' =? FOX32_ERR_OK); cbn [fst].
      * constructor; [lia|]. apply honest_app. split; [exact Hmsgs|].
        constructor; [exact I | apply IH; assumption].
      * constructor; [lia|]. apply honest_app. split; [exact Hmsgs|].
        repeat constructor.
Qed.

Lemma same_globals_refl s : same_globals s s.
Proof. repeat split. Qed.

Lemma same_globals_trans s1 s2 s3 :
  same_globals s1 s2 -> same_globals s2 s3 -> same_globals s1 s3.
Proof. unfold same_globals. intuition congruence. Qed.

Lemma run_slice_frame fuel : forall i n err s e' s',
  snd (run_slice fuel i n err s) = Done (e', s') ->
  same_globals s s' /\ rtc_time s' = rtc_time s /\ rtc_uptime s' = rtc_uptime s /\
  (core_keeps_headless -> headless (vm s') = headless (vm s)).
Proof.
  induction fuel as [|fuel IH]; intros i n err s e' s' H.
  - destruct (Z.ltb_spec 0 n).
    + rewrite run_slice_no_fuel in H by assumption. discriminate.
    + rewrite run_slice_idle in H by assumption. inversion H; subst.
      repeat split.
  - rewrite run_slice_unfold in H.
    destruct (Z.ltb_spec 0 n) as [Hpos|Hpos];
      [|inversion H; subst; repeat split].
    pose proof (fun K : core_keeps_headless =>
                  proj1 K (vm s) (host s) (to_uint32 n)) as Hk1.
    destruct (fox32_resume _ _ _) as [[e x] m]. cbn [fst snd] in Hk1.
    destruct (e =? FOX32_ERR_OK).
    + cbn in H. apply IH in H. destruct H as (H1 & H2 & H3 & H4).
      refine (conj _ (conj H2 (conj H3 _))).
      * eapply same_globals_trans; [|exact H1]. repeat split.
      * intros K. rewrite (H4 K). cbn. auto.
    + cbn zeta in H.
      pose proof (fun K : core_keeps_headless =>
                    proj1 (proj2 K) (vm (set_machine m s))
                      (host (set_machine m s)) e) as Hk2.
      destruct (fox32_recover _ _ e) as [e'' m'']. cbn [fst snd] in Hk2.
      destruct (e'' =? FOX32_ERR_OK).
      * cbn in H. apply IH in H. destruct H as (H1 & H2 & H3 & H4).
        refine (conj _ (conj H2 (conj H3 _))).
        -- eapply same_globals_trans; [|exact H1]. repeat split.
        -- intros K. rewrite (H4 K). cbn. rewrite (Hk2 K). cbn. auto.
      * cbn in H. inversion H; subst.
        refine (conj _ (conj eq_refl (conj eq_refl _))).
        -- repeat split.
        -- intros K. cbn. rewrite (Hk2 K). cbn. auto.
Qed.

(** C10, first half: with a core that keeps within its budget and makes
    progress at every call, [cycles_left] iterations are enough. *)
Lemma run_slice_terminates :
  resume_within_budget -> resume_progress ->
  forall fuel i n err s,
    n <= INT_MAX -> (Z.to_nat n <= fuel)%nat ->
    exists r, snd (run_slice fuel i n err s) = Done r.
Proof.
  intros Hwb Hpr. induction fuel as [|fuel IH]; intros i n err s Hn Hfuel.
  - rewrite run_slice_idle by lia. cbn. eauto.
  - rewrite run_slice_unfold.
    destruct (Z.ltb_spec 0 n) as [Hpos|Hpos]; [|cbn; eauto].
    rewrite to_uint32_count by lia.
    pose proof (Hwb (vm s) (host s) n ltac:(lia)) as Hx.
    pose proof (Hpr (vm s) (host s) n ltac:(lia)) as Hp.
    destruct (fox32_resume _ _ n) as [[e x] m]. cbn [fst snd] in Hx.
    destruct (Z.eqb_spec e FOX32_ERR_OK) as [He|He].
    + destruct Hp as [Hp|[Hp _]]; [|contradiction].
      cbn [snd]. apply IH; rewrite cycles_after_exact by lia; lia.
    + cbn zeta. destruct (fox32_recover _ _ e) as [e' m'] eqn:Hrec.
      destruct (Z.eqb_spec e' FOX32_ERR_OK) as [He'|He']; [|cbn; eauto].
      destruct Hp as [Hp|[_ Hp]].
      * cbn [snd]. apply IH; rewrite cycles_after_exact by lia; lia.
      * exfalso. apply Hp. exact He'.
Qed.

(** C10, second half: when the calls for [n] cycles report none executed
    and no fault stays, [cycles_left] keeps its value and no amount of fuel
    ends the loop; every call of the trace asks for the same [n]. *)
Lemma run_slice_stalls n :
  0 < n <= INT_MAX -> resume_stalls n ->
  forall fuel i err s,
    snd (run_slice fuel i n err s) = OutOfFuel /\
    Forall (fun ev => forall j c e x, ev = EvResume j c e x -> c = n /\ x = 0)
      (fst (run_slice fuel i n err s)) /\
    (fuel <= List.length (fst (run_slice fuel i n err s)))%nat.
Proof.
  intros Hn Hst. induction fuel as [|fuel IH]; intros i err s.
  - rewrite run_slice_no_fuel by lia. cbn. auto.
  - rewrite run_slice_unfold.
    destruct (Z.ltb_spec 0 n) as [_|?]; [|lia].
    rewrite to_uint32_count by lia.
    pose proof (Hst (vm s) (host s)) as Hs.
    destruct (fox32_resume _ _ n) as [[e x] m].
    destruct Hs as [-> Hs].
    assert (Hsame : cycles_after n 0 = n).
    { rewrite cycles_after_exact by lia. lia. }
    rewrite Hsame.
    destruct (Z.eqb_spec e FOX32_ERR_OK) as [He|He].
    + cbn [fst snd]. destruct (IH i e (set_machine m s)) as (H1 & H2 & H3).
      split; [exact H1|]. split.
      * constructor; [|exact H2]. intros j c e0 x H. inversion H; subst. auto.
      * cbn [List.length]. lia.
    + cbn zeta. destruct Hs as [Hs|Hs]; [contradiction|].
      destruct m as [v h]. cbn [fst snd] in Hs.
      change (vm (set_machine (v, h) s)) with v.
      change (host (set_machine (v, h) s)) with h.
      destruct (fox32_recover v h e) as [e' m']. cbn [fst] in Hs. subst e'.
      rewrite Z.eqb_refl. cbn [fst snd].
      destruct (IH i FOX32_ERR_OK (set_machine m' (set_machine (v, h) s)))
        as (H1 & H2 & H3).
      split; [exact H1|]. split.
      * constructor; [intros j c e0 x H; inversion H; subst; auto|].
        apply Forall_app. split.
        -- destruct (debug v);
             [constructor; [intros; discriminate | constructor] | constructor].
        -- constructor; [intros; discriminate | exact H2].
      * cbn [List.length]. rewrite length_app. cbn [List.length]. lia.
Qed.

End LoopFacts.

Section TickLoop.

Context {P : Platform}.
Variable b : build.

Lemma advance_rtc_spec i s :
  exists uptime time s',
    advance_rtc b i s = ([EvRtc i uptime time], Done s') /\
    same_globals s s' /\ vm s' = vm s /\
    (adaptive b = false -> rtc_uptime s' = to_uint32 (rtc_uptime s + 1)).
Proof.
  unfold advance_rtc.
  destruct (adaptive b).
  - destruct (SDL_GetTicks (host s)) as [up h].
    destruct (time_now h) as [now h'].
    exists up, now. eexists. split; [reflexivity|].
    repeat split. discriminate.
  - destruct (time_now (host s)) as [now h'].
    exists (to_uint32 (rtc_uptime s + 1)), now. eexists.
    split; [reflexivity|]. repeat split.
Qed.

(** The [for] loop, one slice unfolded. *)
Lemma run_slices_cons fuel cpt extra dt i rest err s :
  exists uptime time s1,
    advance_rtc b i s = ([EvRtc i uptime time], Done s1) /\
    run_slices b fuel cpt extra dt (i :: rest) err s =
    match run_slice fuel i (slice_cycles cpt extra dt i) err s1 with
    | (t, Done r) =>
        (EvRtc i uptime time
           :: t ++ fst (run_slices b fuel cpt extra dt rest (fst r) (snd r)),
         snd (run_slices b fuel cpt extra dt rest (fst r) (snd r)))
    | (t, OutOfFuel) => (EvRtc i uptime time :: t, OutOfFuel)
    | (t, Undefined) => (EvRtc i uptime time :: t, Undefined)
    end.
Proof.
  destruct (advance_rtc_spec i s) as (up & tm & s1 & Hadv & _).
  exists up, tm, s1. split; [exact Hadv|].
  cbn [run_slices]. rewrite Hadv. cbn [bind].
  destruct (run_slice fuel i _ err s1) as [t [r| |]]; cbn [bind].
  - destruct (run_slices b fuel cpt extra dt rest (fst r) (snd r)) as [t' r'].
    reflexivity.
  - reflexivity.
  - reflexivity.
Qed.

Lemma run_slices_trace fuel cpt extra dt slices : forall err s,
  tick_trace cpt extra dt slices
    (fst (run_slices b fuel cpt extra dt slices err s)).
Proof.
  induction slices as [|i rest IH]; intros err s; [constructor|].
  destruct (run_slices_cons fuel cpt extra dt i rest err s)
    as (up & tm & s1 & _ & ->).
  pose proof (run_slice_trace fuel i (slice_cycles cpt extra dt i) err s1) as Ht.
  destruct (run_slice fuel i _ err s1) as [t [r| |]]; cbn [fst] in *.
  - constructor; [exact Ht | apply IH].
  - rewrite <- (app_nil_r t). constructor; [exact Ht | constructor].
  - rewrite <- (app_nil_r t). constructor; [exact Ht | constructor].
Qed.

Lemma slice_cycles_le_max cpt extra dt i :
  cpt <= INT_MAX -> slice_cycles cpt extra dt i <= INT_MAX.
Proof.
  intros H. unfold slice_cycles. destruct (i =? _); [|exact H].
  apply to_int_range.
Qed.

Lemma run_slices_honest fuel cpt extra dt slices :
  resume_within_budget -> cpt <= INT_MAX ->
  forall err s, honest (fst (run_slices b fuel cpt extra dt slices err s)).
Proof.
  intros Hwb Hc.
  induction slices as [|i rest IH]; intros err s; [constructor|].
  destruct (run_slices_cons fuel cpt extra dt i rest err s)
    as (up & tm & s1 & _ & ->).
  pose proof (run_slice_honest fuel Hwb i (slice_cycles cpt extra dt i)
                err s1 (slice_cycles_le_max _ _ _ _ Hc)) as Ht.
  destruct (run_slice fuel i _ err s1) as [t [r| |]]; cbn [fst] in *.
  - constructor; [exact I|]. apply honest_app. split; [exact Ht | apply IH].
  - constructor; [exact I | exact Ht].
  - constructor; [exact I | exact Ht].
Qed.

Lemma rtc_slices_app t1 t2 : rtc_slices (t1 ++ t2) = rtc_slices t1 ++ rtc_slices t2.
Proof. unfold rtc_slices. apply flat_map_app. Qed.

Lemma rtc_slices_exec i t :
  Forall (fun e => exec_of e = Some i) t -> rtc_slices t = [].
Proof.
  induction 1 as [|e t He _ IH]; [reflexivity|].
  cbn. change (flat_map _ t) with (rtc_slices t). rewrite IH.
  destruct e; cbn in *; congruence.
Qed.

(** A [for] loop that ends has advanced the clock shadow once for each of
    its slices, in order, and has left the other globals alone. *)
Lemma run_slices_done fuel cpt extra dt slices : forall err s e' s',
  snd (run_slices b fuel cpt extra dt slices err s) = Done (e', s') ->
  rtc_slices (fst (run_slices b fuel cpt extra dt slices err s)) = slices /\
  same_globals s s' /\
  (core_keeps_headless -> headless (vm s') = headless (vm s)) /\
  (adaptive b = false ->
   to_uint32 (rtc_uptime s') =
   to_uint32 (rtc_uptime s + Z.of_nat (List.length slices))).
Proof.
  induction slices as [|i rest IH]; intros err s e' s' H.
  - cbn in H. inversion H; subst. cbn [List.length Z.of_nat].
    repeat split. intros _. now rewrite Z.add_0_r.
  - destruct (run_slices_cons fuel cpt extra dt i rest err s)
      as (up & tm & s1 & Hadv & Heq).
    rewrite Heq in H |- *. clear Heq.
    destruct (advance_rtc_spec i s) as (up' & tm' & s1' & Hadv' & Hg & Hvm & Hup).
    rewrite Hadv in Hadv'. inversion Hadv'; subst up' tm' s1'. clear Hadv'.
    pose proof (run_slice_trace fuel i (slice_cycles cpt extra dt i) err s1) as Ht.
    pose proof (run_slice_frame fuel i (slice_cycles cpt extra dt i) err s1) as Hf.
    destruct (run_slice fuel i _ err s1) as [t [[e1 s2]| |]];
      cbn [fst snd] in *; try discriminate.
    destruct (Hf e1 s2 eq_refl) as (Hg2 & _ & Hup2 & Hh2).
    destruct (IH _ _ _ _ H) as (IH1 & IH2 & IH3 & IH4).
    split; [|split; [|split]].
    + change (EvRtc i up tm :: ?l) with ([EvRtc i up tm] ++ l).
      rewrite !rtc_slices_app, IH1.
      rewrite (rtc_slices_exec i t) by (eapply slice_trace_exec; eauto).
      reflexivity.
    + eapply same_globals_trans; [exact Hg|].
      eapply same_globals_trans; [exact Hg2 | exact IH2].
    + intros K. rewrite (IH3 K), (Hh2 K), Hvm. reflexivity.
    + intros Hb. rewrite (IH4 Hb), Hup2, (Hup Hb).
      unfold to_uint32. cbn [List.length].
      rewrite Nat2Z.inj_succ, Zplus_mod_idemp_l. f_equal. lia.
Qed.

(** With a core that makes progress, the [for] loop ends when each slice
    gets [INT_MAX] units of fuel. *)
Lemma run_slices_terminates fuel cpt extra dt slices :
  resume_within_budget -> resume_progress ->
  cpt <= INT_MAX -> (Z.to_nat INT_MAX <= fuel)%nat ->
  forall err s,
    exists r, snd (run_slices b fuel cpt extra dt slices err s) = Done r.
Proof.
  intros Hwb Hpr Hc Hfuel.
  induction slices as [|i rest IH]; intros err s; [cbn; eauto|].
  destruct (run_slices_cons fuel cpt extra dt i rest err s)
    as (up & tm & s1 & _ & ->).
  pose proof (slice_cycles_le_max cpt extra dt i Hc) as Hle.
  destruct (run_slice_terminates Hwb Hpr fuel i (slice_cycles cpt extra dt i)
              err s1 Hle ltac:(lia)) as [r Hr].
  destruct (run_slice fuel i _ err s1) as [t r0]. cbn [snd] in Hr. subst r0.
  cbn [snd]. apply IH.
Qed.

End TickLoop.

(** ** main_loop *)

Section MainLoopFacts.

Context {P : Platform}.
Variable b : build.

Lemma interrupt_dispatch_spec s :
  exists s',
    interrupt_dispatch s = (dispatch_events (headless (vm s)), Done s') /\
    halted (vm s') = false /\
    same_globals s s' /\
    (core_keeps_headless -> headless (vm s') = headless (vm s)).
Proof.
  unfold interrupt_dispatch, dispatch_events.
  assert (Hrem : (Z.rem (ticks s) TPF =? 0) = true).
  { unfold TPF. rewrite Z.rem_1_r. reflexivity. }
  rewrite Hrem.
  destruct (headless (vm s)) eqn:Hhl; cbn [negb].
  - rewrite bind_ret_l, bind_emit. cbn [fst snd ret app].
    eexists. split; [reflexivity|]. cbn. repeat split.
    intros K. rewrite (proj2 (proj2 K)). exact Hhl.
  - rewrite bind_emit. cbn [fst snd ret bind app].
    rewrite bind_emit. cbn [fst snd ret app].
    eexists. split; [reflexivity|]. cbn. repeat split.
    intros K. rewrite (proj2 (proj2 K)). cbn. exact Hhl.
Qed.

(** main_loop, by the outcome of its budget and of its [for] loop. [s0] is
    the state in which the [for] loop starts. *)
Lemma main_loop_shape fuel s :
  match tick_budget b s with
  | None => main_loop b fuel s = (cancel_events b s, Undefined)
  | Some (cpt, extra, est) =>
      exists s0,
        last_cycle_count s0 = est /\ vm s0 = vm s /\ ticks s0 = ticks s /\
        let c := run_slices b fuel cpt extra (tick_dt s)
                   (slice_indices (tick_dt s)) FOX32_ERR_OK s0 in
        match snd c with
        | Done r =>
            exists s2 quit,
              main_loop b fuel s =
                (cancel_events b s ++ fst c
                   ++ dispatch_events (headless (vm (snd r)))
                   ++ [EvProcessEvents quit], Done s2) /\
              halted (vm s2) = false /\
              last_cycle_count s2 = est /\
              ticks s2 = to_int (ticks s + 1) /\
              done s2 = quit /\
              (core_keeps_headless -> headless (vm s2) = headless (vm s))
        | OutOfFuel => main_loop b fuel s = (cancel_events b s ++ fst c, OutOfFuel)
        | Undefined => main_loop b fuel s = (cancel_events b s ++ fst c, Undefined)
        end
  end.
Proof.
  unfold tick_budget, tick_dt, main_loop, cancel_events.
  set (pre := if emscripten b && _ then _ else _).
  assert (Hpre : forall (A : Type) (k : unit -> run A),
             bind pre k =
             ((if emscripten b && (done s || bus_requests_exit (host s))
               then [EvCancelMainLoop] else []) ++ fst (k tt), snd (k tt))).
  { intros A k. subst pre. destruct (emscripten b && _).
    - apply bind_emit.
    - rewrite bind_ret_l. destruct (k tt); reflexivity. }
  rewrite Hpre. clear Hpre pre.
  destruct (SDL_GetTicks (host s)) as [now h1]. cbn [fst].
  destruct (SDL_GetTicks h1) as [now' h2].
  change (last_cycle_count (set_tick_start now' (set_host h2 s)))
    with (last_cycle_count s).
  destruct (cycle_budget _ _ _ _) as [[[cpt extra] est]|];
    [|cbn; rewrite app_nil_r; reflexivity].
  set (s0 := set_last_cycle_count est (set_tick_start now' (set_host h2 s))).
  exists s0. split; [reflexivity|]. split; [reflexivity|].
  split; [reflexivity|]. cbn zeta.
  pose proof (run_slices_done b fuel cpt extra
                (clamp_dt (elapsed_dt now (tick_start s)))
                (slice_indices (clamp_dt (elapsed_dt now (tick_start s))))
                FOX32_ERR_OK s0) as Hdone.
  destruct (run_slices b fuel cpt extra _ _ FOX32_ERR_OK s0) as [t [[e1 s1]| |]];
    cbn [fst snd bind] in *.
  - destruct (Hdone e1 s1 eq_refl) as (_ & Hg & Hh & _).
    destruct (interrupt_dispatch_spec s1) as (s1' & Hd & Hhalt & Hg' & Hh').
    rewrite Hd. cbn [bind].
    destruct (ScreenProcessEvents (host s1')) as [quit h3].
    rewrite bind_emit. cbn [ret fst snd].
    eexists. exists quit. split; [reflexivity|].
    destruct Hg as (_ & _ & Hg3 & _ & Hg5).
    destruct Hg' as (_ & _ & Hg3' & _ & Hg5').
    cbn. repeat split.
    + exact Hhalt.
    + rewrite Hg5', Hg5. reflexivity.
    + rewrite Hg3', Hg3. reflexivity.
    + intros K. rewrite (Hh' K), (Hh K). reflexivity.
  - reflexivity.
  - reflexivity.
Qed.

End MainLoopFacts.

(** ** One iteration of main_loop: what its trace says *)


Lemma slice_indices_range dt i : In i (slice_indices dt) -> 0 <= i < dt.
Proof.
  unfold slice_indices. rewrite in_map_iff. intros (k & <- & Hk).
  apply in_seq in Hk. lia.
Qed.



Section TickClaims.

Context {P : Platform}.
Variable b : build.

Lemma cancel_events_other s : Forall other_event (cancel_events b s).
Proof.
  unfold cancel_events. destruct (_ && _); repeat constructor.
Qed.

Lemma dispatch_events_other hl : Forall other_event (dispatch_events hl).
Proof. unfold dispatch_events. destruct hl; repeat constructor. Qed.

(** The trace of an iteration: the cancellation (emscripten), the trace of
    the [for] loop, and what follows the loop, if the loop ends. *)
Lemma main_loop_events fuel s :
  exists t post,
    fst (main_loop b fuel s) = cancel_events b s ++ t ++ post /\
    Forall other_event post /\
    (post = [] \/
     exists hl quit, post = dispatch_events hl ++ [EvProcessEvents quit]) /\
    (forall s', snd (main_loop b fuel s) = Done s' ->
       exists hl quit, post = dispatch_events hl ++ [EvProcessEvents quit]) /\
    match tick_budget b s with
    | Some (cpt, extra, est) =>
        tick_trace cpt extra (tick_dt s) (slice_indices (tick_dt s)) t /\
        (resume_within_budget -> cpt <= INT_MAX -> honest t) /\
        (forall s', snd (main_loop b fuel s) = Done s' ->
           rtc_slices t = slice_indices (tick_dt s))
    | None => t = []
    end.
Proof.
  pose proof (main_loop_shape b fuel s) as Hshape.
  destruct (tick_budget b s) as [[[cpt extra] est]|].
  - destruct Hshape as (s0 & _ & _ & _ & Hshape). cbn zeta in Hshape.
    pose proof (run_slices_trace b fuel cpt extra (tick_dt s)
                  (slice_indices (tick_dt s)) FOX32_ERR_OK s0) as Htr.
    pose proof (fun H1 H2 =>
                  run_slices_honest b fuel cpt extra (tick_dt s)
                    (slice_indices (tick_dt s)) H1 H2 FOX32_ERR_OK s0) as Hho.
    pose proof (run_slices_done b fuel cpt extra (tick_dt s)
                  (slice_indices (tick_dt s)) FOX32_ERR_OK s0) as Hdone.
    destruct (run_slices b fuel cpt extra _ _ FOX32_ERR_OK s0) as [t [[e1 s1]| |]];
      cbn [fst snd] in *.
    + destruct Hshape as (s2 & quit & -> & _).
      destruct (Hdone e1 s1 eq_refl) as (Hrtc & _).
      exists t, (dispatch_events (headless (vm s1)) ++ [EvProcessEvents quit]).
      cbn [fst snd]. split; [reflexivity|]. split.
      { apply Forall_app. split; [apply dispatch_events_other|].
        repeat constructor. }
      split; [right; eauto|]. split; [eauto|]. auto.
    + rewrite Hshape. exists t, []. cbn [fst snd]. rewrite app_nil_r.
      split; [reflexivity|]. split; [constructor|]. split; [now left|].
      split; [discriminate|]. split; [exact Htr|]. split; [exact Hho|discriminate].
    + rewrite Hshape. exists t, []. cbn [fst snd]. rewrite app_nil_r.
      split; [reflexivity|]. split; [constructor|]. split; [now left|].
      split; [discriminate|]. split; [exact Htr|]. split; [exact Hho|discriminate].
  - rewrite Hshape. exists [], []. cbn [fst snd]. rewrite app_nil_r.
    split; [reflexivity|]. split; [constructor|]. split; [now left|].
    split; [discriminate | reflexivity].
Qed.



Lemma executed_total_other t : Forall other_event t -> executed_total t = 0.
Proof.
  induction 1 as [|e t [He _] _ IH]; [reflexivity|].
  rewrite executed_total_cons, IH. destruct e; cbn in *; congruence.
Qed.

Lemma unrecoverable_other t :
  Forall other_event t -> existsb unrecoverable t = false.
Proof.
  induction 1 as [|e t [He _] _ IH]; [reflexivity|].
  cbn [existsb]. rewrite IH. destruct e; cbn in *; congruence.
Qed.


Lemma tick_trace_timed cpt extra dt slices t :
  tick_trace cpt extra dt slices t ->
  Forall (fun e => rtc_of e <> None \/ exec_of e <> None) t.
Proof.
  intros H. apply tick_trace_slices in H.
  eapply Forall_impl; [|exact H]. cbn beta. tauto.
Qed.

End TickClaims.

Lemma zsum_map_const {A : Type} (f : A -> Z) c l :
  (forall x, In x l -> f x = c) -> zsum (map f l) = c * Z.of_nat (List.length l).
Proof.
  induction l as [|a l IH]; intros H; [cbn; lia|].
  cbn [map zsum fold_right List.length]. fold (zsum (map f l)).
  rewrite IH by (intros; apply H; now right).
  rewrite (H a) by now left. lia.
Qed.

(** The slices of a tick start with [cycles_per_tick] each, the last one
    with [extra_cycles] more. *)
Lemma slice_plan_sum cpt extra dt :
  1 <= dt <= INT_MAX ->
  zsum (slice_plan cpt extra dt) = cpt * (dt - 1) + to_int (cpt + extra).
Proof.
  intros Hdt. unfold slice_plan, slice_indices.
  destruct (Z.to_nat dt) as [|m] eqn:Hm; [lia|].
  rewrite seq_S, !map_app, zsum_app. cbn [plus map zsum fold_right].
  rewrite zsum_map_const with (c := cpt).
  - rewrite !length_map, length_seq.
    unfold slice_cycles.
    rewrite (to_int_id (dt - 1)) by (unfold in_int, INT_MIN, INT_MAX in *; lia).
    destruct (Z.eqb_spec (Z.of_nat m) (dt - 1)); lia.
  - intros x Hx. apply in_map_iff in Hx. destruct Hx as (k & <- & Hk).
    apply in_seq in Hk. unfold slice_cycles.
    rewrite (to_int_id (dt - 1)) by (unfold in_int, INT_MIN, INT_MAX in *; lia).
    destruct (Z.eqb_spec (Z.of_nat k) (dt - 1)); [lia | reflexivity].
Qed.

Section TickTheorems.

Context {P : Platform}.
Variable b : build.


End TickTheorems.

(** In the fixed build the budget of an iteration is always defined. *)
Lemma tick_budget_fixed {P : Platform} (b : build) (s : state) :
  adaptive b = false -> 0 <= FOX32_CPU_HZ <= INT_MAX ->
  exists cpt extra,
    tick_budget b s = Some (cpt, extra, last_cycle_count s) /\ cpt <= INT_MAX.
Proof.
  intros Hb Hhz. unfold tick_budget, cycle_budget. rewrite Hb.
  unfold base_budget. rewrite per_tick_defined by lia. cbn [obind].
  assert (Hq : 0 <= FOX32_CPU_HZ / 60 <= INT_MAX).
  { split; [apply Z.div_pos; lia|].
    apply Z.le_trans with FOX32_CPU_HZ; [|lia].
    apply Z.div_le_upper_bound; lia. }
  assert (Hdt : tick_dt s <> 0) by apply clamp_dt_nonzero.
  rewrite (int_div_some (FOX32_CPU_HZ / 60) (tick_dt s) Hdt)
    by (unfold INT_MIN; lia).
  cbn [obind fst snd]. do 2 eexists. split; [reflexivity|].
  destruct (Z.lt_trichotomy (tick_dt s) 0) as [Hneg|[H0|Hpos]]; [|contradiction|].
  - destruct Hq as [Hq0 _].
    assert (Hnd : 0 < - tick_dt s) by lia.
    pose proof (Z.quot_pos _ _ Hq0 Hnd) as Hqp.
    rewrite Z.quot_opp_r in Hqp by lia.
    unfold INT_MAX. lia.
  - rewrite Z.quot_div_nonneg by lia.
    apply Z.le_trans with (FOX32_CPU_HZ / 60); [|lia].
    apply Z.div_le_upper_bound; nia.
Qed.

(** An iteration of main_loop in the fixed build ends, with [INT_MAX] units
    of fuel for each slice, when the core keeps within its budget and makes
    progress at every call. *)
Lemma main_loop_ends {P : Platform} (b : build) (fuel : nat) (s : state) :
  adaptive b = false -> 0 <= FOX32_CPU_HZ <= INT_MAX ->
  resume_within_budget -> resume_progress ->
  (Z.to_nat INT_MAX <= fuel)%nat ->
  exists s', snd (main_loop b fuel s) = Done s'.
Proof.
  intros Hb Hhz Hwb Hpr Hfuel.
  destruct (tick_budget_fixed b s Hb Hhz) as (cpt & extra & Hbud & Hc).
  pose proof (main_loop_shape b fuel s) as Hs. rewrite Hbud in Hs.
  destruct Hs as (s0 & _ & _ & _ & Hs). cbn zeta in Hs.
  destruct (run_slices_terminates b fuel cpt extra (tick_dt s)
              (slice_indices (tick_dt s)) Hwb Hpr Hc Hfuel FOX32_ERR_OK s0)
    as [r Hr].
  rewrite Hr in Hs. destruct Hs as (s2 & quit & -> & _).
  exists s2. reflexivity.
Qed.

(** C10, as amended. With the core's contract (no call reports more
    cycles than it was asked for), the loop of a slice that starts with
    [n] cycles ends, within [n] iterations, when every call of fox32_resume reports at least
    one executed cycle or returns a fault that recovery gives back. When
    instead the calls for [n] cycles report none executed and leave no
    fault (success, or a fault that recovery repairs), [cycles_left] stays
    at [n] (every call of the trace asks for [n] again) and no number of
    iterations ends the loop. *)
Theorem slice_loop_ends_iff_core_progresses
  {P : Platform} (n : Z) (Hn : n <= INT_MAX) :
  (resume_within_budget -> resume_progress ->
   forall i err s, exists r, snd (run_slice (Z.to_nat n) i n err s) = Done r) /\
  (0 < n -> resume_stalls n ->
   forall fuel i err s,
     snd (run_slice fuel i n err s) = OutOfFuel /\
     Forall (fun ev => forall j c e x, ev = EvResume j c e x -> c = n /\ x = 0)
       (fst (run_slice fuel i n err s)) /\
     (fuel <= List.length (fst (run_slice fuel i n err s)))%nat).
Proof.
  split.
  - intros Hwb Hpr i err s.
    apply run_slice_terminates; auto.
  - intros Hpos Hst fuel i err s.
    apply run_slice_stalls; auto.
Qed.

(** ** Headless mode *)

Lemma no_draw_app t1 t2 : no_draw (t1 ++ t2) <-> no_draw t1 /\ no_draw t2.
Proof. apply Forall_app. Qed.

Lemma no_draw_bind {A B : Type} (c : run A) (f : A -> run B) :
  no_draw (fst c) ->
  (forall a, snd c = Done a -> no_draw (fst (f a))) ->
  no_draw (fst (bind c f)).
Proof.
  intros Hc Hf. destruct c as [t [a| |]]; cbn in *; try assumption.
  specialize (Hf a eq_refl). destruct (f a) as [t' r]. cbn in *.
  apply no_draw_app. auto.
Qed.

Lemma bind_snd_done {A B : Type} (c : run A) (f : A -> run B) y :
  snd (bind c f) = Done y ->
  exists a, snd c = Done a /\ snd (f a) = Done y.
Proof.
  destruct c as [t [a| |]]; cbn; try discriminate.
  destruct (f a) as [t' r] eqn:Hf. cbn. intros ->. exists a.
  rewrite Hf. auto.
Qed.

Lemma no_draw_timed t :
  Forall (fun e => rtc_of e <> None \/ exec_of e <> None) t -> no_draw t.
Proof.
  apply Forall_impl. intros e [H|H]; destruct e; cbn in *; congruence.
Qed.

Section Headless.

Context {P : Platform}.
Variable b : build.
Hypothesis Hcore : core_keeps_headless.

Lemma main_loop_headless fuel s :
  headless (vm s) = true ->
  no_draw (fst (main_loop b fuel s)) /\
  (forall s', snd (main_loop b fuel s) = Done s' -> headless (vm s') = true).
Proof.
  intros Hhl.
  assert (Hc : no_draw (cancel_events b s)).
  { unfold cancel_events. destruct (_ && _); repeat constructor. }
  pose proof (main_loop_shape b fuel s) as Hs.
  destruct (tick_budget b s) as [[[cpt extra] est]|];
    [|rewrite Hs; split; [exact Hc | discriminate]].
  destruct Hs as (s0 & _ & Hvm & _ & Hs). cbn zeta in Hs.
  pose proof (run_slices_trace b fuel cpt extra (tick_dt s)
                (slice_indices (tick_dt s)) FOX32_ERR_OK s0) as Htr.
  apply tick_trace_timed, no_draw_timed in Htr.
  pose proof (run_slices_done b fuel cpt extra (tick_dt s)
                (slice_indices (tick_dt s)) FOX32_ERR_OK s0) as Hdone.
  destruct (run_slices b fuel cpt extra _ _ FOX32_ERR_OK s0) as [t [[e1 s1]| |]];
    cbn [fst snd] in *.
  - destruct (Hdone e1 s1 eq_refl) as (_ & _ & Hh & _).
    destruct Hs as (s2 & quit & -> & _ & _ & _ & _ & Hh2). cbn [fst snd].
    rewrite (Hh Hcore), Hvm, Hhl. split.
    + apply no_draw_app. split; [exact Hc|].
      apply no_draw_app. split; [exact Htr|]. repeat constructor.
    + intros s' Hs'. inversion Hs'; subst s'. rewrite (Hh2 Hcore). exact Hhl.
  - rewrite Hs. cbn [fst snd]. split; [|discriminate].
    apply no_draw_app. auto.
  - rewrite Hs. cbn [fst snd]. split; [|discriminate].
    apply no_draw_app. auto.
Qed.

Lemma pace_headless s :
  exists t s', pace s = (t, Done s') /\ no_draw t /\ vm s' = vm s.
Proof.
  unfold pace. destruct (SDL_GetTicks (host s)) as [now h].
  destruct (0 <? _).
  - rewrite bind_emit. cbn. do 2 eexists. split; [reflexivity|].
    split; [repeat constructor | reflexivity].
  - do 2 eexists. split; [reflexivity|]. split; [constructor | reflexivity].
Qed.

Lemma pull_loop_headless fuel n : forall s,
  headless (vm s) = true -> no_draw (fst (pull_loop b n fuel s)).
Proof.
  induction n as [|n IH]; intros s Hhl; cbn [pull_loop];
    destruct (negb (done s) && negb (bus_requests_exit (host s)));
    try constructor.
  destruct (main_loop_headless fuel s Hhl) as [Hnd Hkeep].
  apply no_draw_bind; [exact Hnd|]. intros s1 Hs1.
  destruct (pace_headless s1) as (t & s2 & Hp & Hpt & Hvm).
  rewrite Hp. cbn [bind].
  destruct (pull_loop b n fuel s2) as [t' r] eqn:Hl. cbn [fst].
  apply no_draw_app. split; [exact Hpt|].
  change t' with (fst (t', r)). rewrite <- Hl. apply IH.
  rewrite Hvm. apply Hkeep. exact Hs1.
Qed.

Lemma push_loop_headless fuel n : forall s,
  headless (vm s) = true -> no_draw (fst (push_loop b n fuel s)).
Proof.
  induction n as [|n IH]; intros s Hhl; cbn [push_loop]; [constructor|].
  destruct (main_loop_headless fuel s Hhl) as [Hnd Hkeep].
  apply no_draw_bind; [exact Hnd|]. intros s1 Hs1.
  destruct (done s || bus_requests_exit (host s)); [constructor|].
  apply IH. apply Hkeep. exact Hs1.
Qed.

Lemma start_headless n fuel s :
  headless (vm s) = true -> no_draw (fst (start b n fuel s)).
Proof.
  intros Hhl. unfold start.
  apply no_draw_bind.
  - destruct (windows b); [constructor|]. rewrite bind_emit.
    repeat constructor.
  - intros s1 Hs1.
    assert (Hvm : vm s1 = vm s).
    { destruct (windows b); cbn in Hs1.
      - inversion Hs1; reflexivity.
      - inversion Hs1; reflexivity. }
    destruct (SDL_GetTicks (host s1)) as [now h].
    destruct (SDL_GetTicks _) as [now' h'].
    destruct (emscripten b).
    + apply no_draw_bind.
      * apply push_loop_headless. cbn. rewrite Hvm. exact Hhl.
      * intros; constructor.
    + apply no_draw_bind.
      * apply pull_loop_headless. cbn. rewrite Hvm. exact Hhl.
      * intros; constructor.
Qed.

Lemma load_rom_no_draw path s : no_draw (fst (load_rom path s)).
Proof.
  unfold load_rom. destruct (read_rom path (host s));
    rewrite bind_emit; repeat constructor.
Qed.

Lemma parse_args_no_draw k : forall argv disk_id s,
  (List.length argv <= k)%nat -> no_draw (fst (parse_args argv disk_id s)).
Proof.
  induction k as [|k IH]; intros argv disk_id s Hlen.
  - destruct argv; [constructor | cbn in Hlen; lia].
  - destruct argv as [|arg rest]; [constructor|]. cbn [parse_args].
    cbn [List.length] in Hlen.
    destruct (String.eqb arg "--help");
      [rewrite bind_emit; repeat constructor|].
    destruct (String.eqb arg "--disk").
    { destruct rest as [|path rest']; rewrite bind_emit;
        [repeat constructor|].
      cbn [fst]. constructor; [reflexivity|]. apply IH.
      cbn [List.length] in Hlen. lia. }
    destruct (String.eqb arg "--rom").
    { destruct rest as [|path rest'];
        [rewrite bind_emit; repeat constructor|].
      apply no_draw_bind; [apply load_rom_no_draw|].
      intros s1 _. apply IH. cbn [List.length] in Hlen. lia. }
    destruct (String.eqb arg "--debug"); [apply IH; lia|].
    destruct (String.eqb arg "--headless"); [apply IH; lia|].
    rewrite bind_emit. repeat constructor.
Qed.

Lemma configure_no_draw args h : no_draw (fst (configure b args h)).
Proof.
  unfold configure. destruct (emscripten b).
  - rewrite bind_emit. repeat constructor.
  - eapply parse_args_no_draw. apply Nat.le_refl.
Qed.

(** C7. When the options leave [vm.headless] set, and the CPU core does
    not write that flag, the whole run of main issues no draw request:
    none at startup, none in any iteration, for any number [n] of
    iterations and any amount of fuel, whether the run ends or not. *)
Theorem headless_never_draws
  (n fuel : nat) (args : list string) (h : host_t) (disk_id : Z) (s : state)
  (Hconfigured : snd (configure b args h) = Done (Parsed (disk_id, s)))
  (Hheadless : headless (vm s) = true) :
  ~ In EvScreenDraw (events (main b n fuel args h)).
Proof.
  assert (Hnd : no_draw (events (main b n fuel args h))).
  { unfold events, main. apply no_draw_bind; [apply configure_no_draw|].
    intros p Hp. rewrite Hconfigured in Hp. inversion Hp; subst p.
    unfold open_window. rewrite Hheadless. cbn [negb].
    rewrite bind_ret_l. apply start_headless. exact Hheadless. }
  intros Hin. unfold no_draw in Hnd. rewrite Forall_forall in Hnd.
  specialize (Hnd _ Hin). discriminate.
Qed.

End Headless.

(** ** The theorems on concrete runs *)



(** The spec's scenario [--rom custom.rom --headless], 1000 iterations. *)
Lemma headless_never_draws_witness :
  headless
    (vm (set_vm (set_headless true (vm (initial_state (P := steady_platform)
                                          (Build_toy_host 0 8))))
           (initial_state (P := steady_platform) (Build_toy_host 0 8)))) = true /\
  ~ In EvScreenDraw
      (events (main (P := steady_platform) native_build 1000 10
                 ["--rom"; "custom.rom"; "--headless"]%string
                 (Build_toy_host 0 8))).
Proof.
  split; [reflexivity|].
  apply (headless_never_draws (P := steady_platform) native_build
           (conj (fun v h n => eq_refl)
              (conj (fun v h e => eq_refl) (fun v h n => eq_refl)))
           1000 10 ["--rom"; "custom.rom"; "--headless"]%string
           (Build_toy_host 0 8) 0
           (set_vm (set_headless true (vm (initial_state (P := steady_platform)
                                             (Build_toy_host 0 8))))
              (initial_state (P := steady_platform) (Build_toy_host 0 8))));
    reflexivity.
Defined.

(** A slice of 5 cycles ends on the core that runs all it is asked for, and
    does not on the core that never runs anything. *)
Lemma slice_loop_ends_iff_core_progresses_witness :
  (exists r,
     snd (run_slice (P := steady_platform) (Z.to_nat 5) 0 5 0
            (uniform_state 64000000 (fun count => (0, count)) 0)) = Done r) /\
  snd (run_slice (P := stalled_platform) 7 0 5 0
         (uniform_state 64000000 (fun _ => (0, 0)) 0)) = OutOfFuel.
Proof.
  split.
  - apply (proj1 (slice_loop_ends_iff_core_progresses (P := steady_platform) 5
                    ltac:(unfold INT_MAX; lia))).
    + intros v h n Hn. cbn. lia.
    + intros v h n Hn. cbn. lia.
  - apply (proj2 (slice_loop_ends_iff_core_progresses (P := stalled_platform) 5
                    ltac:(unfold INT_MAX; lia))).
    + lia.
    + intros v h. cbn. auto.
Defined.

Lemma overshoot_loop fuel : forall n i err s,
  n = 1 \/ n = 2 ->
  snd (run_slice (P := overshoot_platform) fuel i n err s) = OutOfFuel.
Proof.
  induction fuel as [|fuel IH]; intros n i err s Hn.
  - rewrite run_slice_no_fuel by lia. reflexivity.
  - rewrite run_slice_unfold.
    destruct Hn as [-> | ->]; cbn; apply IH; cbn; auto.
Qed.

(** C10 as stated fails: its precondition alone does not end the loop. A
    core that reports at least one executed cycle at every call, but
    2^32 - 1 cycles when asked for one, satisfies it; [cycles_left -=
    executed] then takes 1 to 2 and 2 to 1, and the loop of a slice of one
    cycle never ends. *)
Lemma overshooting_core_never_ends_slice :
  resume_progress (P := overshoot_platform) /\
  cycles_after 1 (2 ^ 32 - 1) = 2 /\
  cycles_after 2 1 = 1 /\
  forall fuel,
    snd (run_slice (P := overshoot_platform) fuel 0 1 0
           (uniform_state 64000000
              (fun count => (0, if count =? 1 then 2 ^ 32 - 1 else 1)) 0))
    = OutOfFuel.
Proof.
  split; [|split; [reflexivity | split; [reflexivity|]]].
  - intros v h n Hn. cbn. destruct (n =? 1); lia.
  - intros fuel. apply overshoot_loop. now left.
Qed.

(** ** The adaptive budget *)

Lemma measured_tps_some dt tps :
  measured_tps dt = Some tps -> dt <> 0 /\ tps = Z.quot 1000 dt.
Proof.
  unfold measured_tps, int_div, TPF.
  change (1 =? 0) with false. change (1 =? -1) with false.
  rewrite andb_false_r. cbn [obind]. rewrite Z.quot_1_r.
  destruct (Z.eqb_spec dt 0); [discriminate|].
  change (1000 =? INT_MIN) with false. cbn [andb].
  intros H. inversion H. auto.
Qed.

Lemma measured_tps_defined dt :
  dt <> 0 -> measured_tps dt = Some (Z.quot 1000 dt).
Proof.
  intros H. unfold measured_tps, int_div, TPF.
  change (1 =? 0) with false. change (1 =? -1) with false.
  rewrite andb_false_r. cbn [obind]. rewrite Z.quot_1_r.
  destruct (Z.eqb_spec dt 0); [contradiction|].
  change (1000 =? INT_MIN) with false. reflexivity.
Qed.

(** The band of the code, 50 < tps < 70, is met by elapsed times of 15 to
    19 ms, and by no other. *)
Lemma in_band_dt dt :
  in_band (Z.quot 1000 dt) = true <-> 15 <= dt <= 19.
Proof.
  unfold in_band, TPS, FPS, TPF, CYCLE_AUTOADJUST_TOLERANCE.
  rewrite andb_true_iff, !Z.ltb_lt. split.
  - intros [H1 H2].
    destruct (Z.le_gt_cases dt 0) as [Hneg|Hpos].
    + destruct (Z.eq_dec dt 0) as [->|Hnz]; [change (Z.quot 1000 0) with 0 in H1; lia|].
      assert (Z.quot 1000 dt <= 0).
      { rewrite <- (Z.opp_involutive dt), Z.quot_opp_r by lia.
        pose proof (Z.quot_pos 1000 (- dt) ltac:(lia) ltac:(lia)). lia. }
      lia.
    + rewrite Z.quot_div_nonneg in H1, H2 by lia.
      pose proof (Z.div_mod 1000 dt ltac:(lia)) as Hdm.
      pose proof (Z.mod_pos_bound 1000 dt ltac:(lia)) as Hmb.
      nia.
  - intros Hdt. rewrite Z.quot_div_nonneg by lia.
    pose proof (Z.div_mod 1000 dt ltac:(lia)) as Hdm.
    pose proof (Z.mod_pos_bound 1000 dt ltac:(lia)) as Hmb.
    nia.
Qed.

(** A measured rate within 10 percent of the target lies in the code's
    band. *)
Lemma ten_percent_in_band tps :
  9 * TPS <= 10 * tps <= 11 * TPS -> in_band tps = true.
Proof.
  unfold in_band, TPS, FPS, TPF, CYCLE_AUTOADJUST_TOLERANCE.
  intros H. apply andb_true_iff. rewrite !Z.ltb_lt. lia.
Qed.

(** The budget of a tick in the band. *)
Lemma cycle_budget_in_band hz last_cycle_count dt :
  0 <= hz <= INT_MAX -> 15 <= dt <= 19 ->
  cycle_budget hz true last_cycle_count dt =
    Some (last_cycle_count, CYCLE_AUTOADJUST_ADD,
          to_int (last_cycle_count + CYCLE_AUTOADJUST_ADD)).
Proof.
  intros Hhz Hdt. unfold cycle_budget.
  rewrite base_budget_pos by (unfold INT_MAX in *; lia). cbn [obind fst snd].
  unfold autoadjust. rewrite measured_tps_defined by lia. cbn [obind].
  rewrite (proj2 (in_band_dt dt) Hdt). cbn [obind fst snd]. reflexivity.
Qed.

(** C3, as amended. In adaptive mode, when the measured ticks-per-second
    lies in the band (more than TPS - 10 and less than TPS + 10, which
    holds in particular within 10 percent of TPS), the budget of this tick
    is the previous estimate per millisecond, the leftover computed from
    the clock rate is dropped and the fixed 1000 cycles stand in its place,
    and the estimate persisted for the next tick is the previous one plus
    1000 (as an [int]): it grows by 1000 at each tick in the band. *)
Theorem in_band_keeps_budget_and_adds_margin
  (hz last_cycle_count dt tps : Z)
  (Hhz : 0 <= hz <= INT_MAX)
  (Htps : measured_tps dt = Some tps) (Hband : in_band tps = true) :
  cycle_budget hz true last_cycle_count dt =
    Some (last_cycle_count, CYCLE_AUTOADJUST_ADD,
          to_int (last_cycle_count + CYCLE_AUTOADJUST_ADD)) /\
  (INT_MIN <= last_cycle_count <= INT_MAX - CYCLE_AUTOADJUST_ADD ->
   to_int (last_cycle_count + CYCLE_AUTOADJUST_ADD)
   = last_cycle_count + CYCLE_AUTOADJUST_ADD).
Proof.
  destruct (measured_tps_some _ _ Htps) as [Hnz ->].
  pose proof (proj1 (in_band_dt dt) Hband) as Hdt.
  split.
  - apply cycle_budget_in_band; assumption.
  - intros H. apply to_int_id.
    unfold in_int, CYCLE_AUTOADJUST_ADD, INT_MIN, INT_MAX in *. lia.
Qed.

(** The theorem at 64 MHz, 16 ms and the initial estimate 1. *)
Lemma in_band_keeps_budget_and_adds_margin_witness :
  cycle_budget 64000000 true 1 16 = Some (1, 1000, to_int (1 + 1000)) /\
  (INT_MIN <= 1 <= INT_MAX - CYCLE_AUTOADJUST_ADD ->
   to_int (1 + CYCLE_AUTOADJUST_ADD) = 1 + CYCLE_AUTOADJUST_ADD).
Proof.
  apply (in_band_keeps_budget_and_adds_margin 64000000 1 16 62).
  - unfold INT_MAX. lia.
  - reflexivity.
  - reflexivity.
Defined.

(** C3 as stated fails: at 16 ms (62 ticks per second, within 10 percent
    of 60) the persisted estimate goes from 1 to 1001. *)
Lemma in_band_estimate_changes :
  measured_tps 16 = Some 62 /\
  9 * TPS <= 10 * 62 <= 11 * TPS /\
  cycle_budget 64000000 true initial_cycle_count 16 = Some (1, 1000, 1001) /\
  1001 <> initial_cycle_count.
Proof.
  split; [reflexivity|]. split; [unfold TPS, FPS, TPF; lia|].
  split; [reflexivity | discriminate].
Qed.

(** ** binary32: rounding, conversion and division *)

Lemma digits2_bounds p :
  2 ^ (Zpos (digits2_pos p) - 1) <= Zpos p < 2 ^ Zpos (digits2_pos p).
Proof.
  induction p as [p IH|p IH|]; cbn [digits2_pos].
  - rewrite Pos2Z.inj_succ, Z.pow_succ_r by lia.
    replace (Z.succ (Z.pos (digits2_pos p)) - 1) with (Z.succ (Z.pos (digits2_pos p) - 1)) by lia.
    rewrite Z.pow_succ_r by lia. lia.
  - rewrite Pos2Z.inj_succ, Z.pow_succ_r by lia.
    replace (Z.succ (Z.pos (digits2_pos p)) - 1) with (Z.succ (Z.pos (digits2_pos p) - 1)) by lia.
    rewrite Z.pow_succ_r by lia. lia.
  - cbn. lia.
Qed.

Lemma digits2_unique m d :
  2 ^ (d - 1) <= Zpos m < 2 ^ d -> Zpos (digits2_pos m) = d.
Proof.
  intros [Hlo Hhi]. pose proof (digits2_bounds m) as [Glo Ghi].
  set (g := Zpos (digits2_pos m)) in *.
  assert (0 < d).
  { destruct (Z.le_gt_cases d 0) as [H|H]; [|exact H].
    pose proof (Z.pow_le_mono_r 2 d 0 ltac:(lia) H). cbn in *. lia. }
  destruct (Z.lt_trichotomy g d) as [H1|[H1|H1]]; [|exact H1|].
  - pose proof (Z.pow_le_mono_r 2 g (d - 1) ltac:(lia) ltac:(lia)). lia.
  - pose proof (Z.pow_le_mono_r 2 d (g - 1) ltac:(lia) ltac:(lia)). lia.
Qed.

Lemma shr_1_m mrs :
  0 <= shr_m mrs -> shr_m (shr_1 mrs) = shr_m mrs / 2.
Proof.
  destruct mrs as [m r s]. cbn [shr_m]. intros Hm.
  destruct m as [|p|p]; [reflexivity| |lia].
  destruct p as [p|p|]; cbn [shr_1 shr_m].
  - rewrite Pos2Z.inj_xI. apply Z.div_unique with 1; lia.
  - rewrite Pos2Z.inj_xO. apply Z.div_unique with 0; lia.
  - reflexivity.
Qed.

Lemma iter_pos_shr_m p : forall mrs,
  0 <= shr_m mrs ->
  shr_m (iter_pos shr_1 p mrs) = shr_m mrs / 2 ^ Zpos p.
Proof.
  assert (Hnn : forall mrs, 0 <= shr_m mrs -> 0 <= shr_m (shr_1 mrs)).
  { intros mrs H. rewrite shr_1_m by exact H. apply Z.div_pos; lia. }
  induction p as [p IH|p IH|]; intros mrs Hm; cbn [iter_pos].
  - assert (Hp : 0 < 2 ^ Z.pos p) by (apply Z.pow_pos_nonneg; lia).
    assert (H1 : 0 <= shr_m (iter_pos shr_1 p (shr_1 mrs))).
    { rewrite IH by auto. apply Z.div_pos; auto. }
    rewrite IH, IH, shr_1_m by auto.
    rewrite !Z.div_div by lia. f_equal.
    rewrite Pos2Z.inj_xI, Z.pow_add_r, Z.pow_mul_r by lia.
    change (2 ^ 1) with 2. rewrite Z.pow_2_r.
    rewrite <- Z.pow_mul_l. rewrite Z.pow_mul_l. lia.
  - assert (Hp : 0 < 2 ^ Z.pos p) by (apply Z.pow_pos_nonneg; lia).
    assert (H1 : 0 <= shr_m (iter_pos shr_1 p mrs)).
    { rewrite IH by auto. apply Z.div_pos; auto. }
    rewrite IH, IH by auto.
    rewrite !Z.div_div by lia. f_equal.
    rewrite Pos2Z.inj_xO, <- Z.pow_add_r by lia. f_equal. lia.
  - rewrite shr_1_m by exact Hm. reflexivity.
Qed.

Lemma shr_spec mrs e n :
  0 <= shr_m mrs ->
  shr_m (fst (shr mrs e n)) = shr_m mrs / 2 ^ Z.max 0 n /\
  snd (shr mrs e n) = e + Z.max 0 n.
Proof.
  intros Hm. destruct n as [|p|p]; cbn [shr fst snd].
  - cbn. rewrite Z.div_1_r. lia.
  - rewrite iter_pos_shr_m by exact Hm. split; [reflexivity | lia].
  - cbn. rewrite Z.div_1_r. lia.
Qed.

Lemma shr_m_of_loc m l : shr_m (shr_record_of_loc m l) = m.
Proof. destruct l as [|[]]; reflexivity. Qed.

Lemma shr_fexp_spec m e l :
  0 <= m ->
  shr_m (fst (shr_fexp 24 128 m e l))
  = m / 2 ^ Z.max 0 (fexp 24 128 (Zdigits2 m + e) - e) /\
  snd (shr_fexp 24 128 m e l)
  = e + Z.max 0 (fexp 24 128 (Zdigits2 m + e) - e).
Proof.
  intros Hm. unfold shr_fexp.
  pose proof (shr_spec (shr_record_of_loc m l) e
                (fexp 24 128 (Zdigits2 m + e) - e)) as H.
  rewrite shr_m_of_loc in H. apply H. exact Hm.
Qed.

Lemma round_nearest_even_bounds m l :
  m <= round_nearest_even m l <= m + 1.
Proof.
  destruct l as [|[]]; cbn; try lia. destruct (Z.even m); lia.
Qed.

Lemma fexp_normal e : -125 <= e -> fexp 24 128 e = e - 24.
Proof. intros H. unfold fexp, emin. lia. Qed.

(** Rounding a mantissa of at least 24 bits in the normal range. With
    [n] the bits dropped, [F] the mantissa cut to 24 bits and [E] its
    exponent, the result is [F] or [F + 1] units of [2 ^ E]. *)
Lemma binary_round_aux_normal sx mx ex lx :
  0 < mx -> 24 <= Zdigits2 mx ->
  -125 <= Zdigits2 mx + ex <= 127 ->
  let n := Zdigits2 mx - 24 in
  let F := mx / 2 ^ n in
  let E := ex + n in
  2 ^ 23 <= F < 2 ^ 24 /\
  exists m e,
    binary_round_aux 24 128 sx mx ex lx = S754_finite sx m e /\
    2 ^ 23 <= Zpos m < 2 ^ 24 /\
    ((e = E /\ F <= Zpos m <= F + 1) \/
     (e = E + 1 /\ Zpos m = 2 ^ 23 /\ F + 1 = 2 ^ 24)).
Proof.
  intros Hmx HD Hrange n F E.
  assert (Hn : 0 <= n) by (subst n; lia).
  assert (Hpow : 0 < 2 ^ n) by (apply Z.pow_pos_nonneg; lia).
  assert (HF : 2 ^ 23 <= F < 2 ^ 24).
  { destruct mx as [|p|p]; try lia. cbn [Zdigits2] in *.
    pose proof (digits2_bounds p) as [Hlo Hhi].
    set (D := Z.pos (digits2_pos p)) in *.
    replace (D - 1) with (23 + n) in Hlo by (subst n; lia).
    replace D with (24 + n) in Hhi by (subst n; lia).
    rewrite Z.pow_add_r in Hlo, Hhi by lia.
    subst F. split.
    - apply Z.div_le_lower_bound; lia.
    - apply Z.div_lt_upper_bound; lia. }
  split; [exact HF|].
  unfold binary_round_aux.
  pose proof (shr_fexp_spec mx ex lx ltac:(lia)) as [H1 H2].
  rewrite fexp_normal in H1, H2 by lia.
  replace (Z.max 0 (Zdigits2 mx + ex - 24 - ex)) with n in H1, H2 by (subst n; lia).
  destruct (shr_fexp 24 128 mx ex lx) as [mrs' e']. cbn [fst snd] in H1, H2.
  fold F in H1. fold E in H2. subst e'.
  pose proof (round_nearest_even_bounds (shr_m mrs') (loc_of_shr_record mrs')) as Hr.
  set (m1 := round_nearest_even (shr_m mrs') (loc_of_shr_record mrs')) in *.
  rewrite H1 in Hr.
  pose proof (shr_fexp_spec m1 E loc_Exact ltac:(lia)) as [H3 H4].
  destruct (shr_fexp 24 128 m1 E loc_Exact) as [mrs'' e'']. cbn [fst snd] in H3, H4.
  assert (HE : -149 <= E <= 103) by (subst E n; lia).
  destruct (Z.eq_dec m1 (2 ^ 24)) as [Hcarry|Hnc].
  - assert (Hd : Zdigits2 m1 = 25).
    { rewrite Hcarry. reflexivity. }
    rewrite Hd, fexp_normal in H3, H4 by lia.
    replace (Z.max 0 (25 + E - 24 - E)) with 1 in H3, H4 by lia.
    rewrite Hcarry in H3. change (2 ^ 24 / 2 ^ 1) with (2 ^ 23) in H3.
    rewrite H3. change (2 ^ 23) with (Zpos 8388608).
    subst e''. destruct (Z.leb_spec (E + 1) (128 - 24)); [|lia].
    exists 8388608%positive, (E + 1). split; [reflexivity|].
    split; [cbn; lia|]. right. change (Z.pos 8388608) with (2 ^ 23).
    split; [reflexivity|]. split; [reflexivity | lia].
  - assert (Hm1 : 2 ^ 23 <= m1 < 2 ^ 24) by lia.
    destruct m1 as [|p|p] eqn:Hp; try (cbn in Hm1; lia).
    assert (Hd : Zdigits2 (Zpos p) = 24).
    { cbn [Zdigits2]. apply digits2_unique. exact Hm1. }
    rewrite Hd, fexp_normal in H3, H4 by lia.
    replace (Z.max 0 (24 + E - 24 - E)) with 0 in H3, H4 by lia.
    rewrite Z.div_1_r in H3. rewrite H3. subst e''. rewrite Z.add_0_r.
    destruct (Z.leb_spec E (128 - 24)); [|lia].
    exists p, E. split; [reflexivity|]. split; [exact Hm1|]. left.
    split; [reflexivity | lia].
Qed.

#[local] Open Scope R_scope.

Lemma powerRZ_2_pos e : 0 < powerRZ 2 e.
Proof. apply powerRZ_lt. lra. Qed.

Lemma powerRZ_2_IZR n : (0 <= n)%Z -> powerRZ 2 n = IZR (2 ^ n).
Proof.
  intros Hn. destruct n as [|p|p]; [reflexivity| |lia].
  cbn [powerRZ]. rewrite pow_IZR. f_equal.
  rewrite positive_nat_Z. reflexivity.
Qed.

Lemma powerRZ_2_add a b : powerRZ 2 (a + b) = powerRZ 2 a * powerRZ 2 b.
Proof. apply powerRZ_add. lra. Qed.

(** Rounding [v], known to lie between [mx] and [mx + 1] units of
    [2 ^ ex], gives a normal number within one part in 2^23 of [v]. *)
Lemma binary_round_aux_value sx mx ex lx (v : R) :
  (0 < mx)%Z -> (24 <= Zdigits2 mx)%Z ->
  (-125 <= Zdigits2 mx + ex <= 127)%Z ->
  IZR mx * powerRZ 2 ex <= v < (IZR mx + 1) * powerRZ 2 ex ->
  exists m e,
    binary_round_aux 24 128 sx mx ex lx = S754_finite sx m e /\
    (2 ^ 23 <= Zpos m < 2 ^ 24)%Z /\
    (e = ex + (Zdigits2 mx - 24) \/ e = ex + (Zdigits2 mx - 24) + 1)%Z /\
    v * (1 - ulp24) <= IZR (Zpos m) * powerRZ 2 e <= v * (1 + ulp24).
Proof.
  intros Hmx HD Hrange Hv.
  destruct (binary_round_aux_normal sx mx ex lx Hmx HD Hrange)
    as (HF & m & e & Hres & Hm & Hcases).
  set (n := (Zdigits2 mx - 24)%Z) in *.
  set (F := (mx / 2 ^ n)%Z) in *.
  assert (Hn : (0 <= n)%Z) by (subst n; lia).
  assert (Hpow : (0 < 2 ^ n)%Z) by (apply Z.pow_pos_nonneg; lia).
  assert (HFlo : (F * 2 ^ n <= mx)%Z).
  { subst F. rewrite Z.mul_comm. apply Z.mul_div_le. lia. }
  assert (HFhi : (mx + 1 <= (F + 1) * 2 ^ n)%Z).
  { subst F. pose proof (Z.div_mod mx (2 ^ n) ltac:(lia)).
    pose proof (Z.mod_pos_bound mx (2 ^ n) ltac:(lia)). nia. }
  apply IZR_le in HFlo, HFhi. rewrite mult_IZR in HFlo.
  rewrite plus_IZR in HFhi. rewrite mult_IZR, plus_IZR in HFhi.
  destruct HF as [HF1 HF2]. apply IZR_le in HF1. apply IZR_lt in HF2.
  change (IZR (2 ^ 23)) with 8388608 in HF1.
  change (IZR (2 ^ 24)) with 16777216 in HF2.
  pose proof (powerRZ_2_pos ex) as Hu.
  assert (Hp : 1 <= IZR (2 ^ n)) by (apply IZR_le; lia).
  set (f := IZR F) in *. set (p := IZR (2 ^ n)) in *.
  set (u := powerRZ 2 ex) in *. set (x := IZR mx) in *.
  assert (HU : powerRZ 2 (ex + n) = u * p).
  { rewrite powerRZ_2_add, (powerRZ_2_IZR n) by exact Hn. reflexivity. }
  assert (Hlo : f * (u * p) <= v) by nra.
  assert (Hhi : v <= (f + 1) * (u * p)) by nra.
  assert (Hup : 0 < u * p) by nra.
  exists m, e. split; [exact Hres|]. split; [exact Hm|].
  unfold ulp24.
  destruct Hcases as [(-> & Hm1 & Hm2)|(-> & Hm1 & Hm2)].
  - split; [left; reflexivity|]. rewrite HU.
    apply IZR_le in Hm1, Hm2. rewrite plus_IZR in Hm2. fold f in Hm1, Hm2.
    set (mr := IZR (Z.pos m)) in *.
    split; nra.
  - split; [right; reflexivity|].
    rewrite powerRZ_2_add, HU. change (powerRZ 2 1) with (2 * 1).
    rewrite Hm1. change (IZR (2 ^ 23)) with 8388608.
    apply (f_equal IZR) in Hm2. rewrite plus_IZR in Hm2. fold f in Hm2.
    change (IZR (2 ^ 24)) with 16777216 in Hm2. change (IZR 1) with 1 in Hm2.
    split; nra.
Qed.

#[local] Close Scope R_scope.

Lemma iter_xO_value k : forall m,
  Zpos (Pos.iter xO m k) = Zpos m * 2 ^ Zpos k.
Proof.
  induction k as [|k IH] using Pos.peano_ind; intros m.
  - cbn. lia.
  - rewrite Pos.iter_succ, Pos2Z.inj_xO, IH, Pos2Z.inj_succ, Z.pow_succ_r by lia.
    lia.
Qed.

(** A mantissa of exactly 24 bits in the normal range is left as it is. *)
Lemma binary_round_aux_exact sx m ex :
  2 ^ 23 <= Zpos m < 2 ^ 24 -> -149 <= ex <= 104 ->
  binary_round_aux 24 128 sx (Zpos m) ex loc_Exact = S754_finite sx m ex.
Proof.
  intros Hm He.
  assert (Hd : Zpos (digits2_pos m) = 24) by (apply digits2_unique; exact Hm).
  unfold binary_round_aux, shr_fexp. cbn [Zdigits2]. rewrite Hd.
  rewrite fexp_normal by lia.
  replace (24 + ex - 24 - ex) with 0 by lia.
  cbn [shr shr_record_of_loc shr_m loc_of_shr_record round_nearest_even Zdigits2].
  rewrite Hd, fexp_normal by lia.
  replace (24 + ex - 24 - ex) with 0 by lia.
  cbn [shr shr_record_of_loc shr_m].
  destruct (Z.leb_spec ex (128 - 24)); [reflexivity | lia].
Qed.

(** The mantissa and exponent [binary_round] hands to the rounding of an
    integer [m]: at least 24 bits, same value. *)
Lemma shl_align_int m :
  let d := Zpos (digits2_pos m) in
  exists mz ez,
    shl_align m 0 (fexp 24 128 (d + 0)) = (mz, ez) /\
    ez = Z.min 0 (d - 24) /\
    Zpos mz = Zpos m * 2 ^ (- ez) /\
    Zpos (digits2_pos mz) = Z.max 24 d.
Proof.
  intros d. pose proof (digits2_bounds m) as Hb. fold d in Hb.
  assert (Hd : 1 <= d) by (subst d; lia).
  rewrite fexp_normal by lia. unfold shl_align.
  replace (d + 0 - 24 - 0) with (d - 24) by lia.
  destruct (d - 24) as [|p|p] eqn:Hp.
  - exists m, 0. split; [reflexivity|]. split; [lia|]. split; [cbn; lia|].
    fold d. lia.
  - exists m, 0. split; [reflexivity|]. split; [lia|]. split; [cbn; lia|].
    fold d. lia.
  - exists (Pos.iter xO m p), (d + 0 - 24).
    split; [reflexivity|]. split; [lia|].
    rewrite iter_xO_value.
    replace (- (d + 0 - 24)) with (Z.pos p) by lia.
    split; [reflexivity|].
    replace (Z.max 24 d) with 24 by lia.
    apply digits2_unique. rewrite iter_xO_value.
    replace (Z.pos p) with (24 - d) by lia.
    destruct Hb as [Hlo Hhi].
    assert (H1 : 2 ^ (24 - 1) = 2 ^ (d - 1) * 2 ^ (24 - d)).
    { rewrite <- Z.pow_add_r by lia. f_equal. lia. }
    assert (H2 : 2 ^ 24 = 2 ^ d * 2 ^ (24 - d)).
    { rewrite <- Z.pow_add_r by lia. f_equal. lia. }
    assert (H3 : 0 < 2 ^ (24 - d)) by (apply Z.pow_pos_nonneg; lia).
    rewrite H1, H2. split; nia.
Qed.

(** An integer of at most 32 bits converts to a normal number within one
    part in 2^23 of it, and to itself below 2^24. *)
Lemma binary_round_int s m :
  Zpos m < 2 ^ 32 ->
  exists m' e,
    binary_round 24 128 s m 0 = S754_finite s m' e /\
    2 ^ 23 <= Zpos m' < 2 ^ 24 /\
    -23 <= e <= 9 /\
    (IZR (Zpos m) * (1 - ulp24) <= IZR (Zpos m') * powerRZ 2 e
     <= IZR (Zpos m) * (1 + ulp24))%R /\
    (Zpos m < 2 ^ 24 -> e <= 0 /\ Zpos m' = Zpos m * 2 ^ (- e)).
Proof.
  intros Hm. unfold binary_round.
  destruct (shl_align_int m) as (mz & ez & Hal & Hez & Hmz & Hdz).
  cbv zeta in Hal, Hez, Hdz. rewrite Hal.
  pose proof (digits2_bounds m) as [Hlo Hhi].
  set (d := Z.pos (digits2_pos m)) in *.
  assert (Hd : 1 <= d <= 32).
  { split; [subst d; lia|].
    destruct (Z.le_gt_cases d 32) as [H|H]; [exact H|].
    pose proof (Z.pow_le_mono_r 2 32 (d - 1) ltac:(lia) ltac:(lia)). lia. }
  assert (Hval : (IZR (Zpos mz) * powerRZ 2 ez = IZR (Zpos m))%R).
  { rewrite Hmz, mult_IZR, <- (powerRZ_2_IZR (- ez)) by lia.
    rewrite Rmult_assoc, <- powerRZ_2_add.
    replace (- ez + ez) with 0 by lia. cbn. lra. }
  destruct (binary_round_aux_value s (Zpos mz) ez loc_Exact (IZR (Zpos m)))
    as (m' & e & Hres & Hm' & He & Hv).
  - lia.
  - cbn [Zdigits2]. lia.
  - cbn [Zdigits2]. lia.
  - rewrite <- Hval. pose proof (powerRZ_2_pos ez). nra.
  - exists m', e. split; [exact Hres|]. split; [exact Hm'|].
    cbn [Zdigits2] in He. split; [lia|]. split; [exact Hv|].
    intros Hsmall.
    assert (Hd24 : d <= 24).
    { destruct (Z.le_gt_cases d 24) as [H|H]; [exact H|].
      pose proof (Z.pow_le_mono_r 2 24 (d - 1) ltac:(lia) ltac:(lia)). lia. }
    assert (Hmz24 : 2 ^ 23 <= Zpos mz < 2 ^ 24).
    { pose proof (digits2_bounds mz) as Hb. rewrite Hdz in Hb.
      replace (Z.max 24 d) with 24 in Hb by lia. exact Hb. }
    rewrite binary_round_aux_exact in Hres by (try exact Hmz24; lia).
    inversion Hres; subst m' e. split; [lia | exact Hmz].
Qed.

Lemma abs_pos_case z :
  z <> 0 ->
  exists m, Zpos m = Z.abs z /\
    float_of_int z = binary_round 24 128 (z <? 0) m 0.
Proof.
  intros Hz. destruct z as [|p|p]; [contradiction|exists p|exists p]; auto.
Qed.

(** [float_of_int] of a non-zero [int] (or [uint32_t]): a normal number
    with the integer's sign, within one part in 2^23 of it. *)
Lemma float_of_int_value z :
  z <> 0 -> Z.abs z < 2 ^ 32 ->
  exists m e,
    float_of_int z = S754_finite (z <? 0) m e /\
    2 ^ 23 <= Zpos m < 2 ^ 24 /\
    -23 <= e <= 9 /\
    (IZR (Z.abs z) * (1 - ulp24) <= IZR (Zpos m) * powerRZ 2 e
     <= IZR (Z.abs z) * (1 + ulp24))%R /\
    (Z.abs z < 2 ^ 24 -> e <= 0 /\ Zpos m = Z.abs z * 2 ^ (- e)).
Proof.
  intros Hz Hsmall. destruct (abs_pos_case z Hz) as (p & Hp & ->).
  rewrite <- Hp in *. apply binary_round_int. exact Hsmall.
Qed.

Lemma div_eucl_div a b : Z.div_eucl a b = (a / b, a mod b).
Proof. unfold Z.div, Z.modulo. destruct (Z.div_eucl a b). reflexivity. Qed.

(** The quotient of two normal numbers, when its exponent stays in the
    normal range: a normal number [r] whose product with the divisor is
    within one part in 2^23 of the dividend. *)
Lemma float_div_value sx mx ex sy my ey :
  2 ^ 23 <= Zpos mx < 2 ^ 24 -> 2 ^ 23 <= Zpos my < 2 ^ 24 ->
  -125 <= ex - ey <= 126 ->
  exists m e,
    float_div (S754_finite sx mx ex) (S754_finite sy my ey)
    = S754_finite (xorb sx sy) m e /\
    2 ^ 23 <= Zpos m < 2 ^ 24 /\
    ex - ey - 24 <= e <= ex - ey - 22 /\
    (IZR (Zpos mx) * powerRZ 2 ex * (1 - ulp24)
     <= IZR (Zpos m) * powerRZ 2 e * (IZR (Zpos my) * powerRZ 2 ey)
     <= IZR (Zpos mx) * powerRZ 2 ex * (1 + ulp24))%R.
Proof.
  intros Hmx Hmy He. unfold float_div, SFdiv, SFdiv_core_binary.
  cbn [Zdigits2].
  rewrite (digits2_unique mx 24 Hmx), (digits2_unique my 24 Hmy).
  replace (24 + ex - (24 + ey)) with (ex - ey) by lia.
  rewrite fexp_normal by lia.
  replace (Z.min (ex - ey - 24) (ex - ey)) with (ex - ey - 24) by lia.
  replace (ex - ey - (ex - ey - 24)) with 24 by lia.
  cbv iota. rewrite Z.shiftl_mul_pow2 by lia.
  rewrite div_eucl_div.
  set (a := Z.pos mx * 2 ^ 24).
  set (q := a / Z.pos my). set (e' := ex - ey - 24).
  assert (Hq1 : q * Z.pos my <= a).
  { subst q. rewrite Z.mul_comm. apply Z.mul_div_le. lia. }
  assert (Hq2 : a < (q + 1) * Z.pos my).
  { subst q. pose proof (Z.div_mod a (Z.pos my) ltac:(lia)).
    pose proof (Z.mod_pos_bound a (Z.pos my) ltac:(lia)). nia. }
  assert (Hq : 2 ^ 23 <= q < 2 ^ 25).
  { subst q a. split.
    - apply Z.div_le_lower_bound; [lia|]. change (2 ^ 24) with 16777216 in *.
      change (2 ^ 23) with 8388608 in *. nia.
    - apply Z.div_lt_upper_bound; [lia|]. change (2 ^ 24) with 16777216 in *.
      change (2 ^ 23) with 8388608 in *. change (2 ^ 25) with 33554432. nia. }
  assert (Hdq : 24 <= Zdigits2 q <= 25).
  { destruct q as [|p|p]; try (cbn in Hq; lia). cbn [Zdigits2].
    pose proof (digits2_bounds p) as [Hlo Hhi].
    set (d := Z.pos (digits2_pos p)) in *.
    split.
    - destruct (Z.le_gt_cases 24 d) as [H|H]; [exact H|].
      pose proof (Z.pow_le_mono_r 2 d 23 ltac:(lia) ltac:(lia)). lia.
    - destruct (Z.le_gt_cases d 25) as [H|H]; [exact H|].
      pose proof (Z.pow_le_mono_r 2 25 (d - 1) ltac:(lia) ltac:(lia)). lia. }
  pose proof (powerRZ_2_pos e') as Hpe. pose proof (powerRZ_2_pos ey) as Hpy.
  set (t := (IZR a / IZR (Z.pos my))%R).
  assert (Hmyr : (0 < IZR (Z.pos my))%R) by (apply IZR_lt; lia).
  assert (Ht : (t * IZR (Z.pos my) = IZR a)%R).
  { subst t. field. lra. }
  apply IZR_le in Hq1. apply IZR_lt in Hq2.
  rewrite mult_IZR in Hq1. rewrite mult_IZR, plus_IZR in Hq2.
  destruct (binary_round_aux_value (xorb sx sy) q e' (new_location (Z.pos my) (a mod Z.pos my))
              (t * powerRZ 2 e')%R) as (m & e & Hres & Hm & Hex & Hv).
  - lia.
  - lia.
  - subst e'. lia.
  - split; [apply Rmult_le_compat_r; nra | apply Rmult_lt_compat_r; nra].
  - exists m, e. split; [exact Hres|]. split; [exact Hm|].
    split; [subst e'; lia|].
    assert (Hex' : powerRZ 2 ex = (powerRZ 2 e' * 16777216 * powerRZ 2 ey)%R).
    { replace ex with (e' + 24 + ey) by (subst e'; lia).
      rewrite !powerRZ_2_add, (powerRZ_2_IZR 24) by lia. reflexivity. }
    rewrite Hex'.
    assert (Ha : IZR a = (IZR (Z.pos mx) * 16777216)%R).
    { subst a. rewrite mult_IZR. reflexivity. }
    rewrite Ha in Ht.
    set (r := (IZR (Z.pos m) * powerRZ 2 e)%R) in *.
    set (pe := powerRZ 2 e') in *. set (py := powerRZ 2 ey) in *.
    set (xm := IZR (Z.pos mx)) in *. set (ym := IZR (Z.pos my)) in *.
    unfold ulp24 in *.
    assert (Hprod : (t * pe * (ym * py) = xm * (pe * 16777216 * py))%R) by nra.
    assert (Hpos : (0 < ym * py)%R) by nra.
    destruct Hv as [Hv1 Hv2].
    split.
    + apply Rmult_le_compat_r with (r := (ym * py)%R) in Hv1; [|lra]. nra.
    + apply Rmult_le_compat_r with (r := (ym * py)%R) in Hv2; [|lra]. nra.
Qed.

Lemma shiftl_value m e :
  0 <= Z.shiftl (Zpos m) e /\
  (IZR (Z.shiftl (Zpos m) e) <= IZR (Zpos m) * powerRZ 2 e)%R.
Proof.
  destruct (Z.le_gt_cases 0 e) as [He|He].
  - rewrite Z.shiftl_mul_pow2 by lia. split.
    + apply Z.mul_nonneg_nonneg; [lia|]. apply Z.pow_nonneg. lia.
    + rewrite mult_IZR, powerRZ_2_IZR by lia. lra.
  - rewrite Z.shiftl_div_pow2 by lia.
    assert (Hp : 0 < 2 ^ (- e)) by (apply Z.pow_pos_nonneg; lia).
    split; [apply Z.div_pos; lia|].
    pose proof (Z.mul_div_le (Zpos m) (2 ^ (- e)) Hp) as Hle.
    apply IZR_le in Hle. rewrite mult_IZR, <- powerRZ_2_IZR in Hle by lia.
    pose proof (powerRZ_2_pos e) as Hpe.
    pose proof (powerRZ_2_add (- e) e) as Hinv.
    replace (- e + e) with 0 in Hinv by lia. cbn [powerRZ] in Hinv.
    set (k := IZR (Z.pos m / 2 ^ (- e))) in *.
    set (u := powerRZ 2 e) in *. set (w := powerRZ 2 (- e)) in *.
    assert (Hk : (w * k * u <= IZR (Z.pos m) * u)%R).
    { apply Rmult_le_compat_r; lra. }
    replace k with (w * k * u)%R; [exact Hk|].
    rewrite (Rmult_comm w k), Rmult_assoc, <- Hinv. lra.
Qed.

(** A positive finite number whose value is at most the integer [bound]
    converts to an [int] between 0 and that value. *)
Lemma int_of_float_bounded m e bound :
  bound <= INT_MAX ->
  (IZR (Zpos m) * powerRZ 2 e <= IZR bound)%R ->
  exists c, int_of_float (S754_finite false m e) = Some c /\ 0 <= c <= bound.
Proof.
  intros Hb Hv. destruct (shiftl_value m e) as [H0 H1].
  assert (Hc : Z.shiftl (Zpos m) e <= bound).
  { apply le_IZR. lra. }
  exists (Z.shiftl (Zpos m) e). split; [|lia].
  unfold int_of_float.
  destruct (Z.leb_spec INT_MIN (Z.shiftl (Zpos m) e));
    [|unfold INT_MIN in *; lia].
  destruct (Z.leb_spec (Z.shiftl (Zpos m) e) INT_MAX); [reflexivity | lia].
Qed.

Lemma isnormal_finite s m e :
  2 ^ 23 <= Zpos m < 2 ^ 24 -> isnormal (S754_finite s m e) = true.
Proof.
  intros Hm. unfold isnormal, SFclassify.
  rewrite (digits2_unique m 24 Hm). destruct s; reflexivity.
Qed.

(** [mspc] of a non-zero elapsed time and a non-zero estimate is a normal
    number: the quotient neither underflows nor overflows. *)
Lemma ms_per_cycle_value dt lcc :
  dt <> 0 -> lcc <> 0 -> Z.abs dt < 2 ^ 32 -> Z.abs lcc < 2 ^ 32 ->
  exists m e,
    ms_per_cycle dt lcc = S754_finite (xorb (dt <? 0) (lcc <? 0)) m e /\
    2 ^ 23 <= Zpos m < 2 ^ 24 /\
    -56 <= e <= 10 /\
    (IZR (Z.abs dt) * (1 - ulp24) * (1 - ulp24)
     <= IZR (Zpos m) * powerRZ 2 e * (IZR (Z.abs lcc) * (1 + ulp24)))%R.
Proof.
  intros Hdt Hlcc Hdt' Hlcc'. unfold ms_per_cycle.
  destruct (float_of_int_value dt Hdt Hdt') as (mx & ex & -> & Hmx & Hex & Hvx & _).
  destruct (float_of_int_value lcc Hlcc Hlcc') as (my & ey & -> & Hmy & Hey & Hvy & _).
  destruct (float_div_value (dt <? 0) mx ex (lcc <? 0) my ey Hmx Hmy ltac:(lia))
    as (m & e & -> & Hm & He & Hv).
  exists m, e. split; [reflexivity|]. split; [exact Hm|]. split; [lia|].
  set (r := (IZR (Z.pos m) * powerRZ 2 e)%R) in *.
  set (vx := (IZR (Z.pos mx) * powerRZ 2 ex)%R) in *.
  set (vy := (IZR (Z.pos my) * powerRZ 2 ey)%R) in *.
  assert (Hr : (0 < r)%R).
  { subst r. apply Rmult_lt_0_compat; [apply IZR_lt; lia | apply powerRZ_2_pos]. }
  assert (Hd : (1 <= IZR (Z.abs dt))%R) by (apply IZR_le; lia).
  unfold ulp24 in *.
  assert (H1 : (IZR (Z.abs dt) * (1 - / 8388608) * (1 - / 8388608)
                <= vx * (1 - / 8388608))%R) by nra.
  assert (H2 : (r * vy <= r * (IZR (Z.abs lcc) * (1 + / 8388608)))%R).
  { apply Rmult_le_compat_l; lra. }
  lra.
Qed.

(** [1000.0f / TPS]: 16.666666. *)
Lemma frame_ms_value :
  float_div f1000 (float_of_int TPS) = S754_finite false 8738133 (-19).
Proof. reflexivity. Qed.

Lemma powerRZ_2_m19 : powerRZ 2 (-19) = (/ 524288)%R.
Proof.
  pose proof (powerRZ_2_add (-19) 19) as H.
  rewrite (powerRZ_2_IZR 19) in H by lia.
  change (IZR (2 ^ 19)) with 524288%R in H.
  change (powerRZ 2 (-19 + 19)) with 1%R in H. lra.
Qed.

(** The rescaled budget of a slow tick: with a positive estimate and at
    least 20 ms elapsed, [mspc] is normal and the new budget is an [int]
    between 0 and the previous estimate. *)
Lemma rescaled_budget_slow dt lcc base :
  20 <= dt <= INT_MAX -> 1 <= lcc <= INT_MAX ->
  isnormal (ms_per_cycle dt lcc) = true /\
  exists c, rescaled_budget (ms_per_cycle dt lcc) base = Some c /\ 0 <= c <= lcc.
Proof.
  intros Hdt Hlcc. unfold INT_MAX in *.
  destruct (ms_per_cycle_value dt lcc) as (m & e & HM & Hm & He & Hv); try lia.
  replace (dt <? 0) with false in HM by (symmetry; apply Z.ltb_ge; lia).
  replace (lcc <? 0) with false in HM by (symmetry; apply Z.ltb_ge; lia).
  cbn [xorb] in HM. unfold rescaled_budget. rewrite HM.
  rewrite (isnormal_finite false m e Hm). split; [reflexivity|].
  rewrite frame_ms_value.
  destruct (float_div_value false 8738133 (-19) false m e)
    as (mq & eq & -> & Hmq & Heq & Hq); try lia.
  cbn [xorb]. apply int_of_float_bounded; [unfold INT_MAX; lia|].
  rewrite powerRZ_2_m19 in Hq.
  rewrite !Z.abs_eq in Hv by lia.
  set (q := (IZR (Z.pos mq) * powerRZ 2 eq)%R) in *.
  set (vm := (IZR (Z.pos m) * powerRZ 2 e)%R) in *.
  assert (Hqpos : (0 < q)%R).
  { subst q. apply Rmult_lt_0_compat; [apply IZR_lt; lia | apply powerRZ_2_pos]. }
  assert (Hvmpos : (0 < vm)%R).
  { subst vm. apply Rmult_lt_0_compat; [apply IZR_lt; lia | apply powerRZ_2_pos]. }
  assert (Hd : (20 <= IZR dt)%R) by (apply IZR_le; lia).
  assert (Hl : (1 <= IZR lcc)%R) by (apply IZR_le; lia).
  unfold ulp24 in *. destruct Hq as [_ Hq].
  set (L := IZR lcc) in *. set (D := IZR dt) in *.
  assert (H1 : (q * (D * (1 - / 8388608) * (1 - / 8388608))
                <= q * (vm * (L * (1 + / 8388608))))%R).
  { apply Rmult_le_compat_l; lra. }
  assert (H2 : (q * vm * (L * (1 + / 8388608))
                <= IZR 8738133 * / 524288 * (1 + / 8388608)
                   * (L * (1 + / 8388608)))%R).
  { apply Rmult_le_compat_r; [nra | lra]. }
  assert (H3 : (q * (20 * (1 - / 8388608) * (1 - / 8388608))
                <= q * (D * (1 - / 8388608) * (1 - / 8388608)))%R).
  { apply Rmult_le_compat_l; [lra | nra]. }
  nra.
Qed.

(** An integer below 2^24 in magnitude goes to [float] and back intact. *)
Lemma int_of_float_of_int c :
  Z.abs c < 2 ^ 24 -> int_of_float (float_of_int c) = Some c.
Proof.
  intros Hc. destruct (Z.eq_dec c 0) as [->|Hnz]; [reflexivity|].
  destruct (float_of_int_value c Hnz ltac:(lia)) as (m & e & -> & Hm & He & _ & Hex).
  destruct (Hex Hc) as [He0 Hval].
  unfold int_of_float.
  assert (Hsh : Z.shiftl (Zpos m) e = Z.abs c).
  { rewrite Z.shiftl_div_pow2 by lia. rewrite Hval.
    apply Z.div_mul. apply Z.pow_nonzero; lia. }
  rewrite Hsh. unfold INT_MIN, INT_MAX.
  destruct (Z.ltb_spec c 0).
  - rewrite Z.abs_neq by lia. rewrite Z.opp_involutive.
    destruct (Z.leb_spec (- 2 ^ 31) c); [|lia].
    destruct (Z.leb_spec c (2 ^ 31 - 1)); [reflexivity | lia].
  - rewrite Z.abs_eq by lia.
    destruct (Z.leb_spec (- 2 ^ 31) c); [|lia].
    destruct (Z.leb_spec c (2 ^ 31 - 1)); [reflexivity | lia].
Qed.

(** With an estimate of 0 the quotient [mspc] is an infinity. *)
Lemma ms_per_cycle_zero_estimate dt :
  dt <> 0 -> Z.abs dt < 2 ^ 32 -> isnormal (ms_per_cycle dt 0) = false.
Proof.
  intros Hdt Hsmall. unfold ms_per_cycle.
  destruct (float_of_int_value dt Hdt Hsmall) as (m & e & -> & _).
  destruct (dt <? 0); reflexivity.
Qed.

(** ** The adaptive budget of a slow tick, and the estimate over a run *)

(** Out of the band and below the target: at least 20 ms elapsed, or a
    negative [dt]. *)
Lemma slow_dt dt :
  1 <= dt ->
  in_band (Z.quot 1000 dt) = false -> Z.quot 1000 dt < TPS -> 20 <= dt.
Proof.
  intros Hpos Hout Hslow.
  destruct (Z.le_gt_cases 20 dt) as [H|H]; [exact H|exfalso].
  destruct (Z.le_gt_cases 15 dt) as [H15|H15].
  - rewrite (proj2 (in_band_dt dt)) in Hout by lia. discriminate.
  - unfold TPS, FPS, TPF in Hslow. rewrite Z.quot_div_nonneg in Hslow by lia.
    pose proof (Z.div_mod 1000 dt ltac:(lia)).
    pose proof (Z.mod_pos_bound 1000 dt ltac:(lia)). nia.
Qed.

Lemma base_small hz dt :
  0 <= hz <= INT_MAX -> 20 <= dt -> 0 <= hz / 60 / dt < 2 ^ 24.
Proof.
  intros Hhz Hdt. unfold INT_MAX in Hhz. split.
  - apply Z.div_pos; [apply Z.div_pos|]; lia.
  - apply Z.div_lt_upper_bound; [lia|].
    apply Z.div_lt_upper_bound; lia.
Qed.

(** The budget of a slow tick, by what [isnormal(mspc)] answers. *)
Lemma cycle_budget_slow hz lcc dt :
  0 <= hz <= INT_MAX -> 20 <= dt <= INT_MAX ->
  cycle_budget hz true lcc dt =
    (c <- rescaled_budget (ms_per_cycle dt lcc) (hz / 60 / dt) ;;
     Some (c, CYCLE_AUTOADJUST_ADD, to_int (c + CYCLE_AUTOADJUST_ADD))).
Proof.
  intros Hhz Hdt. unfold cycle_budget.
  rewrite base_budget_pos by lia. cbn [obind fst snd].
  unfold autoadjust. rewrite measured_tps_defined by lia. cbn [obind].
  assert (Hq : Z.quot 1000 dt <= 50).
  { rewrite Z.quot_div_nonneg by lia.
    apply Z.lt_succ_r. apply Z.div_lt_upper_bound; lia. }
  assert (Hout : in_band (Z.quot 1000 dt) = false).
  { unfold in_band, TPS, FPS, TPF, CYCLE_AUTOADJUST_TOLERANCE.
    apply andb_false_iff. left. apply Z.ltb_ge. lia. }
  rewrite Hout.
  assert (Hslow : (Z.quot 1000 dt <? TPS) = true).
  { apply Z.ltb_lt. unfold TPS, FPS, TPF. lia. }
  rewrite Hslow.
  destruct (rescaled_budget _ _) as [c|]; reflexivity.
Qed.

(** C4, as amended. In adaptive mode, on a slow tick (measured rate below
    TPS and out of the band) with a non-negative estimate: the per-cycle
    cost [mspc] fails [isnormal] exactly when the previous estimate is 0
    (the quotient is then an infinity); in that case the budget of the tick
    is the fixed base budget FOX32_CPU_HZ / TPS / dt computed from the
    elapsed time, not the previous estimate, and the persisted estimate is
    that base budget plus 1000; otherwise the rescaled budget is an [int]
    between 0 and the previous estimate. Either way the budget is a
    defined [int]: no infinity or NaN reaches it. *)
Theorem slow_tick_budget_is_defined
  (hz last_cycle_count dt tps : Z)
  (Hhz : 0 <= hz <= INT_MAX) (Hdt : 1 <= dt <= INT_MAX)
  (Hestimate : 0 <= last_cycle_count <= INT_MAX)
  (Htps : measured_tps dt = Some tps)
  (Hout : in_band tps = false) (Hslow : tps < TPS) :
  (isnormal (ms_per_cycle dt last_cycle_count) = false
   <-> last_cycle_count = 0) /\
  (isnormal (ms_per_cycle dt last_cycle_count) = false ->
   cycle_budget hz true last_cycle_count dt =
     Some (hz / 60 / dt, CYCLE_AUTOADJUST_ADD,
           hz / 60 / dt + CYCLE_AUTOADJUST_ADD)) /\
  (isnormal (ms_per_cycle dt last_cycle_count) = true ->
   exists c,
     0 <= c <= last_cycle_count /\
     cycle_budget hz true last_cycle_count dt =
       Some (c, CYCLE_AUTOADJUST_ADD, to_int (c + CYCLE_AUTOADJUST_ADD))).
Proof.
  destruct (measured_tps_some _ _ Htps) as [Hnz ->].
  pose proof (slow_dt dt ltac:(lia) Hout Hslow) as H20.
  assert (Hzero : isnormal (ms_per_cycle dt 0) = false).
  { apply ms_per_cycle_zero_estimate; unfold INT_MAX in *; lia. }
  assert (Hiff : isnormal (ms_per_cycle dt last_cycle_count) = false
                 <-> last_cycle_count = 0).
  { split.
    - intros Hn. destruct (Z.eq_dec last_cycle_count 0) as [H0|H0]; [exact H0|].
      destruct (rescaled_budget_slow dt last_cycle_count 0) as [Hnorm _]; try lia.
      congruence.
    - intros ->. exact Hzero. }
  split; [exact Hiff|]. split.
  - intros Hn. rewrite cycle_budget_slow by lia.
    unfold rescaled_budget. rewrite Hn.
    pose proof (base_small hz dt Hhz H20) as Hb.
    rewrite int_of_float_of_int by lia. cbn [obind].
    rewrite to_int_id; [reflexivity|].
    unfold in_int, INT_MIN, INT_MAX, CYCLE_AUTOADJUST_ADD. lia.
  - intros Hn.
    assert (Hpos : last_cycle_count <> 0).
    { intros H0. apply Hiff in H0. congruence. }
    destruct (rescaled_budget_slow dt last_cycle_count (hz / 60 / dt))
      as [_ (c & Hc & Hrange)]; try lia.
    exists c. split; [exact Hrange|].
    rewrite cycle_budget_slow by lia. rewrite Hc. reflexivity.
Qed.

(** The theorem at 64 MHz, 20 ms elapsed, and the estimates 0 and 100000. *)
Lemma slow_tick_budget_is_defined_witness :
  cycle_budget 64000000 true 0 20 = Some (53333, 1000, 54333) /\
  exists c,
    0 <= c <= 100000 /\
    cycle_budget 64000000 true 100000 20
    = Some (c, CYCLE_AUTOADJUST_ADD, to_int (c + CYCLE_AUTOADJUST_ADD)).
Proof.
  split.
  - apply (proj1 (proj2 (slow_tick_budget_is_defined 64000000 0 20 50
             ltac:(unfold INT_MAX; lia) ltac:(unfold INT_MAX; lia)
             ltac:(unfold INT_MAX; lia) eq_refl eq_refl
             ltac:(unfold TPS, FPS, TPF; lia)))).
    reflexivity.
  - apply (proj2 (proj2 (slow_tick_budget_is_defined 64000000 100000 20 50
             ltac:(unfold INT_MAX; lia) ltac:(unfold INT_MAX; lia)
             ltac:(unfold INT_MAX; lia) eq_refl eq_refl
             ltac:(unfold TPS, FPS, TPF; lia)))).
    reflexivity.
Defined.

(** C4 as stated fails: at 20 ms with the estimate 0, [mspc] is not normal,
    and the budget of the tick is the base budget 53333, not the previous
    estimate 0. *)
Lemma non_normal_cost_keeps_base_budget :
  isnormal (ms_per_cycle 20 0) = false /\
  cycle_budget 64000000 true 0 20 = Some (53333, 1000, 54333) /\
  53333 <> 0.
Proof. split; [reflexivity|]. split; [reflexivity | discriminate]. Qed.

(** The budget of a fast tick (70 ticks per second or more measured): the
    base budget, with the margin added to its leftover. *)
Lemma cycle_budget_fast hz lcc dt :
  0 <= hz <= INT_MAX -> 1 <= dt <= 14 ->
  cycle_budget hz true lcc dt =
    Some (hz / 60 / dt,
          hz / 60 - hz / 60 / dt * dt + CYCLE_AUTOADJUST_ADD,
          hz / 60 / dt + (hz / 60 - hz / 60 / dt * dt + CYCLE_AUTOADJUST_ADD))
  /\ 0 <= hz / 60 / dt
  /\ 0 <= hz / 60 - hz / 60 / dt * dt
  /\ hz / 60 / dt + (hz / 60 - hz / 60 / dt * dt) <= hz / 60.
Proof.
  intros Hhz Hdt.
  assert (Hq : 0 <= hz / 60 <= 35791394).
  { unfold INT_MAX in Hhz. split; [apply Z.div_pos; lia|].
    apply Z.lt_succ_r. apply Z.div_lt_upper_bound; lia. }
  assert (Hc : 0 <= hz / 60 / dt) by (apply Z.div_pos; lia).
  assert (Hm : dt * (hz / 60 / dt) <= hz / 60) by (apply Z.mul_div_le; lia).
  assert (Hle : hz / 60 / dt <= hz / 60).
  { apply Z.div_le_upper_bound; nia. }
  split; [|repeat split; nia].
  unfold cycle_budget.
  rewrite base_budget_pos by (unfold INT_MAX in *; lia). cbn [obind fst snd].
  unfold autoadjust. rewrite measured_tps_defined by lia. cbn [obind].
  assert (Hfast : 71 <= Z.quot 1000 dt).
  { rewrite Z.quot_div_nonneg by lia. apply Z.div_le_lower_bound; lia. }
  assert (Hout : in_band (Z.quot 1000 dt) = false).
  { unfold in_band, TPS, FPS, TPF, CYCLE_AUTOADJUST_TOLERANCE.
    apply andb_false_iff. right. apply Z.ltb_ge. lia. }
  rewrite Hout.
  assert (Hslow : (Z.quot 1000 dt <? TPS) = false).
  { apply Z.ltb_ge. unfold TPS, FPS, TPF. lia. }
  rewrite Hslow. cbn [obind fst snd].
  unfold CYCLE_AUTOADJUST_ADD.
  rewrite (to_int_id (hz / 60 - hz / 60 / dt * dt + 1000))
    by (unfold in_int, INT_MIN, INT_MAX; nia).
  rewrite to_int_id by (unfold in_int, INT_MIN, INT_MAX; nia).
  reflexivity.
Qed.

(** One update of the estimate: positive before, and with room for the
    margin, it is positive after, and at most 1000 above the larger of the
    previous estimate and FOX32_CPU_HZ / TPS. *)
Lemma estimate_step hz lcc dt :
  0 <= hz <= INT_MAX -> 1 <= dt <= INT_MAX -> 0 < lcc ->
  Z.max lcc (hz / 60) + CYCLE_AUTOADJUST_ADD <= INT_MAX ->
  exists cpt extra lcc',
    cycle_budget hz true lcc dt = Some (cpt, extra, lcc') /\
    0 <= cpt /\ 0 < extra /\ lcc' = cpt + extra /\
    0 < lcc' <= Z.max lcc (hz / 60) + CYCLE_AUTOADJUST_ADD.
Proof.
  intros Hhz Hdt Hpos Hroom. unfold CYCLE_AUTOADJUST_ADD in *.
  destruct (Z.le_gt_cases dt 14) as [Hfast|Hnf].
  - destruct (cycle_budget_fast hz lcc dt Hhz ltac:(lia)) as (-> & H1 & H2 & H3).
    unfold CYCLE_AUTOADJUST_ADD. do 3 eexists. split; [reflexivity|]. lia.
  - destruct (Z.le_gt_cases dt 19) as [Hband|Hslow].
    + rewrite cycle_budget_in_band by lia. unfold CYCLE_AUTOADJUST_ADD.
      rewrite to_int_id by (unfold in_int, INT_MIN, INT_MAX in *; lia).
      do 3 eexists. split; [reflexivity|]. lia.
    + rewrite cycle_budget_slow by lia.
      destruct (rescaled_budget_slow dt lcc (hz / 60 / dt))
        as [_ (c & -> & Hc)]; try lia.
      cbn [obind]. unfold CYCLE_AUTOADJUST_ADD.
      rewrite to_int_id by (unfold in_int, INT_MIN, INT_MAX in *; lia).
      do 3 eexists. split; [reflexivity|]. lia.
Qed.

Lemma estimate_after_app hz l1 : forall l2 lcc,
  estimate_after hz (l1 ++ l2) lcc =
  (e <- estimate_after hz l1 lcc ;; estimate_after hz l2 e).
Proof.
  induction l1 as [|dt l1 IH]; intros l2 lcc; [reflexivity|].
  cbn [app estimate_after].
  destruct (cycle_budget hz true lcc (clamp_dt dt)) as [b|]; [|reflexivity].
  cbn [obind]. apply IH.
Qed.

Lemma estimate_after_bounded hz dts : forall lcc,
  0 <= hz <= INT_MAX -> 0 < lcc ->
  Forall (fun dt => 0 <= dt <= INT_MAX) dts ->
  Z.max lcc (hz / 60) + CYCLE_AUTOADJUST_ADD * Z.of_nat (List.length dts)
    <= INT_MAX ->
  exists lcc',
    estimate_after hz dts lcc = Some lcc' /\
    0 < lcc' <=
      Z.max lcc (hz / 60) + CYCLE_AUTOADJUST_ADD * Z.of_nat (List.length dts).
Proof.
  induction dts as [|dt dts IH]; intros lcc Hhz Hpos Hdts Hroom.
  - exists lcc. cbn. split; [reflexivity | lia].
  - inversion Hdts as [|? ? Hdt Hdts']; subst.
    cbn [List.length] in *. rewrite Nat2Z.inj_succ in *.
    unfold CYCLE_AUTOADJUST_ADD in *.
    assert (Hc : 1 <= clamp_dt dt <= INT_MAX).
    { unfold clamp_dt. destruct (Z.eqb_spec dt 0); unfold INT_MAX in *; lia. }
    destruct (estimate_step hz lcc (clamp_dt dt) Hhz Hc Hpos)
      as (cpt & extra & lcc' & Hb & _ & _ & _ & Hl);
      [unfold CYCLE_AUTOADJUST_ADD; lia|].
    unfold CYCLE_AUTOADJUST_ADD in Hl.
    cbn [estimate_after]. rewrite Hb. cbn [obind snd].
    destruct (IH lcc' Hhz ltac:(lia) Hdts' ltac:(lia)) as (e & He & Hrange).
    exists e. split; [exact He | lia].
Qed.

(** C9, as amended. The persisted estimate is positive at initialization,
    and it stays positive through every update of a run of ticks as long as
    each elapsed time fits an [int] (is below 2^31 ms) and the run is short
    enough for the margins to fit: with [n] ticks, the larger of the
    starting estimate and FOX32_CPU_HZ / TPS, plus 1000 * n, is at most
    INT_MAX. After each prefix of the run the estimate is defined, positive
    and within that bound. *)
Theorem estimate_positive_while_margins_fit
  (hz last_cycle_count : Z) (dts : list Z) (k : nat)
  (Hhz : 0 <= hz <= INT_MAX) (Hpos : 0 < last_cycle_count)
  (Hdts : Forall (fun dt => 0 <= dt <= INT_MAX) dts)
  (Hroom : Z.max last_cycle_count (hz / 60)
           + CYCLE_AUTOADJUST_ADD * Z.of_nat (List.length dts) <= INT_MAX) :
  0 < initial_cycle_count /\
  exists estimate,
    estimate_after hz (firstn k dts) last_cycle_count = Some estimate /\
    0 < estimate <=
      Z.max last_cycle_count (hz / 60)
      + CYCLE_AUTOADJUST_ADD * Z.of_nat (List.length dts).
Proof.
  split; [reflexivity|].
  pose proof (length_firstn k dts) as Hlen.
  assert (Hle : (List.length (firstn k dts) <= List.length dts)%nat) by lia.
  destruct (estimate_after_bounded hz (firstn k dts) last_cycle_count Hhz Hpos)
    as (e & He & Hrange).
  - rewrite <- (firstn_skipn k dts) in Hdts.
    apply Forall_app in Hdts. apply Hdts.
  - unfold CYCLE_AUTOADJUST_ADD in *. lia.
  - exists e. split; [exact He|]. unfold CYCLE_AUTOADJUST_ADD in *. lia.
Qed.

(** The theorem on three ticks at 64 MHz from the initial estimate: one in
    the band, one slow, one fast. *)
Lemma estimate_positive_while_margins_fit_witness :
  0 < initial_cycle_count /\
  exists estimate,
    estimate_after 64000000 (firstn 3 [16; 40; 5]) initial_cycle_count
    = Some estimate /\
    0 < estimate <=
      Z.max initial_cycle_count (64000000 / 60)
      + CYCLE_AUTOADJUST_ADD * Z.of_nat (List.length [16; 40; 5]).
Proof.
  apply (estimate_positive_while_margins_fit 64000000 initial_cycle_count
           [16; 40; 5] 3).
  - unfold INT_MAX. lia.
  - reflexivity.
  - repeat constructor; unfold INT_MAX; lia.
  - vm_compute. discriminate.
Defined.

(** The estimate over [n] ticks of 16 ms: 1000 more at each. *)
Lemma estimate_after_ramp hz n : forall lcc,
  0 <= hz <= INT_MAX -> INT_MIN <= lcc ->
  lcc + 1000 * Z.of_nat n <= INT_MAX ->
  estimate_after hz (repeat 16 n) lcc = Some (lcc + 1000 * Z.of_nat n).
Proof.
  induction n as [|n IH]; intros lcc Hhz Hlo Hhi.
  - cbn. f_equal. lia.
  - cbn [repeat estimate_after]. change (clamp_dt 16) with 16.
    rewrite cycle_budget_in_band by lia. cbn [obind snd].
    unfold CYCLE_AUTOADJUST_ADD.
    rewrite to_int_id by (unfold in_int; lia).
    rewrite IH by lia. f_equal. lia.
Qed.

(** C9 as stated fails. From the initial estimate 1, 2147484 ticks of 16 ms
    (each in the band) take the estimate past INT_MAX: the [int] wraps to a
    negative value. And one elapsed time of 2^32 - 1 ms, which reads as
    [dt = -1], makes the rescaled budget and the estimate negative at
    once. *)
Lemma estimate_turns_negative :
  estimate_after 64000000 (repeat 16 (Z.to_nat 2147484)) initial_cycle_count
  = Some (-2147483295) /\
  elapsed_dt (2 ^ 32 - 1) 0 = -1 /\
  cycle_budget 64000000 true 100000 (clamp_dt (-1))
  = Some (-1666666, 1000, -1665666).
Proof.
  split; [|split; reflexivity].
  replace (Z.to_nat 2147484) with (Z.to_nat 2147483 + 1)%nat by lia.
  rewrite repeat_app, estimate_after_app.
  rewrite estimate_after_ramp;
    [|unfold INT_MAX; lia | unfold INT_MIN, initial_cycle_count; lia
     |unfold INT_MAX, initial_cycle_count; lia].
  rewrite Z2Nat.id by lia.
  cbn [obind repeat estimate_after]. change (clamp_dt 16) with 16.
  rewrite cycle_budget_in_band by (unfold INT_MAX; lia).
  reflexivity.
Qed.

(** ** More on the adaptive budget: both signs of the estimate *)

Lemma int_of_float_bounded_neg m e bound :
  bound <= 2 ^ 31 ->
  (IZR (Zpos m) * powerRZ 2 e <= IZR bound)%R ->
  exists c, int_of_float (S754_finite true m e) = Some c /\ - bound <= c <= 0.
Proof.
  intros Hb Hv. destruct (shiftl_value m e) as [H0 H1].
  assert (Hc : Z.shiftl (Zpos m) e <= bound).
  { apply le_IZR. lra. }
  exists (- Z.shiftl (Zpos m) e). split; [|lia].
  unfold int_of_float.
  destruct (Z.leb_spec INT_MIN (- Z.shiftl (Zpos m) e));
    [|unfold INT_MIN in *; lia].
  destruct (Z.leb_spec (- Z.shiftl (Zpos m) e) INT_MAX);
    [reflexivity | unfold INT_MAX in *; lia].
Qed.

#[local] Open Scope R_scope.

Lemma rescaled_quotient_bound dt lcc m e :
  (20 <= dt)%Z -> (lcc <> 0)%Z ->
  (2 ^ 23 <= Zpos m < 2 ^ 24)%Z -> (-56 <= e <= 10)%Z ->
  IZR (Z.abs dt) * (1 - ulp24) * (1 - ulp24)
     <= IZR (Zpos m) * powerRZ 2 e * (IZR (Z.abs lcc) * (1 + ulp24)) ->
  forall s, exists mq eq,
    float_div (S754_finite false 8738133 (-19)) (S754_finite s m e)
    = S754_finite s mq eq /\
    IZR (Zpos mq) * powerRZ 2 eq <= IZR (Z.abs lcc).
Proof.
  intros Hdt Hlcc Hm He Hv s.
  destruct (float_div_value false 8738133 (-19) s m e)
    as (mq & eq & -> & Hmq & Heq & Hq); try lia.
  exists mq, eq. split; [reflexivity|].
  rewrite powerRZ_2_m19 in Hq.
  rewrite (Z.abs_eq dt) in Hv by lia.
  set (q := (IZR (Z.pos mq) * powerRZ 2 eq)%R) in *.
  set (vm := (IZR (Z.pos m) * powerRZ 2 e)%R) in *.
  assert (Hqpos : (0 < q)%R).
  { subst q. apply Rmult_lt_0_compat; [apply IZR_lt; lia | apply powerRZ_2_pos]. }
  assert (Hvmpos : (0 < vm)%R).
  { subst vm. apply Rmult_lt_0_compat; [apply IZR_lt; lia | apply powerRZ_2_pos]. }
  assert (Hd : (20 <= IZR dt)%R) by (apply IZR_le; lia).
  assert (Hl : (1 <= IZR (Z.abs lcc))%R) by (apply IZR_le; lia).
  unfold ulp24 in *. destruct Hq as [_ Hq].
  set (L := IZR (Z.abs lcc)) in *. set (D := IZR dt) in *.
  assert (H1 : (q * (D * (1 - / 8388608) * (1 - / 8388608))
                <= q * (vm * (L * (1 + / 8388608))))%R).
  { apply Rmult_le_compat_l; lra. }
  assert (H2 : (q * vm * (L * (1 + / 8388608))
                <= IZR 8738133 * / 524288 * (1 + / 8388608)
                   * (L * (1 + / 8388608)))%R).
  { apply Rmult_le_compat_r; [nra | lra]. }
  assert (H3 : (q * (20 * (1 - / 8388608) * (1 - / 8388608))
                <= q * (D * (1 - / 8388608) * (1 - / 8388608)))%R).
  { apply Rmult_le_compat_l; [lra | nra]. }
  nra.
Qed.

#[local] Close Scope R_scope.

Lemma rescaled_budget_slow_signed dt lcc base :
  20 <= dt <= INT_MAX -> lcc <> 0 -> INT_MIN <= lcc <= INT_MAX ->
  exists c,
    rescaled_budget (ms_per_cycle dt lcc) base = Some c /\
    Z.abs c <= Z.abs lcc /\ 0 <= c * lcc.
Proof.
  intros Hdt Hnz Hlcc. unfold INT_MAX, INT_MIN in *.
  destruct (ms_per_cycle_value dt lcc) as (m & e & HM & Hm & He & Hv); try lia.
  replace (dt <? 0) with false in HM by (symmetry; apply Z.ltb_ge; lia).
  cbn [xorb] in HM. unfold rescaled_budget. rewrite HM.
  rewrite (isnormal_finite _ m e Hm). rewrite frame_ms_value.
  destruct (rescaled_quotient_bound dt lcc m e ltac:(lia) Hnz Hm He Hv (lcc <? 0))
    as (mq & eq & -> & Hq).
  destruct (Z.ltb_spec lcc 0).
  - destruct (int_of_float_bounded_neg mq eq (Z.abs lcc) ltac:(lia) Hq)
      as (c & -> & Hc).
    exists c. split; [reflexivity|]. split; [lia | nia].
  - destruct (int_of_float_bounded mq eq (Z.abs lcc) ltac:(unfold INT_MAX; lia) Hq)
      as (c & -> & Hc).
    exists c. split; [reflexivity|]. split; [lia | nia].
Qed.

(** The budget of the CYCLE_AUTOADJUST block for a positive elapsed time:
    it is defined, and the sum that line 186 takes stays below the larger
    of the previous estimate and the tick budget by at most the margin. *)
Lemma cycle_budget_adaptive_defined (hz last_cycle_count dt : Z)
  (Hhz : 0 <= hz <= INT_MAX) (Hdt : 1 <= dt <= INT_MAX)
  (Hestimate : INT_MIN <= last_cycle_count <= INT_MAX) :
  exists c e estimate,
    cycle_budget hz true last_cycle_count dt = Some (c, e, estimate) /\
    INT_MIN <= c <= INT_MAX /\
    CYCLE_AUTOADJUST_ADD <= e < dt + CYCLE_AUTOADJUST_ADD /\
    c + e <= Z.max last_cycle_count (hz / 60) + CYCLE_AUTOADJUST_ADD /\
    estimate = to_int (c + e).
Proof.
  assert (Hq : 0 <= hz / 60 < 35791395).
  { split; [apply Z.div_pos; lia|].
    apply Z.div_lt_upper_bound; unfold INT_MAX in *; lia. }
  destruct (Z_le_gt_dec dt 14) as [Hfast|Hnf].
  - destruct (cycle_budget_fast hz last_cycle_count dt Hhz ltac:(lia))
      as (-> & Hc & He & Hle).
    do 3 eexists. split; [reflexivity|].
    pose proof (Z.mod_pos_bound (hz / 60) dt ltac:(lia)) as Hm.
    rewrite Z.mod_eq in Hm by lia.
    unfold INT_MIN, INT_MAX, CYCLE_AUTOADJUST_ADD in *.
    split; [nia|]. split; [nia|]. split; [lia|].
    symmetry. apply to_int_id. unfold in_int, INT_MIN, INT_MAX. nia.
  - destruct (Z_le_gt_dec dt 19) as [Hband|Hslow].
    + rewrite cycle_budget_in_band by lia.
      do 3 eexists. split; [reflexivity|].
      unfold CYCLE_AUTOADJUST_ADD. repeat split; lia.
    + rewrite cycle_budget_slow by lia.
      destruct (Z.eq_dec last_cycle_count 0) as [->|Hnz].
      * unfold rescaled_budget.
        rewrite ms_per_cycle_zero_estimate by (unfold INT_MAX in *; lia).
        pose proof (base_small hz dt Hhz ltac:(lia)) as Hb.
        rewrite int_of_float_of_int by lia. cbn [obind].
        do 3 eexists. split; [reflexivity|].
        assert (Hcq : hz / 60 / dt <= hz / 60).
        { apply Z.div_le_upper_bound; nia. }
        unfold INT_MIN, INT_MAX, CYCLE_AUTOADJUST_ADD in *. repeat split; lia.
      * destruct (rescaled_budget_slow_signed dt last_cycle_count (hz / 60 / dt))
          as (c & -> & Hc & Hs); try lia.
        cbn [obind]. do 3 eexists. split; [reflexivity|].
        unfold INT_MIN, INT_MAX, CYCLE_AUTOADJUST_ADD in *.
        repeat split; try lia; nia.
Qed.

(** ** The slices of a tick: budget, execution, clock shadow *)

Lemma slice_plan_shape cpt extra dt :
  1 <= dt <= INT_MAX ->
  slice_plan cpt extra dt =
    repeat cpt (Z.to_nat (dt - 1)) ++ [to_int (cpt + extra)].
Proof.
  intros Hdt. unfold slice_plan, slice_indices.
  replace (Z.to_nat dt) with (Z.to_nat (dt - 1) + 1)%nat by lia.
  rewrite seq_app, !map_app. cbn [seq map]. f_equal.
  - assert (H : forall k n, (k + n <= Z.to_nat (dt - 1))%nat ->
        map (slice_cycles cpt extra dt) (map Z.of_nat (seq k n)) = repeat cpt n).
    { intros k n. revert k. induction n as [|n IH]; intros k Hk; [reflexivity|].
      cbn [seq map repeat]. rewrite IH by lia. f_equal.
      unfold slice_cycles. rewrite to_int_id by (unfold in_int, INT_MIN, INT_MAX in *; lia).
      destruct (Z.eqb_spec (Z.of_nat k) (dt - 1)); [lia | reflexivity]. }
    apply H. lia.
  - unfold slice_cycles. rewrite to_int_id by (unfold in_int, INT_MIN, INT_MAX in *; lia).
    rewrite Nat.add_0_l, Z2Nat.id by lia. now rewrite Z.eqb_refl.
Qed.

Lemma zsum_repeat c n : zsum (repeat c n) = c * Z.of_nat n.
Proof.
  induction n as [|n IH]; [cbn; lia|].
  cbn [repeat zsum fold_right]. fold (zsum (repeat c n)). rewrite IH. lia.
Qed.

(** The fixed budget of a tick of [dt] milliseconds and its slices. *)
Lemma base_budget_slices hz dt :
  0 <= hz <= INT_MAX -> 1 <= dt <= INT_MAX ->
  exists c e,
    base_budget hz dt = Some (c, e) /\
    0 <= c /\ 0 <= e < dt /\
    slice_plan c e dt = repeat c (Z.to_nat (dt - 1)) ++ [c + e] /\
    zsum (slice_plan c e dt) = Z.quot hz TPS.
Proof.
  intros Hhz Hdt.
  exists (hz / 60 / dt), (hz / 60 - hz / 60 / dt * dt).
  assert (Hq : 0 <= hz / 60 <= INT_MAX).
  { split; [apply Z.div_pos; lia|].
    apply Z.le_trans with hz; [|lia]. apply Z.div_le_upper_bound; lia. }
  assert (Hc : 0 <= hz / 60 / dt <= hz / 60).
  { split; [apply Z.div_pos; lia|]. apply Z.div_le_upper_bound; nia. }
  pose proof (Z.mod_pos_bound (hz / 60) dt ltac:(lia)) as Hm.
  rewrite Z.mod_eq in Hm by lia.
  replace (dt * (hz / 60 / dt)) with (hz / 60 / dt * dt) in Hm by ring.
  split; [apply base_budget_pos; assumption|].
  split; [lia|]. split; [lia|].
  assert (Hsum : to_int (hz / 60 / dt + (hz / 60 - hz / 60 / dt * dt))
                 = hz / 60 / dt + (hz / 60 - hz / 60 / dt * dt)).
  { apply to_int_id. unfold in_int, INT_MIN, INT_MAX in *. nia. }
  rewrite slice_plan_shape by assumption. rewrite Hsum.
  split; [reflexivity|].
  rewrite zsum_app, zsum_repeat. cbn [zsum fold_right].
  rewrite Z2Nat.id by lia. rewrite TPS_value.
  rewrite Z.quot_div_nonneg by lia. nia.
Qed.

Section SliceExact.

Context {P : Platform}.
Variable b : build.

Lemma existsb_unrecoverable_app t1 t2 :
  existsb unrecoverable (t1 ++ t2)
  = existsb unrecoverable t1 || existsb unrecoverable t2.
Proof. apply existsb_app. Qed.

Lemma run_slice_exact :
  resume_within_budget ->
  forall fuel i n err s r,
    n <= INT_MAX ->
    snd (run_slice fuel i n err s) = Done r ->
    existsb unrecoverable (fst (run_slice fuel i n err s)) = false ->
    executed_total (fst (run_slice fuel i n err s)) = Z.max 0 n.
Proof.
  intros Hwb. induction fuel as [|fuel IH]; intros i n err s r Hn Hdone Hok.
  - destruct (Z.ltb_spec 0 n).
    + rewrite run_slice_no_fuel in Hdone by assumption. discriminate.
    + rewrite run_slice_idle by assumption. cbn. lia.
  - rewrite run_slice_unfold in *.
    destruct (Z.ltb_spec 0 n) as [Hpos|Hpos]; [|cbn; lia].
    assert (Hu : to_uint32 n = n) by (apply to_uint32_count; lia).
    rewrite Hu in *. clear Hu.
    pose proof (Hwb (vm s) (host s) n ltac:(lia)) as Hx.
    destruct (fox32_resume _ _ n) as [[e x] m]. cbn [fst snd] in Hx.
    assert (Hafter : cycles_after n x = n - x)
      by (apply cycles_after_exact; lia).
    rewrite Hafter in *.
    destruct (Z.eqb_spec e FOX32_ERR_OK) as [He|He].
    + cbn [fst snd] in *. rewrite executed_total_cons. cbn [executed_of].
      cbn [existsb unrecoverable orb] in Hok.
      assert (Hle : n - x <= INT_MAX) by lia.
      rewrite (IH _ _ _ _ r Hle Hdone Hok). lia.
    + cbn zeta in *. destruct (fox32_recover _ _ e) as [e' m'].
      set (msgs := if debug (vm (set_machine m s))
                   then [EvPuts i (fox32_strerr e)] else []) in *.
      assert (Hmsgs : Forall (fun m => exists msg, m = EvPuts i msg) msgs).
      { subst msgs. destruct (debug _); repeat constructor. eauto. }
      destruct (Z.eqb_spec e' FOX32_ERR_OK) as [He'|He'].
      * cbn [fst snd] in *. rewrite executed_total_cons. cbn [executed_of].
        rewrite (executed_total_puts i msgs _ Hmsgs).
        rewrite executed_total_cons. cbn [executed_of].
        cbn [existsb] in Hok.
        rewrite (existsb_unrecoverable_puts i msgs _ Hmsgs) in Hok.
        cbn [existsb unrecoverable orb] in Hok.
        apply orb_false_elim in Hok. destruct Hok as [_ Hok].
        assert (Hle : n - x <= INT_MAX) by lia.
      rewrite (IH _ _ _ _ r Hle Hdone Hok). lia.
      * exfalso. cbn [fst] in Hok. cbn [existsb] in Hok.
        rewrite (existsb_unrecoverable_puts i msgs _ Hmsgs) in Hok.
        cbn [existsb unrecoverable orb] in Hok.
        destruct (Z.eqb_spec e' FOX32_ERR_OK); [contradiction | discriminate].
Qed.

Lemma run_slices_exact fuel cpt extra dt :
  resume_within_budget -> cpt <= INT_MAX ->
  forall slices err s r,
    snd (run_slices b fuel cpt extra dt slices err s) = Done r ->
    existsb unrecoverable (fst (run_slices b fuel cpt extra dt slices err s))
      = false ->
    executed_total (fst (run_slices b fuel cpt extra dt slices err s))
    = zsum (map (fun i => Z.max 0 (slice_cycles cpt extra dt i)) slices).
Proof.
  intros Hwb Hc. induction slices as [|i rest IH]; intros err s r Hdone Hok.
  - reflexivity.
  - destruct (run_slices_cons b fuel cpt extra dt i rest err s)
      as (up & tm & s1 & _ & Heq).
    rewrite Heq in *. clear Heq.
    pose proof (run_slice_exact Hwb fuel i (slice_cycles cpt extra dt i) err s1)
      as Hex.
    destruct (run_slice fuel i _ err s1) as [t [r1| |]];
      cbn [fst snd] in *; try discriminate.
    cbn [existsb unrecoverable orb] in Hok.
    rewrite existsb_unrecoverable_app in Hok.
    apply orb_false_elim in Hok. destruct Hok as [Hok1 Hok2].
    rewrite executed_total_cons, executed_total_app. cbn [executed_of map].
    rewrite (Hex r1 (slice_cycles_le_max _ _ _ _ Hc) eq_refl Hok1).
    rewrite (IH _ _ r Hdone Hok2). reflexivity.
Qed.

End SliceExact.

Section TickExtras.

Context {P : Platform}.
Variable b : build.

Lemma run_slices_uptime_range fuel cpt extra dt :
  adaptive b = false ->
  forall slices err s e' s',
    0 <= rtc_uptime s < 2 ^ 32 ->
    snd (run_slices b fuel cpt extra dt slices err s) = Done (e', s') ->
    0 <= rtc_uptime s' < 2 ^ 32.
Proof.
  intros Hb. induction slices as [|i rest IH]; intros err s e' s' Hr H.
  - cbn in H. inversion H; subst. exact Hr.
  - destruct (run_slices_cons b fuel cpt extra dt i rest err s)
      as (up & tm & s1 & Hadv & Heq).
    rewrite Heq in H. clear Heq.
    destruct (advance_rtc_spec b i s) as (up' & tm' & s1' & Hadv' & _ & _ & Hup).
    rewrite Hadv in Hadv'. inversion Hadv'; subst up' tm' s1'. clear Hadv'.
    pose proof (run_slice_frame fuel i (slice_cycles cpt extra dt i) err s1) as Hf.
    destruct (run_slice fuel i _ err s1) as [t [[e1 s2]| |]];
      cbn [fst snd] in *; try discriminate.
    destruct (Hf e1 s2 eq_refl) as (_ & _ & Hup2 & _).
    apply (IH e1 s2 e' s'); [|exact H].
    rewrite Hup2, (Hup Hb). unfold to_uint32. apply Z.mod_pos_bound. lia.
Qed.

(** main_loop, by the state it leaves: [s0] is the state in which the [for]
    loop starts, [s1] the one in which it ends. *)
Lemma main_loop_state fuel s s' :
  snd (main_loop b fuel s) = Done s' ->
  exists cpt extra est s0 e1 s1,
    tick_budget b s = Some (cpt, extra, est) /\
    rtc_uptime s0 = rtc_uptime s /\ rtc_time s0 = rtc_time s /\
    run_slices b fuel cpt extra (tick_dt s) (slice_indices (tick_dt s))
      FOX32_ERR_OK s0
    = (fst (run_slices b fuel cpt extra (tick_dt s) (slice_indices (tick_dt s))
              FOX32_ERR_OK s0), Done (e1, s1)) /\
    fst (main_loop b fuel s)
    = cancel_events b s
        ++ fst (run_slices b fuel cpt extra (tick_dt s)
                  (slice_indices (tick_dt s)) FOX32_ERR_OK s0)
        ++ dispatch_events (headless (vm s1))
        ++ [EvProcessEvents (done s')] /\
    rtc_uptime s' = rtc_uptime s1 /\ rtc_time s' = rtc_time s1 /\
    tick_start s' = fst (SDL_GetTicks (snd (SDL_GetTicks (host s)))) /\
    tick_end s' = tick_end s /\
    last_cycle_count s' = est /\
    ticks s' = to_int (ticks s + 1).
Proof.
  unfold tick_budget, tick_dt, main_loop, cancel_events.
  set (pre := if emscripten b && _ then _ else _).
  assert (Hpre : forall (A : Type) (k : unit -> run A),
             bind pre k =
             ((if emscripten b && (done s || bus_requests_exit (host s))
               then [EvCancelMainLoop] else []) ++ fst (k tt), snd (k tt))).
  { intros A k. subst pre. destruct (emscripten b && _).
    - apply bind_emit.
    - rewrite bind_ret_l. destruct (k tt); reflexivity. }
  rewrite Hpre. clear Hpre pre.
  destruct (SDL_GetTicks (host s)) as [now h1]. cbn [fst snd].
  destruct (SDL_GetTicks h1) as [now' h2]. cbn [fst snd].
  change (last_cycle_count (set_tick_start now' (set_host h2 s)))
    with (last_cycle_count s).
  destruct (cycle_budget _ _ _ _) as [[[cpt extra] est]|];
    [|cbn; discriminate].
  set (s0 := set_last_cycle_count est (set_tick_start now' (set_host h2 s))).
  intros H. exists cpt, extra, est, s0.
  pose proof (run_slices_done b fuel cpt extra
                (clamp_dt (elapsed_dt now (tick_start s)))
                (slice_indices (clamp_dt (elapsed_dt now (tick_start s))))
                FOX32_ERR_OK s0) as Hdone.
  destruct (run_slices b fuel cpt extra _ _ FOX32_ERR_OK s0) as [t [[e1 s1]| |]];
    cbn [fst snd bind] in *; try discriminate.
  exists e1, s1.
  destruct (Hdone e1 s1 eq_refl) as (_ & Hg & _ & _).
  destruct (interrupt_dispatch_spec s1) as (s1' & Hd & _ & Hg' & _).
  assert (Hrtc : rtc_uptime s1' = rtc_uptime s1 /\ rtc_time s1' = rtc_time s1).
  { revert Hd. unfold interrupt_dispatch.
    destruct (Z.rem (ticks s1) TPF =? 0); [|intros Hd; inversion Hd; auto].
    destruct (negb (headless (vm s1))).
    - rewrite bind_emit. cbn [fst snd ret bind app]. rewrite bind_emit.
      cbn [fst snd ret app]. intros Hd. inversion Hd. cbn. auto.
    - rewrite bind_ret_l, bind_emit. cbn [fst snd ret app].
      intros Hd. inversion Hd. cbn. auto. }
  rewrite Hd in H |- *. cbn [bind] in H |- *.
  destruct (ScreenProcessEvents (host s1')) as [quit h3].
  rewrite bind_emit in H |- *. cbn [ret fst snd] in H |- *.
  inversion H; subst s'. clear H.
  destruct Hg as (Hg1 & Hg2 & Hg3 & _ & Hg5).
  destruct Hg' as (Hg1' & Hg2' & Hg3' & _ & Hg5').
  destruct Hrtc as [Hr1 Hr2].
  cbn. repeat split; try congruence.
  - rewrite Hg1', Hg1. reflexivity.
  - rewrite Hg2', Hg2. reflexivity.
  - rewrite Hg5', Hg5. reflexivity.
  - rewrite Hg3', Hg3. reflexivity.
Qed.

End TickExtras.

Section TickTheorems.

Context {P : Platform}.
Variable b : build.

(** X9. In the build without CYCLE_AUTOADJUST, an iteration of main_loop
    that ends has advanced [rtc_uptime] by the clamped elapsed time of the
    tick, modulo 2^32: one millisecond per slice, none when the elapsed
    time reads negative. *)
Theorem uptime_advances_by_elapsed_ms (fuel : nat) (s s' : state)
  (Hfixed : adaptive b = false)
  (Hrange : 0 <= rtc_uptime s < 2 ^ 32)
  (Hdone : snd (main_loop b fuel s) = Done s') :
  rtc_uptime s' = to_uint32 (rtc_uptime s + Z.max 0 (tick_dt s)).
Proof.
  destruct (main_loop_state b fuel s s' Hdone)
    as (cpt & extra & est & s0 & e1 & s1 & _ & Hu0 & _ & Hrun & _ & Hu1 & _).
  assert (Hsnd : snd (run_slices b fuel cpt extra (tick_dt s)
                        (slice_indices (tick_dt s)) FOX32_ERR_OK s0)
                 = Done (e1, s1)) by (rewrite Hrun; reflexivity).
  destruct (run_slices_done b fuel cpt extra _ _ _ _ _ _ Hsnd)
    as (_ & _ & _ & Hup).
  specialize (Hup Hfixed).
  pose proof (run_slices_uptime_range b fuel cpt extra (tick_dt s) Hfixed
                _ _ s0 e1 s1 ltac:(rewrite Hu0; exact Hrange) Hsnd) as Hr.
  rewrite Hu1. rewrite <- (to_uint32_id (rtc_uptime s1)) by exact Hr.
  rewrite Hup, Hu0. f_equal. f_equal.
  unfold slice_indices. rewrite length_map, length_seq. lia.
Qed.

(** X8. With a core that never reports more cycles than it was asked
    for, an iteration that ends and in which no recovery gave a fault back
    has executed exactly the cycles of its slices; in the build without
    CYCLE_AUTOADJUST that is FOX32_CPU_HZ / TPS cycles, whatever the
    (positive) elapsed time. *)
Theorem fault_free_tick_executes_whole_budget
  (fuel : nat) (s s' : state) (cpt extra est : Z)
  (Hwithin : resume_within_budget)
  (Hbudget : tick_budget b s = Some (cpt, extra, est))
  (Hcpt : cpt <= INT_MAX)
  (Hdone : snd (main_loop b fuel s) = Done s')
  (Hclean : existsb unrecoverable (fst (main_loop b fuel s)) = false) :
  executed_total (fst (main_loop b fuel s))
    = zsum (map (Z.max 0) (slice_plan cpt extra (tick_dt s))) /\
  (adaptive b = false -> 0 <= FOX32_CPU_HZ <= INT_MAX -> 0 < tick_dt s ->
   executed_total (fst (main_loop b fuel s)) = Z.quot FOX32_CPU_HZ TPS).
Proof.
  destruct (main_loop_state b fuel s s' Hdone)
    as (cpt' & extra' & est' & s0 & e1 & s1 & Hb' & _ & _ & Hrun & Hev & _).
  rewrite Hbudget in Hb'. inversion Hb'; subst cpt' extra' est'. clear Hb'.
  assert (Hsnd : snd (run_slices b fuel cpt extra (tick_dt s)
                        (slice_indices (tick_dt s)) FOX32_ERR_OK s0)
                 = Done (e1, s1)) by (rewrite Hrun; reflexivity).
  rewrite Hev in Hclean |- *.
  rewrite !existsb_app in Hclean.
  apply orb_false_elim in Hclean. destruct Hclean as [_ Hclean].
  apply orb_false_elim in Hclean. destruct Hclean as [Hclean _].
  rewrite !executed_total_app.
  rewrite (executed_total_other (cancel_events b s))
    by apply cancel_events_other.
  rewrite (executed_total_other (dispatch_events _))
    by apply dispatch_events_other.
  change (executed_total [EvProcessEvents (done s')]) with 0.
  rewrite (run_slices_exact b fuel cpt extra (tick_dt s) Hwithin Hcpt
             _ _ _ _ Hsnd Hclean).
  assert (Hsum : zsum (map (fun i => Z.max 0 (slice_cycles cpt extra (tick_dt s) i))
                         (slice_indices (tick_dt s)))
                 = zsum (map (Z.max 0) (slice_plan cpt extra (tick_dt s)))).
  { unfold slice_plan. rewrite map_map. reflexivity. }
  rewrite Hsum. split; [lia|].
  intros Hfixed Hhz Hdt.
  unfold tick_budget in Hbudget. rewrite Hfixed in Hbudget.
  unfold cycle_budget in Hbudget.
  assert (Hdt' : 1 <= tick_dt s <= INT_MAX).
  { split; [lia|]. unfold tick_dt, clamp_dt, elapsed_dt.
    destruct (_ =? 0); [unfold INT_MAX; lia | apply to_int_range]. }
  destruct (base_budget_slices FOX32_CPU_HZ (tick_dt s) Hhz Hdt')
    as (c & e & Hbb & Hc & He & Hshape & Htot).
  rewrite Hbb in Hbudget. cbn in Hbudget. inversion Hbudget; subst c e.
  rewrite <- Htot. rewrite Z.add_0_l, Z.add_0_r. f_equal.
  rewrite Hshape, map_app. cbn [map]. rewrite Z.max_r by lia.
  f_equal. rewrite <- (map_id (repeat _ _)) at 2.
  apply map_ext_in. intros a Ha. apply repeat_spec in Ha. subst a. lia.
Qed.

End TickTheorems.

(** ** The budget, by elapsed time *)

(** X1. The elapsed time main_loop takes from two readings of the 32-bit
    millisecond counter is the true elapsed time [d] as long as [d] is
    below 2^31, also when the counter wrapped around in between; from 2^31
    on it reads as the negative number [d - 2^32]. *)
Theorem elapsed_dt_wraparound (tick_start d : Z)
  (Hstart : 0 <= tick_start < 2 ^ 32) (Hd : 0 <= d < 2 ^ 32) :
  elapsed_dt (to_uint32 (tick_start + d)) tick_start =
    if d <? 2 ^ 31 then d else d - 2 ^ 32.
Proof.
  unfold elapsed_dt, to_uint32, to_int.
  rewrite Zminus_mod_idemp_l.
  replace (tick_start + d - tick_start) with d by ring.
  rewrite (Z.mod_small d) by lia.
  destruct (Z.ltb_spec d (2 ^ 31)).
  - rewrite Z.mod_small by lia. lia.
  - replace (d + 2 ^ 31) with (d - 2 ^ 31 + 1 * 2 ^ 32) by lia.
    rewrite Z.mod_add by lia. rewrite Z.mod_small by lia. lia.
Qed.

Lemma slice_indices_length dt : List.length (slice_indices dt) = Z.to_nat dt.
Proof. unfold slice_indices. now rewrite length_map, length_seq. Qed.

(** X2. For a clock rate that fits an [int] and a tick of [dt] >= 1
    milliseconds, the fixed budget gives every slice but the last
    [cycles_per_tick] cycles and the last one [cycles_per_tick +
    extra_cycles], with [0 <= extra_cycles < dt]; the slices add up to
    FOX32_CPU_HZ / TPS, whatever [dt] is. *)
Theorem slice_budgets_sum_to_tick_budget (hz dt : Z)
  (Hhz : 0 <= hz <= INT_MAX) (Hdt : 1 <= dt <= INT_MAX) :
  exists c e,
    base_budget hz dt = Some (c, e) /\
    0 <= c /\ 0 <= e < dt /\
    slice_plan c e dt = repeat c (Z.to_nat (dt - 1)) ++ [c + e] /\
    zsum (slice_plan c e dt) = Z.quot hz TPS.
Proof.
  exact (base_budget_slices hz dt Hhz Hdt).
Qed.

Lemma slice_budgets_sum_to_tick_budget_witness :
  exists c e,
    base_budget 64000000 7 = Some (c, e) /\
    0 <= c /\ 0 <= e < 7 /\
    slice_plan c e 7 = repeat c (Z.to_nat (7 - 1)) ++ [c + e] /\
    zsum (slice_plan c e 7) = Z.quot 64000000 TPS.
Proof.
  apply (slice_budgets_sum_to_tick_budget 64000000 7); unfold INT_MAX; lia.
Defined.

(** X3. The three branches of the CYCLE_AUTOADJUST block by the elapsed
    time: the measured rate 1000 / dt is in the band exactly for 15..19 ms,
    below it (the rescaling branch) exactly from 20 ms on, and above it
    (neither branch) exactly up to 14 ms. *)
Theorem adaptive_regime_by_elapsed_ms (dt : Z) (Hdt : 1 <= dt <= INT_MAX) :
  exists tps,
    measured_tps dt = Some tps /\
    0 <= tps <= 1000 /\
    (in_band tps = true <-> 15 <= dt <= 19) /\
    (in_band tps = false /\ (tps <? TPS) = true <-> 20 <= dt) /\
    (in_band tps = false /\ (tps <? TPS) = false <-> dt <= 14).
Proof.
  exists (Z.quot 1000 dt).
  split; [apply measured_tps_defined; lia|].
  pose proof (in_band_dt dt) as Hband.
  rewrite Z.quot_div_nonneg in * by lia.
  assert (Hq : 0 <= 1000 / dt <= 1000).
  { split; [apply Z.div_pos; lia|]. apply Z.div_le_upper_bound; nia. }
  split; [exact Hq|]. split; [exact Hband|].
  rewrite TPS_value.
  assert (Hlt : 1000 / dt < 60 <-> 17 <= dt).
  { split; intros H.
    - destruct (Z_lt_le_dec dt 17) as [Hs|]; [|assumption]. exfalso.
      assert (60 <= 1000 / dt); [|lia]. apply Z.div_le_lower_bound; lia.
    - apply Z.div_lt_upper_bound; lia. }
  destruct (in_band (1000 / dt)) eqn:Hb.
  - assert (15 <= dt <= 19) by now apply Hband.
    split; split; intros HH; first [ lia | destruct HH; discriminate ].
  - assert (Hn : ~ 15 <= dt <= 19) by (intros H; apply Hband in H; discriminate).
    destruct (Z.ltb_spec (1000 / dt) 60) as [Hs|Hs];
      (split; split; intros HH;
       first [ lia | split; reflexivity | destruct HH; discriminate ]).
Qed.

Lemma adaptive_regime_by_elapsed_ms_witness :
  exists tps,
    measured_tps 16 = Some tps /\
    0 <= tps <= 1000 /\
    (in_band tps = true <-> 15 <= 16 <= 19) /\
    (in_band tps = false /\ (tps <? TPS) = true <-> 20 <= 16) /\
    (in_band tps = false /\ (tps <? TPS) = false <-> 16 <= 14).
Proof. apply (adaptive_regime_by_elapsed_ms 16). unfold INT_MAX. lia. Defined.

(** X4. On a tick of at most 14 ms the CYCLE_AUTOADJUST block keeps the
    fixed budget, adds CYCLE_AUTOADJUST_ADD to its leftover, and persists
    [cycles_per_tick + extra_cycles] whatever the previous estimate was;
    the slices of the tick then add up to FOX32_CPU_HZ / TPS + 1000. *)
Theorem fast_tick_resets_estimate (hz last_cycle_count dt : Z)
  (Hhz : 0 <= hz <= INT_MAX) (Hdt : 1 <= dt <= 14) :
  exists c e,
    base_budget hz dt = Some (c, e) /\
    cycle_budget hz true last_cycle_count dt =
      Some (c, e + CYCLE_AUTOADJUST_ADD, c + e + CYCLE_AUTOADJUST_ADD) /\
    zsum (slice_plan c (e + CYCLE_AUTOADJUST_ADD) dt)
      = Z.quot hz TPS + CYCLE_AUTOADJUST_ADD.
Proof.
  destruct (cycle_budget_fast hz last_cycle_count dt Hhz Hdt)
    as (Hcb & Hc & He & Hle).
  exists (hz / 60 / dt), (hz / 60 - hz / 60 / dt * dt).
  assert (Hq : 0 <= hz / 60 <= INT_MAX).
  { split; [apply Z.div_pos; lia|].
    apply Z.le_trans with hz; [|lia]. apply Z.div_le_upper_bound; lia. }
  split; [apply base_budget_pos; unfold INT_MAX in *; lia|].
  split; [rewrite Hcb, Z.add_assoc; reflexivity|].
  rewrite slice_plan_shape by (unfold INT_MAX; lia).
  rewrite zsum_app, zsum_repeat. cbn [zsum fold_right].
  assert (Hhz60 : hz / 60 < 35791395).
  { apply Z.div_lt_upper_bound; unfold INT_MAX in *; lia. }
  rewrite to_int_id
    by (unfold in_int, INT_MIN, INT_MAX, CYCLE_AUTOADJUST_ADD in *; lia).
  rewrite Z2Nat.id by lia. rewrite TPS_value.
  rewrite Z.quot_div_nonneg by lia. unfold CYCLE_AUTOADJUST_ADD. nia.
Qed.

Lemma fast_tick_resets_estimate_witness :
  exists c e,
    base_budget 64000000 8 = Some (c, e) /\
    cycle_budget 64000000 true 5 8 =
      Some (c, e + CYCLE_AUTOADJUST_ADD, c + e + CYCLE_AUTOADJUST_ADD) /\
    zsum (slice_plan c (e + CYCLE_AUTOADJUST_ADD) 8)
      = Z.quot 64000000 TPS + CYCLE_AUTOADJUST_ADD.
Proof.
  apply (fast_tick_resets_estimate 64000000 5 8); unfold INT_MAX; lia.
Defined.

(** ** The rescaled budget of a slow tick, in numbers *)

Lemma shiftl_value_lower m e :
  (IZR (Zpos m) * powerRZ 2 e < IZR (Z.shiftl (Zpos m) e) + 1)%R.
Proof.
  destruct (Z.le_gt_cases 0 e) as [He|He].
  - rewrite Z.shiftl_mul_pow2 by lia.
    rewrite mult_IZR, powerRZ_2_IZR by lia. lra.
  - rewrite Z.shiftl_div_pow2 by lia.
    assert (Hp : 0 < 2 ^ (- e)) by (apply Z.pow_pos_nonneg; lia).
    pose proof (Z.mod_pos_bound (Zpos m) (2 ^ (- e)) Hp) as Hmod.
    pose proof (Z.div_mod (Zpos m) (2 ^ (- e)) ltac:(lia)) as Hdm.
    assert (Hlt : Zpos m < (Zpos m / 2 ^ (- e) + 1) * 2 ^ (- e)) by nia.
    apply IZR_lt in Hlt.
    rewrite mult_IZR, plus_IZR, <- powerRZ_2_IZR in Hlt by lia.
    pose proof (powerRZ_2_pos e) as Hpe.
    pose proof (powerRZ_2_add (- e) e) as Hinv.
    replace (- e + e) with 0 in Hinv by lia. cbn [powerRZ] in Hinv.
    set (k := IZR (Z.pos m / 2 ^ (- e))) in *.
    set (u := powerRZ 2 e) in *. set (w := powerRZ 2 (- e)) in *.
    assert (Hk : (IZR (Z.pos m) * u < (k + 1) * w * u)%R).
    { apply Rmult_lt_compat_r; lra. }
    replace ((k + 1) * w * u)%R with (k + 1)%R in Hk; [exact Hk|].
    rewrite Rmult_assoc, <- Hinv. lra.
Qed.

(** [mspc] of a positive elapsed time and a positive estimate, with the
    error of its three roundings on both sides. *)
Lemma ms_per_cycle_bounds dt lcc :
  1 <= dt < 2 ^ 32 -> 1 <= lcc < 2 ^ 32 ->
  exists m e,
    ms_per_cycle dt lcc = S754_finite false m e /\
    2 ^ 23 <= Zpos m < 2 ^ 24 /\
    -56 <= e <= 10 /\
    (IZR dt * (1 - ulp24) * (1 - ulp24)
     <= IZR (Zpos m) * powerRZ 2 e * (IZR lcc * (1 + ulp24)))%R /\
    (IZR (Zpos m) * powerRZ 2 e * (IZR lcc * (1 - ulp24))
     <= IZR dt * (1 + ulp24) * (1 + ulp24))%R.
Proof.
  intros Hdt Hlcc. unfold ms_per_cycle.
  destruct (float_of_int_value dt ltac:(lia) ltac:(lia))
    as (mx & ex & -> & Hmx & Hex & Hvx & _).
  destruct (float_of_int_value lcc ltac:(lia) ltac:(lia))
    as (my & ey & -> & Hmy & Hey & Hvy & _).
  replace (dt <? 0) with false by (symmetry; apply Z.ltb_ge; lia).
  replace (lcc <? 0) with false by (symmetry; apply Z.ltb_ge; lia).
  rewrite !Z.abs_eq in * by lia.
  destruct (float_div_value false mx ex false my ey Hmx Hmy ltac:(lia))
    as (m & e & -> & Hm & He & Hv).
  exists m, e. split; [reflexivity|]. split; [exact Hm|]. split; [lia|].
  set (r := (IZR (Z.pos m) * powerRZ 2 e)%R) in *.
  set (vx := (IZR (Z.pos mx) * powerRZ 2 ex)%R) in *.
  set (vy := (IZR (Z.pos my) * powerRZ 2 ey)%R) in *.
  assert (Hr : (0 < r)%R).
  { subst r. apply Rmult_lt_0_compat; [apply IZR_lt; lia | apply powerRZ_2_pos]. }
  assert (Hd : (1 <= IZR dt)%R) by (apply IZR_le; lia).
  assert (Hl : (1 <= IZR lcc)%R) by (apply IZR_le; lia).
  unfold ulp24 in *. split.
  - assert (H1 : (IZR dt * (1 - / 8388608) * (1 - / 8388608)
                  <= vx * (1 - / 8388608))%R) by nra.
    assert (H2 : (r * vy <= r * (IZR lcc * (1 + / 8388608)))%R).
    { apply Rmult_le_compat_l; lra. }
    lra.
  - assert (H1 : (vx * (1 + / 8388608)
                  <= IZR dt * (1 + / 8388608) * (1 + / 8388608))%R) by nra.
    assert (H2 : (r * (IZR lcc * (1 - / 8388608)) <= r * vy)%R).
    { apply Rmult_le_compat_l; lra. }
    lra.
Qed.

#[local] Open Scope R_scope.

(** The real-number core of the rescaling: from the rounding errors of the
    two quotients to the bounds on [(1000/60) * lcc / dt]. *)
Lemma rescale_real_bounds (D L r q : R) :
  20 <= D -> 1 <= L -> 0 < r -> 0 < q ->
  D * (1 - ulp24) * (1 - ulp24) <= r * (L * (1 + ulp24)) ->
  r * (L * (1 - ulp24)) <= D * (1 + ulp24) * (1 + ulp24) ->
  IZR 8738133 * / 524288 * (1 - ulp24) <= q * r
    <= IZR 8738133 * / 524288 * (1 + ulp24) ->
  3 * D * q <= 50 * L * (1 + 5 * ulp24) /\
  50 * L * (1 - 5 * ulp24) <= 3 * D * q.
Proof.
  unfold ulp24. intros HD HL Hr Hq H1 H2 [H3 H4].
  set (u := / 8388608) in *.
  assert (Hu : u = / 8388608) by reflexivity.
  assert (Hu0 : 0 < u < / 1000000) by (rewrite Hu; lra).
  set (F := IZR 8738133 * / 524288) in *.
  assert (HF : 3 * F <= 50 /\ 50 * (1 - u / 2) <= 3 * F).
  { subst F. rewrite Hu. lra. }
  split.
  - (* q D (1-u)^2 <= q r L (1+u) <= F L (1+u)^2 *)
    assert (A1 : q * (D * (1 - u) * (1 - u)) <= q * (r * (L * (1 + u)))).
    { apply Rmult_le_compat_l; lra. }
    assert (A2 : q * r * (L * (1 + u)) <= F * (1 + u) * (L * (1 + u))).
    { apply Rmult_le_compat_r; [nra | lra]. }
    assert (A3 : 3 * (q * D) * ((1 - u) * (1 - u))
                 <= 50 * L * ((1 + u) * (1 + u))) by nra.
    assert (A4 : (1 + u) * (1 + u) <= (1 + 5 * u) * ((1 - u) * (1 - u))) by nra.
    assert (A5 : 50 * L * ((1 + u) * (1 + u))
                 <= 50 * L * ((1 + 5 * u) * ((1 - u) * (1 - u)))).
    { apply Rmult_le_compat_l; lra. }
    assert (Hpos : 0 < (1 - u) * (1 - u)) by nra.
    assert (A6 : (3 * D * q) * ((1 - u) * (1 - u))
                 <= (50 * L * (1 + 5 * u)) * ((1 - u) * (1 - u))) by lra.
    apply Rmult_le_reg_r in A6; assumption.
  - assert (B1 : q * (r * (L * (1 - u))) <= q * (D * (1 + u) * (1 + u))).
    { apply Rmult_le_compat_l; lra. }
    assert (B2 : F * (1 - u) * (L * (1 - u)) <= q * r * (L * (1 - u))).
    { apply Rmult_le_compat_r; [nra | lra]. }
    assert (B3 : 3 * F * L * ((1 - u) * (1 - u))
                 <= 3 * (q * D) * ((1 + u) * (1 + u))) by nra.
    assert (B4 : (1 - 5 * u) * ((1 + u) * (1 + u))
                 <= (1 - u / 2) * ((1 - u) * (1 - u))) by nra.
    assert (B5 : 50 * (1 - u / 2) * L * ((1 - u) * (1 - u))
                 <= 3 * F * L * ((1 - u) * (1 - u))).
    { apply Rmult_le_compat_r; [nra|]. apply Rmult_le_compat_r; lra. }
    assert (B6 : 50 * L * ((1 - 5 * u) * ((1 + u) * (1 + u)))
                 <= 50 * L * ((1 - u / 2) * ((1 - u) * (1 - u)))).
    { apply Rmult_le_compat_l; lra. }
    assert (Hpos : 0 < (1 + u) * (1 + u)) by nra.
    assert (B7 : (50 * L * (1 - 5 * u)) * ((1 + u) * (1 + u))
                 <= (3 * D * q) * ((1 + u) * (1 + u))) by lra.
    apply Rmult_le_reg_r in B7; assumption.
Qed.

#[local] Close Scope R_scope.

(** X5. On a slow tick (at least 20 ms) with a positive estimate, the
    rescaled per-millisecond budget [c] is the previous estimate times
    (1000 / 60) / dt, truncated, to within 5 units in the last place of a
    [float]: 3 dt c <= 50 lcc (1 + 5 ulp) and 50 lcc (1 - 5 ulp) <
    3 dt (c + 1). *)
Theorem slow_tick_rescales_estimate (hz last_cycle_count dt : Z)
  (Hhz : 0 <= hz <= INT_MAX) (Hdt : 20 <= dt <= INT_MAX)
  (Hestimate : 1 <= last_cycle_count <= INT_MAX) :
  exists c,
    cycle_budget hz true last_cycle_count dt =
      Some (c, CYCLE_AUTOADJUST_ADD, to_int (c + CYCLE_AUTOADJUST_ADD)) /\
    (3 * IZR dt * IZR c <= 50 * IZR last_cycle_count * (1 + 5 * ulp24))%R /\
    (50 * IZR last_cycle_count * (1 - 5 * ulp24) < 3 * IZR dt * (IZR c + 1))%R.
Proof.
  rewrite cycle_budget_slow by assumption.
  unfold INT_MAX in *.
  destruct (ms_per_cycle_bounds dt last_cycle_count ltac:(lia) ltac:(lia))
    as (m & e & HM & Hm & He & Hlo & Hhi).
  unfold rescaled_budget. rewrite HM, (isnormal_finite false m e Hm).
  rewrite frame_ms_value.
  destruct (float_div_value false 8738133 (-19) false m e)
    as (mq & eq & -> & Hmq & Heq & Hq); try lia.
  cbn [xorb]. rewrite powerRZ_2_m19 in Hq.
  set (q := (IZR (Z.pos mq) * powerRZ 2 eq)%R) in *.
  set (r := (IZR (Z.pos m) * powerRZ 2 e)%R) in *.
  assert (Hqpos : (0 < q)%R).
  { subst q. apply Rmult_lt_0_compat; [apply IZR_lt; lia | apply powerRZ_2_pos]. }
  assert (Hrpos : (0 < r)%R).
  { subst r. apply Rmult_lt_0_compat; [apply IZR_lt; lia | apply powerRZ_2_pos]. }
  assert (HD : (20 <= IZR dt)%R) by (apply IZR_le; lia).
  assert (HL : (1 <= IZR last_cycle_count)%R) by (apply IZR_le; lia).
  destruct (rescale_real_bounds (IZR dt) (IZR last_cycle_count) r q
              HD HL Hrpos Hqpos Hlo Hhi Hq) as [Hup Hdown].
  destruct (shiftl_value mq eq) as [Hs0 Hs1].
  pose proof (shiftl_value_lower mq eq) as Hs2. fold q in Hs1, Hs2.
  assert (Hbound : (q <= IZR last_cycle_count)%R).
  { unfold ulp24 in Hup. nra. }
  assert (Hc : Z.shiftl (Zpos mq) eq <= last_cycle_count).
  { apply le_IZR. lra. }
  exists (Z.shiftl (Zpos mq) eq). split.
  - unfold int_of_float.
    destruct (Z.leb_spec INT_MIN (Z.shiftl (Zpos mq) eq));
      [|unfold INT_MIN in *; lia].
    destruct (Z.leb_spec (Z.shiftl (Zpos mq) eq) INT_MAX);
      [reflexivity | unfold INT_MAX in *; lia].
  - set (c := IZR (Z.shiftl (Zpos mq) eq)) in *.
    assert (Hc0 : (0 <= c)%R) by (subst c; apply IZR_le; lia).
    split.
    + assert ((3 * IZR dt * c <= 3 * IZR dt * q)%R); [|lra].
      apply Rmult_le_compat_l; lra.
    + assert ((3 * IZR dt * q < 3 * IZR dt * (c + 1))%R); [|lra].
      apply Rmult_lt_compat_l; lra.
Qed.

(** ** The arithmetic of an iteration stays in range *)

Section Defined.

Context {P : Platform}.
Variable b : build.

Lemma run_slice_defined fuel : forall i n err s,
  snd (run_slice fuel i n err s) <> Undefined.
Proof.
  induction fuel as [|fuel IH]; intros i n err s.
  - destruct (Z.ltb_spec 0 n).
    + rewrite run_slice_no_fuel by assumption. discriminate.
    + rewrite run_slice_idle by assumption. discriminate.
  - rewrite run_slice_unfold.
    destruct (0 <? n); [|discriminate].
    destruct (fox32_resume _ _ _) as [[e x] m].
    destruct (e =? FOX32_ERR_OK); [apply IH|].
    cbn zeta. destruct (fox32_recover _ _ e) as [e' m'].
    destruct (e' =? FOX32_ERR_OK); [apply IH | discriminate].
Qed.

Lemma run_slices_defined fuel cpt extra dt : forall slices err s,
  snd (run_slices b fuel cpt extra dt slices err s) <> Undefined.
Proof.
  induction slices as [|i rest IH]; intros err s; [discriminate|].
  destruct (run_slices_cons b fuel cpt extra dt i rest err s)
    as (up & tm & s1 & _ & ->).
  pose proof (run_slice_defined fuel i (slice_cycles cpt extra dt i) err s1) as Hd.
  destruct (run_slice fuel i _ err s1) as [t [r| |]]; cbn [snd] in *.
  - apply IH.
  - discriminate.
  - contradiction.
Qed.

Lemma tick_dt_range s : tick_dt s <> 0 /\ INT_MIN <= tick_dt s <= INT_MAX.
Proof.
  unfold tick_dt. split; [apply clamp_dt_nonzero|].
  unfold clamp_dt, elapsed_dt. destruct (_ =? 0).
  - unfold INT_MIN, INT_MAX. lia.
  - apply to_int_range.
Qed.

(** X6. With a clock rate that fits an [int], an estimate that leaves
    room for the margin (at most INT_MAX - 1000), a tick counter below
    INT_MAX and a positive elapsed time, the arithmetic of an iteration of
    main_loop stays in range, in either build: no division traps, no
    float-to-int conversion is out of range, and none of the [int]
    additions of lines 185-186, 202 and 228 overflows (the leftover, the
    new estimate, the budget of the last slice and the tick counter are
    the exact sums). *)
Theorem tick_arithmetic_stays_in_int (fuel : nat) (s : state)
  (Hhz : 0 <= FOX32_CPU_HZ <= INT_MAX)
  (Hestimate : INT_MIN <= last_cycle_count s <= INT_MAX - CYCLE_AUTOADJUST_ADD)
  (Hticks : INT_MIN <= ticks s < INT_MAX)
  (Hdt : 0 < tick_dt s) :
  exists c e estimate,
    tick_budget b s = Some (c, e, estimate) /\
    in_int c /\
    0 <= e < tick_dt s + CYCLE_AUTOADJUST_ADD /\
    in_int (c + e) /\
    slice_cycles c e (tick_dt s) (tick_dt s - 1) = c + e /\
    (adaptive b = true -> CYCLE_AUTOADJUST_ADD <= e /\ estimate = c + e) /\
    (adaptive b = false ->
     estimate = last_cycle_count s /\
     c * tick_dt s + e = Z.quot FOX32_CPU_HZ TPS) /\
    snd (main_loop b fuel s) <> Undefined /\
    (forall s',
       snd (main_loop b fuel s) = Done s' ->
       last_cycle_count s' = estimate /\ ticks s' = ticks s + 1).
Proof.
  destruct (tick_dt_range s) as [_ Hr].
  assert (Hq : 0 <= FOX32_CPU_HZ / 60 < 35791395).
  { split; [apply Z.div_pos; lia|].
    apply Z.div_lt_upper_bound; unfold INT_MAX in *; lia. }
  assert (Hb : exists c e estimate,
             tick_budget b s = Some (c, e, estimate) /\
             in_int c /\ 0 <= e < tick_dt s + CYCLE_AUTOADJUST_ADD /\
             in_int (c + e) /\
             (adaptive b = true ->
              CYCLE_AUTOADJUST_ADD <= e /\ estimate = c + e) /\
             (adaptive b = false ->
              estimate = last_cycle_count s /\
              c * tick_dt s + e = Z.quot FOX32_CPU_HZ TPS)).
  { unfold tick_budget. destruct (adaptive b) eqn:Hab.
    - destruct (cycle_budget_adaptive_defined FOX32_CPU_HZ (last_cycle_count s)
                  (tick_dt s) Hhz ltac:(lia)
                  ltac:(unfold CYCLE_AUTOADJUST_ADD in *; lia))
        as (c & e & est & -> & Hc & He & Hsum & ->).
      assert (Hin : in_int (c + e)).
      { unfold in_int, INT_MIN, INT_MAX, CYCLE_AUTOADJUST_ADD in *. lia. }
      exists c, e, (to_int (c + e)). split; [reflexivity|].
      split; [exact Hc|].
      split; [unfold CYCLE_AUTOADJUST_ADD in *; lia|].
      split; [exact Hin|]. split; [|discriminate].
      intros _. split; [lia | apply to_int_id; exact Hin].
    - unfold cycle_budget.
      rewrite (base_budget_pos FOX32_CPU_HZ (tick_dt s) Hhz ltac:(lia)).
      cbn [obind fst snd].
      assert (Hc : 0 <= FOX32_CPU_HZ / 60 / tick_dt s <= FOX32_CPU_HZ / 60).
      { split; [apply Z.div_pos; lia|]. apply Z.div_le_upper_bound; nia. }
      pose proof (Z.mod_pos_bound (FOX32_CPU_HZ / 60) (tick_dt s) Hdt) as Hm.
      rewrite Z.mod_eq in Hm by lia.
      do 3 eexists. split; [reflexivity|].
      unfold in_int, INT_MIN, INT_MAX, CYCLE_AUTOADJUST_ADD in *.
      split; [lia|]. split; [lia|]. split; [lia|].
      split; [discriminate|]. intros _. split; [reflexivity|].
      rewrite TPS_value, Z.quot_div_nonneg by lia. lia. }
  destruct Hb as (c & e & est & Hbud & Hc & He & Hce & Hadaptive & Hfixed).
  pose proof (main_loop_shape b fuel s) as Hs. rewrite Hbud in Hs.
  destruct Hs as (s0 & _ & _ & _ & Hs). cbn zeta in Hs.
  pose proof (run_slices_defined fuel c e (tick_dt s)
                (slice_indices (tick_dt s)) FOX32_ERR_OK s0) as Hdef.
  exists c, e, est.
  split; [exact Hbud|]. split; [exact Hc|]. split; [exact He|].
  split; [exact Hce|]. split.
  { unfold slice_cycles.
    rewrite (to_int_id (tick_dt s - 1))
      by (unfold in_int, INT_MIN, INT_MAX in *; lia).
    rewrite Z.eqb_refl. apply to_int_id. exact Hce. }
  split; [exact Hadaptive|]. split; [exact Hfixed|]. split.
  - destruct (snd (run_slices b fuel c e _ _ _ s0)) as [r| |].
    + destruct Hs as (s2 & quit & Heq & _). rewrite Heq. discriminate.
    + rewrite Hs. discriminate.
    + contradiction.
  - intros s' Hdone.
    destruct (snd (run_slices b fuel c e _ _ _ s0)) as [r| |].
    + destruct Hs as (s2 & quit & Heq & _ & Hl & Ht & _).
      rewrite Heq in Hdone. cbn [snd] in Hdone.
      injection Hdone as <-. split; [exact Hl|].
      rewrite Ht. apply to_int_id.
      unfold in_int, INT_MIN, INT_MAX in *. lia.
    + rewrite Hs in Hdone. discriminate.
    + contradiction.
Qed.

End Defined.
(** ** The loops around main_loop *)

Section GuardedCalls.

Context {P : Platform}.
Variable b : build.

Lemma slice_trace_guarded i n t :
  slice_trace i n t -> Forall guarded_call t.
Proof.
  assert (Hputs : forall msgs,
             Forall (fun m => exists msg, m = EvPuts i msg) msgs ->
             Forall guarded_call msgs).
  { intros msgs. apply Forall_impl. intros e [msg ->]. exact I. }
  induction 1 as [n | n x t Hn _ IH | n e x msgs t Hn He Hm _ IH
                  | n e e' x msgs Hn He He' Hm].
  - constructor.
  - constructor; [exact Hn | exact IH].
  - constructor; [exact Hn|]. apply Forall_app. split; [auto|].
    constructor; [exact He | exact IH].
  - constructor; [exact Hn|]. apply Forall_app. split; [auto|].
    constructor; [exact He | constructor].
Qed.

Lemma tick_trace_guarded cpt extra dt slices t :
  tick_trace cpt extra dt slices t -> Forall guarded_call t.
Proof.
  induction 1 as [|i slices up tm body t Hb _ IH]; [constructor|].
  constructor; [exact I|]. apply Forall_app. split; [|exact IH].
  eapply slice_trace_guarded; eauto.
Qed.

Lemma other_guarded t : Forall other_event t -> Forall guarded_call t.
Proof.
  apply Forall_impl. intros e [He _]. destruct e; cbn in *; auto; discriminate.
Qed.

(** X7. In every iteration of main_loop, in either build and on any
    platform, fox32_resume is only ever asked for a positive number of
    cycles and fox32_recover is only ever given an error other than
    FOX32_ERR_OK. *)
Theorem core_called_only_under_loop_guards (fuel : nat) (s : state) :
  Forall guarded_call (fst (main_loop b fuel s)).
Proof.
  destruct (main_loop_events b fuel s) as (t & post & -> & Hpost & _ & _ & Hb).
  apply Forall_app. split; [apply other_guarded, cancel_events_other|].
  apply Forall_app. split; [|apply other_guarded, Hpost].
  destruct (tick_budget b s) as [[[cpt extra] est]|].
  - destruct Hb as (Ht & _). eapply tick_trace_guarded; eauto.
  - subst t. constructor.
Qed.

End GuardedCalls.

Section Pace.

Context {P : Platform}.
Variable b : build.

Lemma pace_spec s :
  exists s',
    pace s =
      (pace_events (to_uint32 (fst (SDL_GetTicks (host s)) - tick_start s)),
       Done s') /\
    tick_end s' = fst (SDL_GetTicks (host s)) /\
    tick_start s' = tick_start s /\ vm s' = vm s /\ done s' = done s /\
    ticks s' = ticks s /\ last_cycle_count s' = last_cycle_count s /\
    rtc_uptime s' = rtc_uptime s /\ rtc_time s' = rtc_time s.
Proof.
  unfold pace, pace_events.
  destruct (SDL_GetTicks (host s)) as [now h]. cbn [fst].
  change (tick_end (set_tick_end now (set_host h s))) with now.
  change (tick_start (set_tick_end now (set_host h s))) with (tick_start s).
  change (Z.quot 1000 TPS) with 16.
  set (E := to_uint32 (now - tick_start s)).
  assert (HE : 0 <= E < 2 ^ 32) by (apply Z.mod_pos_bound; lia).
  assert (Hdelay : to_int (to_uint32 (16 - E)) =
                   if E <? 16 then 16 - E
                   else if E <=? 2 ^ 31 + 16 then 16 - E
                   else 2 ^ 32 + 16 - E).
  { unfold to_int, to_uint32.
    destruct (Z.ltb_spec E 16).
    - rewrite (Z.mod_small (16 - E)) by lia. rewrite Z.mod_small by lia. lia.
    - destruct (Z.eq_dec E 16) as [->|Hne].
      + reflexivity.
      + replace (16 - E) with (2 ^ 32 + 16 - E + (-1) * 2 ^ 32) by lia.
        rewrite Z.mod_add by lia. rewrite (Z.mod_small (2 ^ 32 + 16 - E)) by lia.
        destruct (Z.leb_spec E (2 ^ 31 + 16)).
        * replace (2 ^ 32 + 16 - E + 2 ^ 31)
            with (16 - E + 2 ^ 31 + 1 * 2 ^ 32) by lia.
          rewrite Z.mod_add by lia. rewrite Z.mod_small by lia. lia.
        * rewrite Z.mod_small by lia. lia. }
  rewrite Hdelay.
  destruct (Z.ltb_spec E 16) as [H16|H16].
  - destruct (Z.ltb_spec 0 (16 - E)); [|lia].
    rewrite bind_emit. cbn [fst snd ret]. eexists. split; [reflexivity|].
    cbn. repeat split.
  - destruct (Z.leb_spec E (2 ^ 31 + 16)).
    + destruct (Z.ltb_spec 0 (16 - E)); [lia|].
      eexists. split; [reflexivity|]. cbn. repeat split.
    + destruct (Z.ltb_spec 0 (2 ^ 32 + 16 - E)); [|lia].
      rewrite bind_emit. cbn [fst snd ret]. eexists. split; [reflexivity|].
      cbn. repeat split.
Qed.

End Pace.

Section PaceTheorem.

Context {P : Platform}.

(** X10. After an iteration, main waits for what is left of the 16 ms
    (1000 / TPS) since [tick_start]: with [elapsed] the clock difference as
    a [uint32_t], it calls SDL_Delay (16 - elapsed) when [elapsed] is below
    16 and does not wait from 16 up to 2^31 + 16; beyond that the difference
    wraps and it calls SDL_Delay (2^32 + 16 - elapsed). [tick_end] takes the
    clock reading. *)
Theorem pace_sleeps_rest_of_frame (s : state) :
  let elapsed := to_uint32 (fst (SDL_GetTicks (host s)) - tick_start s) in
  0 <= elapsed < 2 ^ 32 /\
  (elapsed < 16 -> events (pace s) = [EvDelay (16 - elapsed)]) /\
  (16 <= elapsed <= 2 ^ 31 + 16 -> events (pace s) = []) /\
  (2 ^ 31 + 16 < elapsed ->
   events (pace s) = [EvDelay (2 ^ 32 + 16 - elapsed)]) /\
  exists s', snd (pace s) = Done s' /\
             tick_end s' = fst (SDL_GetTicks (host s)) /\
             tick_start s' = tick_start s.
Proof.
  cbv zeta. destruct (pace_spec s) as (s' & Hp & Hend & Hstart & _).
  unfold events. rewrite Hp. cbn [fst snd]. unfold pace_events.
  set (E := to_uint32 (fst (SDL_GetTicks (host s)) - tick_start s)).
  assert (HE : 0 <= E < 2 ^ 32) by (apply Z.mod_pos_bound; lia).
  split; [exact HE|]. split; [|split; [|split]].
  - intros H. destruct (Z.ltb_spec E 16); [reflexivity | lia].
  - intros H. destruct (Z.ltb_spec E 16); [lia|].
    destruct (Z.leb_spec E (2 ^ 31 + 16)); [reflexivity | lia].
  - intros H. destruct (Z.ltb_spec E 16); [lia|].
    destruct (Z.leb_spec E (2 ^ 31 + 16)); [lia | reflexivity].
  - exists s'. auto.
Qed.

End PaceTheorem.

Section Loops.

Context {P : Platform}.
Variable b : build.

Lemma pace_events_delay elapsed :
  pace_events elapsed = [] \/ exists ms, pace_events elapsed = [EvDelay ms].
Proof.
  unfold pace_events. destruct (_ <? _); [eauto|]. destruct (_ <=? _); eauto.
Qed.

Lemma timed_not e :
  rtc_of e <> None \/ exec_of e <> None ->
  is_poll e = false /\ is_cancel e = false.
Proof. intros [H|H]; destruct e; cbn in *; auto; congruence. Qed.

Lemma dispatch_events_quiet hl :
  Forall (fun e => is_poll e = false /\ is_cancel e = false)
    (dispatch_events hl).
Proof. unfold dispatch_events. destruct hl; repeat constructor. Qed.

(** The events of an iteration up to its poll of the window: none of them
    is a poll, and a cancel stands at the head only. *)
Lemma main_loop_trace fuel s :
  exists body,
    Forall (fun e => is_poll e = false /\ is_cancel e = false) body /\
    ((snd (main_loop b fuel s) = OutOfFuel \/
      snd (main_loop b fuel s) = Undefined) /\
     fst (main_loop b fuel s) = cancel_events b s ++ body
     \/
     exists s',
       snd (main_loop b fuel s) = Done s' /\
       fst (main_loop b fuel s)
       = cancel_events b s ++ body ++ [EvProcessEvents (done s')]).
Proof.
  pose proof (main_loop_shape b fuel s) as Hs.
  destruct (tick_budget b s) as [[[cpt extra] est]|].
  - destruct Hs as (s0 & _ & _ & _ & Hs). cbn zeta in Hs.
    pose proof (run_slices_trace b fuel cpt extra (tick_dt s)
                  (slice_indices (tick_dt s)) FOX32_ERR_OK s0) as Ht.
    apply tick_trace_timed in Ht.
    assert (Hq : Forall (fun e => is_poll e = false /\ is_cancel e = false)
                   (fst (run_slices b fuel cpt extra (tick_dt s)
                           (slice_indices (tick_dt s)) FOX32_ERR_OK s0))).
    { revert Ht. apply Forall_impl. exact timed_not. }
    destruct (snd (run_slices b fuel cpt extra _ _ _ s0)) as [r| |].
    + destruct Hs as (s2 & quit & Heq & _ & _ & _ & Hd & _).
      exists (fst (run_slices b fuel cpt extra (tick_dt s)
                     (slice_indices (tick_dt s)) FOX32_ERR_OK s0)
              ++ dispatch_events (headless (vm (snd r)))).
      split; [apply Forall_app; split; [exact Hq | apply dispatch_events_quiet]|].
      right. exists s2. rewrite Heq, Hd. cbn [fst snd].
      split; [reflexivity|]. now rewrite <- !app_assoc.
    + eexists. split; [exact Hq|]. left. rewrite Hs. cbn. auto.
    + eexists. split; [exact Hq|]. left. rewrite Hs. cbn. auto.
  - exists []. split; [constructor|]. left. rewrite Hs. cbn.
    rewrite app_nil_r. auto.
Qed.

Lemma cancel_events_no_poll s :
  Forall (fun e => is_poll e = false) (cancel_events b s).
Proof. unfold cancel_events. destruct (_ && _); repeat constructor. Qed.

Lemma no_poll_split (l : list event) x pre y post :
  Forall (fun e => is_poll e = false) l ->
  is_poll y = true ->
  l ++ [x] = pre ++ y :: post -> post = [] /\ y = x.
Proof.
  intros Hl Hy. revert pre. induction l as [|a l IH]; intros pre Heq.
  - destruct pre as [|p pre]; cbn in Heq.
    + injection Heq as -> <-. auto.
    + injection Heq as _ Heq. destruct pre; discriminate.
  - destruct pre as [|p pre]; cbn in Heq.
    + injection Heq as -> _. inversion Hl; subst. congruence.
    + injection Heq as _ Heq. inversion Hl; subst. eauto.
Qed.

Lemma no_poll_in (l : list event) pre y post :
  Forall (fun e => is_poll e = false) l ->
  is_poll y = true -> l = pre ++ y :: post -> False.
Proof.
  intros Hl Hy ->. apply Forall_app in Hl. destruct Hl as [_ Hl].
  inversion Hl; subst. congruence.
Qed.

(** A poll is the last event of an iteration, and its answer is [done]. *)
Lemma main_loop_poll_last fuel s pre q post :
  fst (main_loop b fuel s) = pre ++ EvProcessEvents q :: post ->
  post = [] /\ exists s', snd (main_loop b fuel s) = Done s' /\ done s' = q.
Proof.
  intros Heq. destruct (main_loop_trace fuel s) as (body & Hbody & Hcase).
  assert (Hq : Forall (fun e => is_poll e = false) (cancel_events b s ++ body)).
  { apply Forall_app. split; [apply cancel_events_no_poll|].
    revert Hbody. apply Forall_impl. now intros e [? _]. }
  destruct Hcase as [[_ Ht] | (s' & Hd & Ht)]; rewrite Ht in Heq.
  - exfalso. exact (no_poll_in _ pre (EvProcessEvents q) post Hq eq_refl Heq).
  - rewrite app_assoc in Heq.
    destruct (no_poll_split _ _ pre (EvProcessEvents q) post Hq eq_refl Heq)
      as [-> Hx].
    split; [reflexivity|]. exists s'. split; [exact Hd|]. congruence.
Qed.

(** X11. The loop of main (build without __EMSCRIPTEN__) returns only
    in a state where [done] or [bus_requests_exit] holds, and once
    ScreenProcessEvents has answered true nothing follows in the run but,
    at most, the one SDL_Delay of that iteration's pacing. *)
Theorem pull_loop_stops_when_quit_is_requested (n fuel : nat) (s : state) :
  (forall s',
     snd (pull_loop b n fuel s) = Done s' ->
     done s' = true \/ bus_requests_exit (host s') = true) /\
  (forall pre post,
     fst (pull_loop b n fuel s) = pre ++ EvProcessEvents true :: post ->
     post = [] \/ exists ms, post = [EvDelay ms]).
Proof.
  revert s. induction n as [|n IH]; intros s.
  - cbn [pull_loop].
    destruct (done s) eqn:Hd; cbn [negb andb].
    + split; [intros s' H; injection H as <-; auto|].
      intros pre post H. destruct pre; discriminate.
    + destruct (bus_requests_exit (host s)) eqn:He; cbn [negb].
      * split; [intros s' H; injection H as <-; auto|].
        intros pre post H. destruct pre; discriminate.
      * split; [discriminate|]. intros pre post H. destruct pre; discriminate.
  - cbn [pull_loop].
    destruct (negb (done s) && negb (bus_requests_exit (host s))) eqn:Hc.
    2:{ split.
        - intros s' H. injection H as <-.
          destruct (done s); [auto|]. destruct (bus_requests_exit (host s));
            [auto | discriminate].
        - intros pre post H. destruct pre; discriminate. }
    pose proof (main_loop_poll_last fuel s) as Hpoll.
    destruct (main_loop b fuel s) as [t1 [s1| |]]; cbn [bind fst snd] in *.
    + destruct (pace_spec s1) as (s2 & Hp & _ & _ & _ & Hd2 & _).
      rewrite Hp. cbn [bind].
      destruct (IH s2) as [IH1 IH2].
      destruct (pull_loop b n fuel s2) as [t3 r3] eqn:Hrest.
      cbn [fst snd] in *. split; [exact IH1|].
      intros pre post Heq.
      apply split_app in Heq. destruct Heq as [(mid & Ht1 & ->) | (p & -> & Heq)].
      * destruct (Hpoll _ _ _ Ht1) as (-> & s' & Hs' & Hq).
        injection Hs' as <-.
        assert (Ht3 : t3 = []).
        { destruct n; cbn [pull_loop] in Hrest; rewrite Hd2, Hq in Hrest;
            cbn in Hrest; now injection Hrest as <- _. }
        rewrite Ht3, app_nil_r. cbn [app]. apply pace_events_delay.
      * apply split_app in Heq.
        destruct Heq as [(mid & Hpe & _) | (p' & _ & Heq)].
        -- exfalso.
           destruct (pace_events_delay
                       (to_uint32 (fst (SDL_GetTicks (host s1)) - tick_start s1)))
             as [H0 | [ms H0]]; rewrite H0 in Hpe.
           ++ destruct p; discriminate.
           ++ destruct p as [|? [|? ?]]; discriminate.
        -- eapply IH2; eauto.
    + split; [discriminate|]. intros pre post Heq.
      destruct (Hpoll _ _ _ Heq) as (_ & s' & Hs' & _). discriminate.
    + split; [discriminate|]. intros pre post Heq.
      destruct (Hpoll _ _ _ Heq) as (_ & s' & Hs' & _). discriminate.
Qed.

End Loops.

Section PushLoop.

Context {P : Platform}.
Variable b : build.

(** X12. In the __EMSCRIPTEN__ build, a run of the browser's loop that
    ends has called emscripten_cancel_main_loop exactly once, at the head
    of its last iteration, begun with [done] or [bus_requests_exit] set;
    that iteration is still a complete main_loop, through to its poll of
    the window. *)
Theorem cancelling_iteration_runs_whole_tick (n fuel : nat) (s s' : state)
  (Hbuild : emscripten b = true)
  (Hdone : snd (push_loop b n fuel s) = Done s') :
  exists pre s1 tail,
    fst (push_loop b n fuel s) = pre ++ EvCancelMainLoop :: tail /\
    Forall (fun e => is_cancel e = false) pre /\
    (done s1 = true \/ bus_requests_exit (host s1) = true) /\
    main_loop b fuel s1 = (EvCancelMainLoop :: tail, Done s') /\
    Forall (fun e => is_cancel e = false) tail /\
    exists body, tail = body ++ [EvProcessEvents (done s')].
Proof.
  revert s Hdone. induction n as [|n IH]; intros s Hdone; [discriminate|].
  cbn [push_loop] in *.
  destruct (main_loop_trace b fuel s) as (body & Hbody & Hcase).
  assert (Hquiet : forall q,
             Forall (fun e => is_cancel e = false)
               (body ++ [EvProcessEvents q])).
  { intros q. apply Forall_app. split; [|repeat constructor].
    revert Hbody. apply Forall_impl. now intros e [_ ?]. }
  unfold cancel_events in Hcase. rewrite Hbuild in Hcase. cbn [andb] in Hcase.
  destruct (main_loop b fuel s) as [t1 [s1| |]] eqn:Hml;
    cbn [bind fst snd] in *; try discriminate.
  destruct Hcase as [[[H|H] _] | (s1' & Hs1 & Ht1)]; try discriminate.
  injection Hs1 as <-.
  destruct (done s || bus_requests_exit (host s)) eqn:Hc.
  - cbn [ret fst snd app] in *. injection Hdone as <-.
    exists [], s, (body ++ [EvProcessEvents (done s1)]).
    rewrite app_nil_r. cbn [app] in *.
    split; [exact Ht1|]. split; [constructor|].
    split; [apply orb_true_iff in Hc; exact Hc|].
    split; [rewrite Hml, Ht1; reflexivity|].
    split; [apply Hquiet | eauto].
  - cbn [app] in Ht1.
    destruct (push_loop b n fuel s1) as [t2 r2] eqn:Hrest.
    cbn [fst snd] in *.
    destruct (IH s1) as (pre & s2 & tail & Ht2 & Hpre & Hreq & Hlast & Htail & Hb).
    { rewrite Hrest. exact Hdone. }
    rewrite Hrest in Ht2. cbn [fst] in Ht2.
    exists (t1 ++ pre), s2, tail.
    split; [rewrite Ht2, app_assoc; reflexivity|].
    split; [apply Forall_app; split; [rewrite Ht1; apply Hquiet | exact Hpre]|].
    auto.
Qed.

End PushLoop.

(** ** The option loop *)

Section Options.

Context {P : Platform}.

Lemma mounted_app t1 t2 : mounted (t1 ++ t2) = mounted t1 ++ mounted t2.
Proof. apply flat_map_app. Qed.

Lemma load_rom_spec path s :
  exists t s',
    load_rom path s = (t, Done s') /\ mounted t = [] /\
    host s' = host s /\
    debug (vm s') = debug (vm s) /\ headless (vm s') = headless (vm s) /\
    halted (vm s') = halted (vm s) /\
    (read_rom path (host s) = None -> s' = s).
Proof.
  unfold load_rom. destruct (read_rom path (host s)) as [rom|];
    rewrite bind_emit; cbn [fst snd ret]; do 2 eexists;
    (split; [reflexivity|]); cbn; repeat split; discriminate.
Qed.

#[local] Open Scope string_scope.

Lemma parse_args_disk path rest disk_id s :
  parse_args ("--disk" :: path :: rest) disk_id s =
    (EvNewDisk path disk_id
       :: fst (parse_args rest (disk_id + 1)
                 (set_host (new_disk path disk_id (host s)) s)),
     snd (parse_args rest (disk_id + 1)
            (set_host (new_disk path disk_id (host s)) s))).
Proof.
  cbn [parse_args]. change ("--disk" =? "--help") with false.
  change ("--disk" =? "--disk") with true. cbv iota. apply bind_emit.
Qed.

Lemma parse_args_rom path rest disk_id s :
  parse_args ("--rom" :: path :: rest) disk_id s =
    bind (load_rom path s) (fun s => parse_args rest disk_id s).
Proof. reflexivity. Qed.

Lemma parse_args_debug rest disk_id s :
  parse_args ("--debug" :: rest) disk_id s =
    parse_args rest disk_id (set_vm (set_debug true (vm s)) s).
Proof. reflexivity. Qed.

Lemma parse_args_headless rest disk_id s :
  parse_args ("--headless" :: rest) disk_id s =
    parse_args rest disk_id (set_vm (set_headless true (vm s)) s).
Proof. reflexivity. Qed.

#[local] Close Scope string_scope.

(** X13. Every sequence of the options --disk PATH, --rom PATH, --debug
    and --headless is accepted by the option loop, whatever the paths are
    and whether or not a ROM file opens. The disks are handed to new_disk
    in command-line order, numbered from [disk_id] on; [vm.debug] and
    [vm.headless] are set exactly when their option occurs (and are never
    cleared), [vm.halted] is left alone, and the ROM is untouched unless
    --rom occurs. *)
Theorem option_list_is_accepted (opts : list cli_option) (disk_id : Z) (s : state) :
  exists t s',
    parse_args (command_line opts) disk_id s =
      (t, Done (Parsed (disk_id + Z.of_nat (List.length (disk_paths opts)), s')))
    /\ mounted t = numbered disk_id (disk_paths opts)
    /\ debug (vm s') = debug (vm s) || existsb is_debug_option opts
    /\ headless (vm s') = headless (vm s) || existsb is_headless_option opts
    /\ halted (vm s') = halted (vm s)
    /\ (rom_paths opts = [] -> cpu (vm s') = cpu (vm s)).
Proof.
  revert disk_id s. induction opts as [|o opts IH]; intros disk_id s.
  - exists [], s. cbn. rewrite Z.add_0_r, !orb_false_r. repeat split.
  - destruct o as [path|path| |];
      cbn [command_line flat_map option_words app disk_paths rom_paths
           existsb is_debug_option is_headless_option orb];
      fold (command_line opts); fold (disk_paths opts); fold (rom_paths opts).
    + rewrite parse_args_disk.
      destruct (IH (disk_id + 1) (set_host (new_disk path disk_id (host s)) s))
        as (t & s' & Heq & Hm & Hd & Hh & Hhalt & Hrom).
      rewrite Heq. cbn [fst snd]. do 2 eexists. split.
      { cbn [app List.length].
        replace (disk_id + Z.of_nat (S (List.length (disk_paths opts))))
          with (disk_id + 1 + Z.of_nat (List.length (disk_paths opts))) by lia.
        reflexivity. }
      cbn [mounted flat_map numbered app]. fold (mounted t). rewrite Hm.
      repeat split; assumption.
    + rewrite parse_args_rom.
      destruct (load_rom_spec path s) as (t0 & s0 & -> & Hm0 & _ & Hd0 & Hh0 & Hhalt0 & _).
      cbn [bind].
      destruct (IH disk_id s0) as (t & s' & Heq & Hm & Hd & Hh & Hhalt & Hrom).
      rewrite Heq. do 2 eexists. split; [reflexivity|].
      rewrite mounted_app, Hm0, Hm, Hd, Hh, Hhalt, Hd0, Hh0, Hhalt0.
      repeat split. discriminate.
    + rewrite parse_args_debug.
      destruct (IH disk_id (set_vm (set_debug true (vm s)) s))
        as (t & s' & Heq & Hm & Hd & Hh & Hhalt & Hrom).
      rewrite Heq. do 2 eexists. split; [reflexivity|].
      rewrite Hm, Hd, Hh, Hhalt. cbn. rewrite orb_true_r.
      repeat split. exact Hrom.
    + rewrite parse_args_headless.
      destruct (IH disk_id (set_vm (set_headless true (vm s)) s))
        as (t & s' & Heq & Hm & Hd & Hh & Hhalt & Hrom).
      rewrite Heq. do 2 eexists. split; [reflexivity|].
      rewrite Hm, Hd, Hh, Hhalt. cbn. rewrite orb_true_r.
      repeat split. exact Hrom.
Qed.

End Options.

Section Outcome.

Context {P : Platform}.

#[local] Open Scope string_scope.

Lemma parse_args_outcome_bounded k : forall argv disk_id s,
  (List.length argv <= k)%nat ->
  exists opts rest,
    argv = (command_line opts ++ rest)%list /\
    ((rest = [] /\
      exists r, snd (parse_args argv disk_id s) = Done (Parsed r)) \/
     ((exists tail, rest = "--help" :: tail) /\
      snd (parse_args argv disk_id s) = Done (Exit 0)) \/
     ((rest = ["--disk"] \/ rest = ["--rom"] \/
       exists arg tail, rest = arg :: tail /\ is_option_word arg = false) /\
      snd (parse_args argv disk_id s) = Done (Exit 1))).
Proof.
  induction k as [|k IH]; intros argv disk_id s Hlen.
  - destruct argv; [|cbn in Hlen; lia].
    exists [], []. split; [reflexivity|]. left. split; [reflexivity|].
    cbn. eauto.
  - destruct argv as [|arg rest].
    { exists [], []. split; [reflexivity|]. left. split; [reflexivity|].
      cbn. eauto. }
    cbn [List.length] in Hlen.
    assert (Hstep : forall o argv' d' s',
               arg :: rest = (option_words o ++ argv')%list ->
               (List.length argv' <= k)%nat ->
               snd (parse_args (arg :: rest) disk_id s)
               = snd (parse_args argv' d' s') ->
               exists opts rest0,
                 arg :: rest = (command_line opts ++ rest0)%list /\
                 ((rest0 = [] /\
                   exists r, snd (parse_args (arg :: rest) disk_id s)
                             = Done (Parsed r)) \/
                  ((exists tail, rest0 = "--help" :: tail) /\
                   snd (parse_args (arg :: rest) disk_id s) = Done (Exit 0)) \/
                  ((rest0 = ["--disk"] \/ rest0 = ["--rom"] \/
                    exists arg tail, rest0 = arg :: tail
                                     /\ is_option_word arg = false) /\
                   snd (parse_args (arg :: rest) disk_id s) = Done (Exit 1)))).
    { intros o argv' d' s' Heq Hl Hsnd.
      destruct (IH argv' d' s' Hl) as (opts & rest0 & Hargv & Hcase).
      exists (o :: opts), rest0. split.
      { rewrite Heq, Hargv. cbn [command_line flat_map].
        now rewrite app_assoc. }
      rewrite Hsnd. exact Hcase. }
    destruct (String.eqb_spec arg "--help") as [->|Hhelp].
    { exists [], ("--help" :: rest). split; [reflexivity|].
      right. left. split; [eauto | reflexivity]. }
    destruct (String.eqb_spec arg "--disk") as [->|Hdisk].
    { destruct rest as [|path rest'].
      - exists [], ["--disk"]. split; [reflexivity|].
        right. right. split; [auto | reflexivity].
      - apply (Hstep (OptDisk path) rest' (disk_id + 1)
                 (set_host (new_disk path disk_id (host s)) s)).
        + reflexivity.
        + cbn [List.length] in Hlen. lia.
        + rewrite parse_args_disk. reflexivity. }
    destruct (String.eqb_spec arg "--rom") as [->|Hrom].
    { destruct rest as [|path rest'].
      - exists [], ["--rom"]. split; [reflexivity|].
        right. right. split; [auto | reflexivity].
      - destruct (load_rom_spec path s) as (t0 & s0 & Hl0 & _).
        apply (Hstep (OptRom path) rest' disk_id s0).
        + reflexivity.
        + cbn [List.length] in Hlen. lia.
        + rewrite parse_args_rom, Hl0. cbn [bind].
          destruct (parse_args rest' disk_id s0). reflexivity. }
    destruct (String.eqb_spec arg "--debug") as [->|Hdebug].
    { apply (Hstep OptDebug rest disk_id (set_vm (set_debug true (vm s)) s));
        [reflexivity | lia | reflexivity]. }
    destruct (String.eqb_spec arg "--headless") as [->|Hheadless].
    { apply (Hstep OptHeadless rest disk_id
               (set_vm (set_headless true (vm s)) s));
        [reflexivity | lia | reflexivity]. }
    exists [], (arg :: rest). split; [reflexivity|].
    right. right. split.
    + right. right. exists arg, rest. split; [reflexivity|].
      unfold is_option_word.
      rewrite (proj2 (String.eqb_neq _ _) Hhelp),
        (proj2 (String.eqb_neq _ _) Hdisk),
        (proj2 (String.eqb_neq _ _) Hrom),
        (proj2 (String.eqb_neq _ _) Hdebug),
        (proj2 (String.eqb_neq _ _) Hheadless).
      reflexivity.
    + cbn [parse_args].
      rewrite (proj2 (String.eqb_neq _ _) Hhelp),
        (proj2 (String.eqb_neq _ _) Hdisk),
        (proj2 (String.eqb_neq _ _) Hrom),
        (proj2 (String.eqb_neq _ _) Hdebug),
        (proj2 (String.eqb_neq _ _) Hheadless).
      reflexivity.
Qed.

(** X14. The option loop always ends, and its outcome is read off the
    first word that is not part of an option: none, and main goes on; the
    word --help, and main returns 0; a last word --disk or --rom without
    its path, or a word that is none of the five options, and main returns
    1. The word after --disk or --rom is always taken as a path. *)
Theorem option_loop_outcome (argv : list string) (disk_id : Z) (s : state) :
  exists opts rest,
    argv = (command_line opts ++ rest)%list /\
    ((rest = [] /\
      exists r, snd (parse_args argv disk_id s) = Done (Parsed r)) \/
     ((exists tail, rest = "--help" :: tail) /\
      snd (parse_args argv disk_id s) = Done (Exit 0)) \/
     ((rest = ["--disk"] \/ rest = ["--rom"] \/
       exists arg tail, rest = arg :: tail /\ is_option_word arg = false) /\
      snd (parse_args argv disk_id s) = Done (Exit 1))).
Proof. apply (parse_args_outcome_bounded (List.length argv)). lia. Qed.

#[local] Close Scope string_scope.

End Outcome.

(** ** Startup and exit status *)

Lemma Forall_bind {A B : Type} (Q : event -> Prop) (c : run A) (f : A -> run B) :
  Forall Q (fst c) ->
  (forall a, snd c = Done a -> Forall Q (fst (f a))) ->
  Forall Q (fst (bind c f)).
Proof.
  intros Hc Hf. destruct c as [t [a| |]]; cbn in *; try assumption.
  specialize (Hf a eq_refl). destruct (f a) as [t' r]. cbn in *.
  apply Forall_app. auto.
Qed.

Section Startup.

Context {P : Platform}.
Variable b : build.

Lemma timed_not_startup e :
  rtc_of e <> None \/ exec_of e <> None -> is_startup e = false.
Proof. intros [H|H]; destruct e; cbn in *; auto; congruence. Qed.

Lemma main_loop_no_startup fuel s :
  Forall (fun e => is_startup e = false) (fst (main_loop b fuel s)).
Proof.
  destruct (main_loop_events b fuel s) as (t & post & -> & _ & Hpost & _ & Hb).
  apply Forall_app. split.
  { unfold cancel_events. destruct (_ && _); repeat constructor. }
  apply Forall_app. split.
  - destruct (tick_budget b s) as [[[cpt extra] est]|].
    + destruct Hb as (Ht & _). apply tick_trace_timed in Ht.
      revert Ht. apply Forall_impl. exact timed_not_startup.
    + subst t. constructor.
  - destruct Hpost as [-> | (hl & quit & ->)]; [constructor|].
    unfold dispatch_events. destruct hl; repeat constructor.
Qed.

Lemma pace_no_startup s :
  Forall (fun e => is_startup e = false) (fst (pace s)).
Proof.
  destruct (pace_spec s) as (s' & -> & _). cbn [fst].
  destruct (pace_events_delay
              (to_uint32 (fst (SDL_GetTicks (host s)) - tick_start s)))
    as [-> | [ms ->]]; repeat constructor.
Qed.

Lemma pull_loop_no_startup fuel n : forall s,
  Forall (fun e => is_startup e = false) (fst (pull_loop b n fuel s)).
Proof.
  induction n as [|n IH]; intros s; cbn [pull_loop];
    destruct (negb (done s) && negb (bus_requests_exit (host s)));
    try constructor.
  apply Forall_bind; [apply main_loop_no_startup|]. intros s1 _.
  apply Forall_bind; [apply pace_no_startup|]. intros s2 _. apply IH.
Qed.

Lemma push_loop_no_startup fuel n : forall s,
  Forall (fun e => is_startup e = false) (fst (push_loop b n fuel s)).
Proof.
  induction n as [|n IH]; intros s; cbn [push_loop]; [constructor|].
  apply Forall_bind; [apply main_loop_no_startup|]. intros s1 _.
  destruct (done s || bus_requests_exit (host s)); [constructor | apply IH].
Qed.

End Startup.

Section MainFacts.

Context {P : Platform}.
Variable b : build.

Lemma start_spec n fuel s :
  exists loop,
    fst (start b n fuel s) = serial_events b ++ loop /\
    Forall (fun e => is_startup e = false) loop /\
    (forall code, snd (start b n fuel s) = Done (Some code) ->
                  code = 0 /\ emscripten b = false).
Proof.
  unfold start, serial_events.
  set (pre := if windows b then _ else _).
  assert (Hpre : exists s1,
             pre = ((if windows b then [] else [EvSerialInit]), Done s1)).
  { subst pre. destruct (windows b); [eexists; reflexivity|].
    rewrite bind_emit. eexists. reflexivity. }
  destruct Hpre as [s1 ->]. cbn [bind].
  destruct (SDL_GetTicks (host s1)) as [now h].
  destruct (SDL_GetTicks _) as [now' h'].
  set (s2 := set_tick_end now' _).
  destruct (emscripten b).
  - pose proof (push_loop_no_startup b fuel n s2) as Hl.
    destruct (push_loop b n fuel s2) as [t [r| |]]; cbn [bind ret fst snd] in *.
    + exists (t ++ []). split; [reflexivity|].
      split; [rewrite app_nil_r; exact Hl | discriminate].
    + exists t. split; [reflexivity|]. split; [exact Hl | discriminate].
    + exists t. split; [reflexivity|]. split; [exact Hl | discriminate].
  - pose proof (pull_loop_no_startup b fuel n s2) as Hl.
    destruct (pull_loop b n fuel s2) as [t [r| |]]; cbn [bind ret fst snd] in *.
    + exists (t ++ []). split; [reflexivity|].
      split; [rewrite app_nil_r; exact Hl|].
      intros code H. injection H as <-. auto.
    + exists t. split; [reflexivity|]. split; [exact Hl | discriminate].
    + exists t. split; [reflexivity|]. split; [exact Hl | discriminate].
Qed.

Lemma open_window_spec s :
  exists s',
    open_window s =
      (window_events s, Done (if window_failed s then Exit 1 else Parsed s')) /\
    vm s' = vm s.
Proof.
  unfold open_window, window_events, window_failed.
  destruct (headless (vm s)); cbn [negb andb].
  - exists s. split; reflexivity.
  - destruct (SDL_Init (host s)) as [status h]. cbn [fst].
    rewrite bind_emit.
    destruct (status =? 0); cbn [negb].
    + rewrite bind_emit. cbn [fst snd]. rewrite bind_emit. cbn [fst snd ret].
      eexists. split; [reflexivity|]. reflexivity.
    + rewrite bind_emit. cbn [fst snd ret]. exists s. split; reflexivity.
Qed.

Lemma load_rom_events path s :
  exists t s', load_rom path s = (t, Done s') /\
    Forall (fun e => is_option_event e = true) t.
Proof.
  unfold load_rom. destruct (read_rom path (host s));
    rewrite bind_emit; cbn [fst snd ret]; do 2 eexists;
    (split; [reflexivity|]); repeat constructor.
Qed.

Lemma parse_args_events k : forall argv disk_id s,
  (List.length argv <= k)%nat ->
  Forall (fun e => is_option_event e = true) (fst (parse_args argv disk_id s)) /\
  (exists r, snd (parse_args argv disk_id s) = Done r) /\
  (forall code,
     snd (parse_args argv disk_id s) = Done (Exit code) ->
     (code = 0 \/ code = 1) /\
     exists t msg, fst (parse_args argv disk_id s) = t ++ [EvStderr msg]).
Proof.
  induction k as [|k IH]; intros argv disk_id s Hlen.
  - destruct argv; [|cbn in Hlen; lia]. cbn.
    split; [constructor|]. split; [eauto | discriminate].
  - destruct argv as [|arg rest].
    { cbn. split; [constructor|]. split; [eauto | discriminate]. }
    cbn [parse_args]. cbn [List.length] in Hlen.
    assert (Hstop : forall msg code,
               (code = 0 \/ code = 1) ->
               let c := bind (emit (EvStderr msg))
                          (fun _ => ret (Exit (A := Z * state) code)) in
               Forall (fun e => is_option_event e = true) (fst c) /\
               (exists r, snd c = Done r) /\
               (forall code',
                  snd c = Done (Exit code') ->
                  (code' = 0 \/ code' = 1) /\
                  exists t msg', fst c = t ++ [EvStderr msg'])).
    { intros msg code Hcode. cbn.
      split; [repeat constructor|]. split; [eauto|].
      intros code' H. injection H as <-. split; [exact Hcode|].
      exists [], msg. reflexivity. }
    destruct (String.eqb arg "--help"); [apply Hstop; auto|].
    destruct (String.eqb arg "--disk").
    { destruct rest as [|path rest']; [apply Hstop; auto|].
      rewrite bind_emit. cbn [fst snd].
      destruct (IH rest' (disk_id + 1)
                  (set_host (new_disk path disk_id (host s)) s))
        as (Hev & Hdone & Hexit); [cbn [List.length] in Hlen; lia|].
      split; [constructor; [reflexivity | exact Hev]|].
      split; [exact Hdone|]. intros code H.
      destruct (Hexit code H) as (Hc & t & msg & ->).
      split; [exact Hc|]. exists (EvNewDisk path disk_id :: t), msg.
      reflexivity. }
    destruct (String.eqb arg "--rom").
    { destruct rest as [|path rest']; [apply Hstop; auto|].
      destruct (load_rom_events path s) as (t0 & s0 & -> & Ht0). cbn [bind].
      destruct (IH rest' disk_id s0)
        as (Hev & Hdone & Hexit); [cbn [List.length] in Hlen; lia|].
      destruct (parse_args rest' disk_id s0) as [t1 r1]. cbn [fst snd] in *.
      split; [apply Forall_app; auto|]. split; [exact Hdone|].
      intros code H. destruct (Hexit code H) as (Hc & t & msg & ->).
      split; [exact Hc|]. exists (t0 ++ t), msg. now rewrite app_assoc. }
    destruct (String.eqb arg "--debug"); [apply IH; lia|].
    destruct (String.eqb arg "--headless"); [apply IH; lia|].
    apply Hstop; auto.
Qed.

Lemma configure_events args h :
  Forall (fun e => is_option_event e = true) (fst (configure b args h)) /\
  (exists r, snd (configure b args h) = Done r) /\
  (forall code,
     snd (configure b args h) = Done (Exit code) ->
     (code = 0 \/ code = 1) /\
     exists t msg, fst (configure b args h) = t ++ [EvStderr msg]).
Proof.
  unfold configure. destruct (emscripten b).
  - rewrite bind_emit. cbn [fst snd ret].
    split; [repeat constructor|]. split; [eauto | discriminate].
  - apply (parse_args_events (List.length args)). lia.
Qed.

(** X15. Once the options are parsed, the run of main is: the events of
    the option loop (messages and disks only); then, unless headless, one
    SDL_Init followed by the screen setup and the first draw, or by an
    error message when SDL_Init fails, in which case main returns 1 and
    nothing follows; then serial_init (unless WINDOWS), and only then the
    loop, which never again touches SDL_Init, the screen setup, the serial
    port, the disks or the message streams. *)
Theorem window_opens_once_before_the_loop
  (n fuel : nat) (args : list string) (h : host_t) (disk_id : Z) (s : state)
  (Hconfigured : snd (configure b args h) = Done (Parsed (disk_id, s))) :
  exists loop,
    events (main b n fuel args h) =
      events (configure b args h) ++ window_events s
        ++ (if window_failed s then [] else serial_events b ++ loop) /\
    Forall (fun e => is_option_event e = true) (events (configure b args h)) /\
    Forall (fun e => is_startup e = false) loop /\
    (window_failed s = true ->
     snd (main b n fuel args h) = Done (Some 1)).
Proof.
  pose proof (proj1 (configure_events args h)) as Hopt.
  unfold events, main in *.
  destruct (configure b args h) as [t0 r0]. cbn [snd] in Hconfigured.
  subst r0. cbn [bind fst].
  destruct (open_window_spec s) as (s' & -> & _). cbn [bind].
  destruct (window_failed s).
  - cbn [ret fst snd]. exists []. rewrite !app_nil_r.
    split; [reflexivity|]. split; [exact Hopt|].
    split; [constructor | reflexivity].
  - destruct (start_spec n fuel s') as (loop & Hst & Hl & _).
    destruct (start b n fuel s') as [t2 r2]. cbn [fst snd] in *. subst t2.
    exists loop. split; [reflexivity|]. split; [exact Hopt|].
    split; [exact Hl | discriminate].
Qed.

(** X16. main returns 0 or 1, never another status. When it returns 1,
    the last thing it did was to print a message on stderr, and before
    that it only printed messages, mounted disks and called SDL_Init: no
    screen setup, no serial_init, no tick. *)
Theorem early_return_follows_an_error_message
  (n fuel : nat) (args : list string) (h : host_t) (code : Z)
  (Hreturn : snd (main b n fuel args h) = Done (Some code)) :
  (code = 0 \/ code = 1) /\
  (code = 1 ->
   exists t msg,
     events (main b n fuel args h) = t ++ [EvStderr msg] /\
     Forall (fun e => before_window e = true) t).
Proof.
  destruct (configure_events args h) as (Hopt & _ & Hexit).
  assert (Hbw : forall t, Forall (fun e => is_option_event e = true) t ->
                          Forall (fun e => before_window e = true) t).
  { intros t. apply Forall_impl. intros e He. destruct e; cbn in *; congruence. }
  unfold events, main in *.
  destruct (configure b args h) as [t0 [[[d s]|c]| |]];
    cbn [bind fst snd ret] in *; try discriminate.
  - destruct (open_window_spec s) as (s' & Hw & _). rewrite Hw in *.
    cbn [bind] in *. unfold window_events, window_failed in *.
    destruct (headless (vm s)); cbn [negb andb] in *.
    + destruct (start_spec n fuel s') as (loop & _ & _ & Hcode).
      destruct (start b n fuel s') as [t2 r2]. cbn [fst snd] in *.
      destruct (Hcode code Hreturn) as [-> _]. split; [auto | discriminate].
    + destruct (fst (SDL_Init (host s)) =? 0); cbn [negb] in *.
      * destruct (start_spec n fuel s') as (loop & _ & _ & Hcode).
        destruct (start b n fuel s') as [t2 r2]. cbn [fst snd] in *.
        destruct (Hcode code Hreturn) as [-> _]. split; [auto | discriminate].
      * cbn [ret fst snd] in *. injection Hreturn as <-.
        split; [auto|]. intros _.
        eexists (t0 ++ [EvSDLInit _]), _. split.
        { rewrite <- app_assoc. reflexivity. }
        apply Forall_app. split; [apply Hbw, Hopt | repeat constructor].
  - rewrite app_nil_r. injection Hreturn as <-.
    destruct (Hexit c eq_refl) as (Hc & t & msg & ->).
    split; [exact Hc|]. intros _. exists t, msg. split; [reflexivity|].
    apply Forall_app in Hopt. apply Hbw. apply Hopt.
Qed.

End MainFacts.

(** ** The further theorems on concrete runs *)

(** A computation that ends, ends in its final state. *)
Lemma final_state_done {P : Platform} (c : run state) (s : state) :
  ends c = true -> snd c = Done (final_state c s).
Proof. unfold ends, final_state. destruct (snd c); [reflexivity | discriminate | discriminate]. Qed.

(** A tick of 16 ms across the wrap of the counter. *)
Lemma elapsed_dt_wraparound_witness :
  elapsed_dt (to_uint32 (4294967290 + 16)) 4294967290 =
    if 16 <? 2 ^ 31 then 16 else 16 - 2 ^ 32.
Proof. apply (elapsed_dt_wraparound 4294967290 16); lia. Defined.

(** A tick of 25 ms with an estimate of 100000 cycles. *)
Lemma slow_tick_rescales_estimate_witness :
  exists c,
    cycle_budget 64000000 true 100000 25 =
      Some (c, CYCLE_AUTOADJUST_ADD, to_int (c + CYCLE_AUTOADJUST_ADD)) /\
    (3 * IZR 25 * IZR c <= 50 * IZR 100000 * (1 + 5 * ulp24))%R /\
    (50 * IZR 100000 * (1 - 5 * ulp24) < 3 * IZR 25 * (IZR c + 1))%R.
Proof.
  apply (slow_tick_rescales_estimate 64000000 100000 25); unfold INT_MAX; lia.
Defined.

(** A slow tick of the adaptive build from the initial estimate. *)
Lemma tick_arithmetic_stays_in_int_witness :
  exists c e estimate,
    tick_budget emscripten_build
      (uniform_state 64000000 (fun count => (0, count)) 25)
    = Some (c, e, estimate) /\
    in_int c /\ in_int (c + e) /\ estimate = c + e /\
    snd (main_loop emscripten_build 10
           (uniform_state 64000000 (fun count => (0, count)) 25)) <> Undefined /\
    last_cycle_count
      (final_state
         (main_loop emscripten_build 10
            (uniform_state 64000000 (fun count => (0, count)) 25))
         (uniform_state 64000000 (fun count => (0, count)) 25))
    = estimate /\
    ticks
      (final_state
         (main_loop emscripten_build 10
            (uniform_state 64000000 (fun count => (0, count)) 25))
         (uniform_state 64000000 (fun count => (0, count)) 25))
    = ticks (uniform_state 64000000 (fun count => (0, count)) 25) + 1.
Proof.
  destruct (tick_arithmetic_stays_in_int (P := steady_platform)
              emscripten_build 10
              (uniform_state 64000000 (fun count => (0, count)) 25))
    as (c & e & est & H1 & H2 & _ & H3 & _ & H4 & _ & H5 & H6).
  - change (0 <= 64000000 <= INT_MAX). unfold INT_MAX. lia.
  - change (INT_MIN <= 1 <= INT_MAX - CYCLE_AUTOADJUST_ADD).
    unfold INT_MIN, INT_MAX, CYCLE_AUTOADJUST_ADD. lia.
  - change (INT_MIN <= 0 < INT_MAX). unfold INT_MIN, INT_MAX. lia.
  - reflexivity.
  - exists c, e, est. split; [exact H1|]. split; [exact H2|].
    split; [exact H3|]. split; [exact (proj2 (H4 eq_refl))|].
    split; [exact H5|]. apply H6.
    apply (final_state_done
             (main_loop (P := steady_platform) emscripten_build 10
                (uniform_state 64000000 (fun count => (0, count)) 25))).
    vm_compute. reflexivity.
Defined.

(** A tick of 2 ms on the core that runs all it is asked for. *)
Lemma fault_free_tick_executes_whole_budget_witness :
  executed_total
    (fst (main_loop native_build 10
            (uniform_state 64000000 (fun count => (0, count)) 2)))
  = zsum (map (Z.max 0)
            (slice_plan 533333 0
               (tick_dt (uniform_state 64000000 (fun count => (0, count)) 2))))
  /\
  (adaptive native_build = false ->
   0 <= FOX32_CPU_HZ (Platform := steady_platform) <= INT_MAX ->
   0 < tick_dt (uniform_state 64000000 (fun count => (0, count)) 2) ->
   executed_total
     (fst (main_loop native_build 10
             (uniform_state 64000000 (fun count => (0, count)) 2)))
   = Z.quot (FOX32_CPU_HZ (Platform := steady_platform)) TPS).
Proof.
  apply (fault_free_tick_executes_whole_budget (P := steady_platform)
           native_build 10
           (uniform_state 64000000 (fun count => (0, count)) 2)
           (final_state
              (main_loop native_build 10
                 (uniform_state 64000000 (fun count => (0, count)) 2))
              (uniform_state 64000000 (fun count => (0, count)) 2))
           533333 0 1).
  - intros v h n Hn. cbn. lia.
  - vm_compute. reflexivity.
  - unfold INT_MAX. lia.
  - apply final_state_done. vm_compute. reflexivity.
  - vm_compute. reflexivity.
Defined.

(** A tick of 3 ms advances the uptime by 3. *)
Lemma uptime_advances_by_elapsed_ms_witness :
  rtc_uptime
    (final_state (main_loop native_build 10 (toy_state 64000000 3 [] RunAll))
       (toy_state 64000000 3 [] RunAll)) =
  to_uint32 (rtc_uptime (toy_state 64000000 3 [] RunAll)
             + Z.max 0 (tick_dt (toy_state 64000000 3 [] RunAll))).
Proof.
  apply (uptime_advances_by_elapsed_ms native_build 10
           (toy_state 64000000 3 [] RunAll)).
  - reflexivity.
  - cbn. lia.
  - apply final_state_done. vm_compute. reflexivity.
Defined.

(** The browser's loop entered with [done] set: one iteration, cancelled
    at its head and run to its end. *)
Lemma cancelling_iteration_runs_whole_tick_witness :
  exists pre s1 tail,
    fst (push_loop emscripten_build 3 10
           (set_done true (uniform_state 64000000 (fun count => (0, count)) 16)))
    = pre ++ EvCancelMainLoop :: tail /\
    Forall (fun e => is_cancel e = false) pre /\
    (done s1 = true \/ bus_requests_exit (host s1) = true) /\
    main_loop (P := steady_platform) emscripten_build 10 s1
      = (EvCancelMainLoop :: tail,
         Done (final_state
                 (push_loop emscripten_build 3 10
                    (set_done true
                       (uniform_state 64000000 (fun count => (0, count)) 16)))
                 (uniform_state 64000000 (fun count => (0, count)) 16))) /\
    Forall (fun e => is_cancel e = false) tail /\
    exists body,
      tail = body ++
        [EvProcessEvents
           (done (final_state
                    (push_loop emscripten_build 3 10
                       (set_done true
                          (uniform_state 64000000 (fun count => (0, count)) 16)))
                    (uniform_state 64000000 (fun count => (0, count)) 16)))].
Proof.
  apply (cancelling_iteration_runs_whole_tick (P := steady_platform)
           emscripten_build 3 10
           (set_done true (uniform_state 64000000 (fun count => (0, count)) 16))).
  - reflexivity.
  - apply final_state_done. vm_compute. reflexivity.
Defined.

(** main with one disk, two iterations. *)
Lemma window_opens_once_before_the_loop_witness :
  exists loop,
    events (main (P := steady_platform) native_build 2 10
              ["--disk"; "fox32os.img"]%string (Build_toy_host 0 8)) =
      events (configure (P := steady_platform) native_build
                ["--disk"; "fox32os.img"]%string (Build_toy_host 0 8))
      ++ window_events (initial_state (P := steady_platform) (Build_toy_host 0 8))
      ++ (if window_failed
               (initial_state (P := steady_platform) (Build_toy_host 0 8))
          then [] else serial_events native_build ++ loop) /\
    Forall (fun e => is_option_event e = true)
      (events (configure (P := steady_platform) native_build
                 ["--disk"; "fox32os.img"]%string (Build_toy_host 0 8))) /\
    Forall (fun e => is_startup e = false) loop /\
    (window_failed (initial_state (P := steady_platform) (Build_toy_host 0 8))
       = true ->
     snd (main (P := steady_platform) native_build 2 10
            ["--disk"; "fox32os.img"]%string (Build_toy_host 0 8))
     = Done (Some 1)).
Proof.
  apply (window_opens_once_before_the_loop (P := steady_platform) native_build
           2 10 ["--disk"; "fox32os.img"]%string (Build_toy_host 0 8) 1
           (initial_state (P := steady_platform) (Build_toy_host 0 8))).
  reflexivity.
Defined.

(** main with --disk as its last word returns 1. *)
Lemma early_return_follows_an_error_message_witness :
  (1 = 0 \/ 1 = 1) /\
  (1 = 1 ->
   exists t msg,
     events (main (P := steady_platform) native_build 2 10
               ["--debug"; "--disk"]%string (Build_toy_host 0 8))
     = t ++ [EvStderr msg] /\
     Forall (fun e => before_window e = true) t).
Proof.
  apply (early_return_follows_an_error_message (P := steady_platform)
           native_build 2 10 ["--debug"; "--disk"]%string (Build_toy_host 0 8) 1).
  reflexivity.
Defined.

(** ** Faults and the interrupt dispatch, by the state and the cycles *)

Section Account.

Context {P : Platform}.
Variable b : build.







End Account.

Section Faults.

Context {P : Platform}.
Variable b : build.



End Faults.

Section Dispatch.

Context {P : Platform}.
Variable b : build.




End Dispatch.



